(** * Watercolor sketches: stroke engine, frame loop and pitch detector

    A shallow embedding of the p5.js sketches of the repository.  JavaScript
    numbers are IEEE binary64 values, modelled by primitive floats; arrays
    that the code shares and mutates in place (the vertex arrays of the
    brushes) live in a store indexed by array identity. *)

From Stdlib Require Import Floats ZArith List Lia Bool String.
From stdpp Require Import base option list gmap.

#[local] Set Warnings "-inexact-float".
Local Open Scope nat_scope.

(** ** Numbers *)

Module Num.

(** A JavaScript integer value (an array length, a loop counter that is
    only ever incremented from zero) read as a number. *)
Definition of_nat (n : nat) : float :=
  PrimFloat.of_uint63 (Uint63.of_Z (Z.of_nat n)).

(** [x > y] of JavaScript. *)
Definition gt (x y : float) : bool := PrimFloat.ltb y x.

(** [x <= y] of JavaScript. *)
Definition le (x y : float) : bool := PrimFloat.leb x y.

End Num.

(** ** The store *)

(** A vertex: [[x, y]] in three of the sketches, [{x, y}] in the fourth.
    Vertices are never written after they are built. *)
Record point : Type := Point { px : float; py : float }.

(** A p5 colour: the palette entry it was built from and its alpha. *)
Record colour : Type := Colour { pigment : string; alpha : float }.

(** What [display] leaves on the canvas: one filled closed shape. *)
Record shape : Type := Shape { outline : list point; fill : colour }.

Record world : Type := World {
  arrays : gmap nat (list point);  (* vertex arrays, by identity *)
  next_array : nat;                (* identity of the next array literal *)
  rng : nat -> float;              (* successive outputs of Math.random *)
  drawn : nat;                     (* how many of them were consumed *)
  brushRadius : float;
  brushColor : string;
  canvas : list shape              (* shapes drawn so far, oldest first *)
}.

Definition set_arrays (f : gmap nat (list point) -> gmap nat (list point))
    (w : world) : world :=
  World (f (arrays w)) (next_array w) (rng w) (drawn w)
        (brushRadius w) (brushColor w) (canvas w).

Definition set_next_array (n : nat) (w : world) : world :=
  World (arrays w) n (rng w) (drawn w) (brushRadius w) (brushColor w) (canvas w).

Definition set_drawn (n : nat) (w : world) : world :=
  World (arrays w) (next_array w) (rng w) n
        (brushRadius w) (brushColor w) (canvas w).

Definition set_canvas (c : list shape) (w : world) : world :=
  World (arrays w) (next_array w) (rng w) (drawn w)
        (brushRadius w) (brushColor w) c.

(** ** A state-and-exception monad for the sketch *)

Inductive outcome (A : Type) : Type :=
| Ok (a : A) (w : world)
| TypeError            (* reading a property of undefined *)
| OutOfFuel.           (* a loop bounded by a number did not stop *)

Arguments Ok {A} a w.
Arguments TypeError {A}.
Arguments OutOfFuel {A}.

Definition M (A : Type) : Type := world -> outcome A.

Definition ret {A} (a : A) : M A := fun w => Ok a w.

Definition bind {A B} (c : M A) (k : A -> M B) : M B :=
  fun w => match c w with
           | Ok a w' => k a w'
           | TypeError => TypeError
           | OutOfFuel => OutOfFuel
           end.

Notation "'let*' x := c 'in' k" := (bind c (fun x => k))
  (at level 10, x name, c at level 200, k at level 200).

Definition throw {A} : M A := fun _ => TypeError.
Definition timeout {A} : M A := fun _ => OutOfFuel.
Definition gets {A} (f : world -> A) : M A := fun w => Ok (f w) w.
Definition modify (f : world -> world) : M unit := fun w => Ok tt (f w).

(** [for (x of xs) s = body(x, s)]: a loop over a list that the body does not
    change. *)
Fixpoint mfor {A St} (xs : list A) (body : A -> St -> M St) (s : St) : M St :=
  match xs with
  | [] => ret s
  | x :: rest => let* s' := body x s in mfor rest body s'
  end.

(** [for (let i = from; i < bound; i++)] where [bound] is a number that need
    not be an integer. *)
Fixpoint for_lt {St} (fuel i : nat) (bound : float)
    (body : nat -> St -> M St) (s : St) : M St :=
  match fuel with
  | 0 => timeout
  | S fuel' =>
      if PrimFloat.ltb (Num.of_nat i) bound
      then let* s' := body i s in for_lt fuel' (S i) bound body s'
      else ret s
  end.

(** [for (let i = from; i > 0; i--)] where [i] is a number. *)
Fixpoint for_down {St} (fuel : nat) (i : float)
    (body : St -> M St) (s : St) : M St :=
  match fuel with
  | 0 => timeout
  | S fuel' =>
      if Num.gt i 0
      then let* s' := body s in for_down fuel' (i - 1)%float body s'
      else ret s
  end.

(** ** p5 and array primitives *)

(** p5's [random(min, max)]: one output of the generator, scaled. *)
Definition random2 (lo hi : float) : M float := fun w =>
  let u := rng w (drawn w) in
  let '(lo', hi') := if Num.gt lo hi then (hi, lo) else (lo, hi) in
  Ok (u * (hi' - lo') + lo')%float (set_drawn (S (drawn w)) w).

(** p5's [random(max)]. *)
Definition random1 (hi : float) : M float := fun w =>
  Ok (rng w (drawn w) * hi)%float (set_drawn (S (drawn w)) w).

(** An array literal: a new array, distinct from all others. *)
Definition new_array (vs : list point) : M nat := fun w =>
  Ok (next_array w)
     (set_next_array (S (next_array w)) (set_arrays <[next_array w := vs]> w)).

Definition read_array (a : nat) : M (list point) := fun w =>
  match arrays w !! a with
  | Some vs => Ok vs w
  | None => TypeError
  end.

(** [a[i]] followed by a property read: fails when [a[i]] is undefined. *)
Definition element (a i : nat) : M point :=
  let* vs := read_array a in
  match vs !! i with
  | Some p => ret p
  | None => throw
  end.

(** [a.push(p)] *)
Definition push (a : nat) (p : point) : M unit :=
  let* vs := read_array a in
  modify (set_arrays <[a := vs ++ [p]]>).

(** [a.splice(1, 0, p)]: the start index is clamped to the length. *)
Definition splice1 (a : nat) (p : point) : M unit :=
  let* vs := read_array a in
  modify (set_arrays <[a := take 1 vs ++ p :: drop 1 vs]>).

(** ** class brush *)

Record brush : Type := Brush {
  vertices : nat;               (* a reference to a vertex array *)
  newVertices : list point;     (* owned by the brush, never shared *)
  color : colour
}.

Definition set_newVertices (nv : list point) (b : brush) : brush :=
  Brush (vertices b) nv (color b).

(** The three ways the sketches build brushes and bundles:
    [Fixed25] is src/sketch.js, [Drawn10_30] is src/unnamed/part_000 and the
    second sketch of src/unnamed/part_001, [Drawn8_32] is the first sketch of
    src/unnamed/part_001 (classes Brush and Strokes). *)
Inductive sketch : Type := Fixed25 | Drawn10_30 | Drawn8_32.

(** ECMAScript's [Math.round], which p5's [round] calls: the nearest integer,
    ties towards plus infinity. *)
Definition round (x : float) : float :=
  match Prim2SF x with
  | S754_finite s m e =>
      if (0 <=? e)%Z then x
      else
        let sm := if s then Z.neg m else Z.pos m in
        let z := Z.shiftr (2 * sm + Z.shiftl 1 (- e)) (1 - e) in
        if (z =? 0)%Z then (if s then (-0)%float else 0%float)
        else SF2Prim (binary_normalize prec emax z 0 false)
  | _ => x
  end.

(** [constructor(v)]: the reference [v] itself is stored. *)
Definition brush_new (sk : sketch) (v : nat) : M brush :=
  let* c := gets brushColor in
  let* a := match sk with
            | Drawn8_32 => let* r := random2 1 2 in ret (round r)
            | _ => ret 2%float
            end in
  ret (Brush v [] (Colour c a)).

(** One new vertex between the vertices at indices [i] and [j]. *)
Definition between (b : brush) (i j : nat) : M point :=
  let* vi := element (vertices b) i in
  let* vj := element (vertices b) j in
  let* r := gets brushRadius in
  let* dx := random2 (- r) r in
  let* dy := random2 (- r) r in
  ret (Point ((px vi + px vj) / 2 + dx) ((py vi + py vj) / 2 + dy)).

(** [deform()] *)
Definition deform (b : brush) : M brush :=
  let* vs := read_array (vertices b) in
  let* b1 := mfor (seq 0 (length vs - 1))
          (fun i b' => let* p := between b' i (i + 1) in
                       ret (set_newVertices (newVertices b' ++ [p]) b')) b in
  let* vs' := read_array (vertices b1) in
  let* p := between b1 0 (length vs' - 1) in
  let b2 := set_newVertices (newVertices b1 ++ [p]) b1 in
  let* _ := mfor (newVertices b2) (fun q (_ : unit) => splice1 (vertices b2) q) tt in
  ret (set_newVertices [] b2).

(** [display()]: the shape is drawn from the array as it is now. *)
Definition display (b : brush) : M unit :=
  let* vs := read_array (vertices b) in
  modify (fun w => set_canvas (canvas w ++ [Shape vs (color b)]) w).

(** ** class strokes *)

Record strokes : Type := Strokes {
  total : float;                (* drawn once by the constructor *)
  layers : list brush
}.

Definition set_layers (ls : list brush) (s : strokes) : strokes :=
  Strokes (total s) ls.

(** The value the constructor stores in [this.total]. *)
Definition draw_total (sk : sketch) : M float :=
  match sk with
  | Fixed25 => ret 25%float
  | Drawn10_30 => random2 10 30
  | Drawn8_32 => random2 8 32
  end.

(** The body of the constructor's loop: a new array receives the elements of
    [brushObject.vertices] one by one and is handed to a new brush. *)
Definition add_layer (sk : sketch) (brushObject : brush) (s : strokes)
    : M strokes :=
  let* a := new_array [] in
  let* src := read_array (vertices brushObject) in
  let* _ := mfor src (fun v (_ : unit) => push a v) tt in
  let* b := brush_new sk a in
  ret (set_layers (layers s ++ [b]) s).

(** [constructor(brushObject)] *)
Definition strokes_new (sk : sketch) (fuel : nat) (brushObject : brush)
    : M strokes :=
  let* t := draw_total sk in
  for_lt fuel 0 t (fun _ s => add_layer sk brushObject s) (Strokes t []).

(** [this.layers[i].deform()] *)
Definition deform_layer (i : nat) (s : strokes) : M strokes :=
  match layers s !! i with
  | Some b => let* b' := deform b in ret (set_layers (<[i := b']> (layers s)) s)
  | None => throw
  end.

(** One pass over the layers. *)
Definition deform_pass (fuel : nat) (s : strokes) : M strokes :=
  for_lt fuel 0 (total s) deform_layer s.

(** [deform()]: one pass, or in the classes Brush and Strokes as many passes
    as a number drawn once per call says. *)
Definition strokes_deform (sk : sketch) (fuel : nat) (s : strokes)
    : M strokes :=
  match sk with
  | Drawn8_32 =>
      let* r := random1 8 in
      for_down fuel r (deform_pass fuel) s
  | _ => deform_pass fuel s
  end.

(** [display()] / [show()] *)
Definition strokes_display (fuel : nat) (s : strokes) : M unit :=
  let* _ := for_lt fuel 0 (total s)
              (fun i s' => match layers s' !! i with
                           | Some b => let* _ := display b in ret s'
                           | None => throw
                           end) s in
  ret tt.

(** [paint(x, y)] and [paint(v)] *)
Definition paint (sk : sketch) (fuel : nat) (v : point) : M unit :=
  let* a := new_array [v] in
  let* b := brush_new sk a in
  let* w := strokes_new sk fuel b in
  match sk with
  | Drawn8_32 =>
      let* w' := strokes_deform sk fuel w in
      strokes_display fuel w'
  | _ =>
      let* _ := random2 1 5 in
      let* w' := mfor (seq 0 5) (fun _ s => strokes_deform sk fuel s) w in
      strokes_display fuel w'
  end.

(** ** What one deformation computes *)

(** The value [random(lo, hi)] makes of the generator output [u]. *)
Definition scaled (u lo hi : float) : float :=
  let '(lo', hi') := if Num.gt lo hi then (hi, lo) else (lo, hi) in
  (u * (hi' - lo') + lo')%float.

(** The [k]-th perturbation drawn from the world [w] on. *)
Definition offset (w : world) (k : nat) : float :=
  scaled (rng w (drawn w + k)) (- brushRadius w) (brushRadius w).

Definition new_vertex (a c : point) (dx dy : float) : point :=
  Point ((px a + px c) / 2 + dx) ((py a + py c) / 2 + dy).

(** The new vertices of the adjacent pairs, the first of them using the
    perturbations [k] and [k + 1]. *)
Fixpoint adjacent (w : world) (k : nat) (vs : list point) : list point :=
  match vs with
  | a :: (c :: _) as rest =>
      new_vertex a c (offset w k) (offset w (S k)) :: adjacent w (S (S k)) rest
  | _ => []
  end.

(** All the new vertices of one round, in the order they are generated. *)
Definition generated (w : world) (vs : list point) : list point :=
  match vs with
  | [] => []
  | v0 :: _ =>
      adjacent w 0 vs ++
      [new_vertex v0 (List.last vs v0)
         (offset w (2 * (length vs - 1))) (offset w (S (2 * (length vs - 1))))]
  end.

(** The vertex array after one round. *)
Definition deformed (w : world) (vs : list point) : list point :=
  take 1 vs ++ rev (generated w vs) ++ drop 1 vs.

(** The length of the vertex array of a brush, when the array exists. *)
Definition vertex_count (w : world) (b : brush) : option nat :=
  length <$> (arrays w !! vertices b).

(** [k] rounds of [deform] on one brush. *)
Fixpoint deform_rounds (k : nat) (b : brush) : M brush :=
  match k with
  | 0 => ret b
  | S k' => let* b' := deform b in deform_rounds k' b'
  end.

(** ** The frame loop of src/sketch.js *)

Module Frame.

(** A keypoint of a pose reported by poseNet. *)
Record keypoint : Type := Keypoint { kx : float; ky : float; confidence : float }.

Record pose : Type := Pose { leftWrist : keypoint; rightWrist : keypoint }.

(** The globals of the sketch that the frame loop and the mouse handlers
    read and write, and what the browser reports to them. *)
Record ui : Type := Ui {
  mouseX : float;
  mouseY : float;
  mouseIsPressed : bool;
  innerWidth : float;
  innerHeight : float;
  spacing : float;
  colors : list string;
  poses : list pose;
  lastMouse : point;
  lastLeft : point;
  lastRight : point
}.

Definition set_lastMouse (p : point) (u : ui) : ui :=
  Ui (mouseX u) (mouseY u) (mouseIsPressed u) (innerWidth u) (innerHeight u)
     (spacing u) (colors u) (poses u) p (lastLeft u) (lastRight u).

Definition set_lastLeft (p : point) (u : ui) : ui :=
  Ui (mouseX u) (mouseY u) (mouseIsPressed u) (innerWidth u) (innerHeight u)
     (spacing u) (colors u) (poses u) (lastMouse u) p (lastRight u).

Definition set_lastRight (p : point) (u : ui) : ui :=
  Ui (mouseX u) (mouseY u) (mouseIsPressed u) (innerWidth u) (innerHeight u)
     (spacing u) (colors u) (poses u) (lastMouse u) (lastLeft u) p.

Definition set_brushColor (c : string) (w : world) : world :=
  World (arrays w) (next_array w) (rng w) (drawn w) (brushRadius w) c (canvas w).

(** [x != y] on numbers. *)
Definition ne (x y : float) : bool := negb (PrimFloat.eqb x y).

(** [saveMouse()] *)
Definition saveMouse (u : ui) : ui :=
  if Num.le (mouseX u) (innerWidth u)
     && Num.le (mouseY u) (innerHeight u - spacing u)
  then set_lastMouse (Point (mouseX u) (mouseY u)) u
  else u.

(** [mouseClicked()] *)
Definition mouseClicked (u : ui) : ui := saveMouse u.

(** [mouseDragged()] *)
Definition mouseDragged (u : ui) : ui :=
  if mouseIsPressed u then saveMouse u else u.

(** The palette test of [draw] for the swatch [i]. *)
Definition over_swatch (u : ui) (i : nat) : bool :=
  Num.gt (mouseX u) (Num.of_nat i * spacing u)
  && PrimFloat.ltb (mouseX u) (Num.of_nat i * spacing u + spacing u)
  && Num.gt (mouseY u) (innerHeight u - spacing u)
  && PrimFloat.ltb (mouseY u) (innerHeight u).

(** The first loop of [draw]: the colour under the mouse becomes the brush
    colour. *)
Definition pick_colour (u : ui) : M unit :=
  mfor (seq 0 (length (colors u)))
    (fun i (_ : unit) =>
       if over_swatch u i
       then match colors u !! i with
            | Some c => modify (set_brushColor c)
            | None => ret tt
            end
       else ret tt) tt.

(** One wrist of the first pose: painted when it is confident enough and
    moved in both coordinates. *)
Definition follow (fuel : nat) (k : keypoint) (last : point)
    (save : point -> ui -> ui) (u : ui) : M ui :=
  if Num.gt (confidence k) 0.60
  then if ne (px last) (kx k) && ne (py last) (ky k)
       then let u' := save (Point (kx k) (ky k)) u in
            let* _ := paint Fixed25 fuel (Point (kx k) (ky k)) in
            ret u'
       else ret u
  else ret u.

(** [draw()] *)
Definition draw (fuel : nat) (u : ui) : M ui :=
  let* _ := pick_colour u in
  match poses u with
  | p :: _ =>
      let* u1 := follow fuel (leftWrist p) (lastLeft u) set_lastLeft u in
      follow fuel (rightWrist p) (lastRight u1) set_lastRight u1
  | [] =>
      if Num.gt (px (lastMouse u)) 0 && Num.gt (py (lastMouse u)) 0
      then let* _ := paint Fixed25 fuel (lastMouse u) in
           ret (set_lastMouse (Point 0 0) u)
      else ret u
  end.

(** [n] frames in a row, with no event in between. *)
Fixpoint frames (fuel n : nat) (u : ui) : M ui :=
  match n with
  | 0 => ret u
  | S n' => let* u' := draw fuel u in frames fuel n' u'
  end.

End Frame.

(** ** The pitch detector of src/unnamed/part_000 and src/unnamed/part_001 *)

Module Pitch.

(** What [acf2plus] returns: [false], or a number. *)
Inductive detected : Type :=
| NoSignal
| Frequency (f : float).

(** A possibly undefined array element used as a number. *)
Definition number (x : option float) : float :=
  match x with
  | Some v => v
  | None => PrimFloat.nan
  end.

(** [a[i]] for a numeric index that may be negative. *)
Definition at_index (a : list float) (i : Z) : option float :=
  if (i <? 0)%Z then None else a !! Z.to_nat i.

(** The truth value of a number in a condition. *)
Definition truthy (x : float) : bool :=
  negb (PrimFloat.eqb x 0) && PrimFloat.eqb x x.

Definition sum_squares (buffer : list float) : float :=
  fold_left (fun acc x => (acc + x * x)%float) buffer 0%float.

Definition rms (buffer : list float) : float :=
  PrimFloat.sqrt (sum_squares buffer / Num.of_nat (length buffer)).

(** [Math.abs(buffer[i]) < 0.2] *)
Definition quiet (buffer : list float) (i : nat) : bool :=
  PrimFloat.ltb (PrimFloat.abs (number (buffer !! i))) 0.2.

Record edges : Type := Edges {
  r1 : nat; r1Found : bool;
  r2 : nat; r2Found : bool
}.

(** One turn of the trimming loop, without its [break]. *)
Definition trim_step (buffer : list float) (i : nat) (e : edges) : edges :=
  let e1 := if negb (r1Found e) && quiet buffer i
            then Edges i true (r2 e) (r2Found e) else e in
  if negb (r2Found e1) && quiet buffer (length buffer - i)
  then Edges (r1 e1) (r1Found e1) (length buffer - i) true else e1.

(** The trimming loop over the indices [idx]. *)
Fixpoint trim_loop (buffer : list float) (idx : list nat) (e : edges) : edges :=
  match idx with
  | [] => e
  | i :: rest =>
      let e' := trim_step buffer i e in
      if r1Found e' && r2Found e' then e' else trim_loop buffer rest e'
  end.

(** The indices for which [i < buffer.length / 2]. *)
Definition first_half (buffer : list float) : list nat :=
  seq 0 ((length buffer + 1) / 2).

Definition trim_edges (buffer : list float) : edges :=
  trim_loop buffer (first_half buffer)
    (Edges 0 false (length buffer - 1) false).

(** [buffer.slice(r1, r2)] *)
Definition slice (buffer : list float) (start stop : nat) : list float :=
  take (stop - start) (drop start buffer).

Definition trimmed (buffer : list float) : list float :=
  let e := trim_edges buffer in slice buffer (r1 e) (r2 e).

(** [c[i]], summed in the order of the inner loop. *)
Definition correlation (buffer : list float) (i : nat) : float :=
  fold_left
    (fun acc j =>
       let x := number (buffer !! j) in
       let y := number (buffer !! (j + i)) in
       (acc + x * y)%float)
    (seq 0 (length buffer - i)) 0%float.

Definition autocorrelation (buffer : list float) : list float :=
  map (correlation buffer) (seq 0 (length buffer)).

(** [while (c[d] > c[d + 1]) d++], started at the head of [c]: a missing
    element compares false. *)
Fixpoint first_dip (c : list float) : nat :=
  match c with
  | x :: (y :: _) as rest => if Num.gt x y then S (first_dip rest) else 0
  | _ => 0
  end.

(** The loop that looks for the highest value from [d] on. *)
Definition max_peak (c : list float) (d n : nat) : float * Z :=
  fold_left
    (fun '(maxVal, maxPos) i =>
       if Num.gt (number (c !! i)) maxVal
       then (number (c !! i), Z.of_nat i)
       else (maxVal, maxPos))
    (seq d (n - d)) ((-1)%float, (-1)%Z).

(** A lag, which is an integer, as a number. *)
Definition of_lag (z : Z) : float :=
  if (z <? 0)%Z then (- Num.of_nat (Z.to_nat (- z)))%float
  else Num.of_nat (Z.to_nat z).

(** The three values the interpolation reads. *)
Definition neighbours (c : list float) (maxPos : Z)
    : option float * option float * option float :=
  (at_index c (maxPos - 1), at_index c maxPos, at_index c (maxPos + 1)).

(** The interpolated position of the peak. *)
Definition interpolate (c : list float) (maxPos : Z) : float :=
  let '(x1, x2, x3) := neighbours c maxPos in
  let a := ((number x1 + number x3 - 2 * number x2) / 2)%float in
  let b := ((number x3 - number x1) / 2)%float in
  if truthy a then (of_lag maxPos - b / (2 * a))%float else of_lag maxPos.

(** What follows the silence test. *)
Definition detect (sampleRate : float) (buffer : list float) : detected :=
  let buffer' := trimmed buffer in
  let c := autocorrelation buffer' in
  let d := first_dip c in
  let '(_, maxPos) := max_peak c d (length buffer') in
  Frequency (round (sampleRate / interpolate c maxPos)).

(** [acf2plus(buffer)], with [audio.sampleRate] as a parameter. *)
Definition acf2plus (sampleRate : float) (buffer : list float) : detected :=
  if PrimFloat.ltb (rms buffer) 0.01 then NoSignal
  else detect sampleRate buffer.




End Pitch.

(** ** Loop counts, invariants and example inputs *)

(** A coordinate that is a number, finite, and whose double is finite too:
    its magnitude is below [2^1023]. *)
Definition modest (x : float) : bool :=
  PrimFloat.ltb (PrimFloat.abs x) 0x1p1023.

(** The loop [for (i = 0; i < bound; i++)] makes exactly [n] turns. *)
Definition trips (bound : float) (n : nat) : Prop :=
  (forall i, i < n -> PrimFloat.ltb (Num.of_nat i) bound = true)
  /\ PrimFloat.ltb (Num.of_nat n) bound = false.

(** The loop [for (i = r; i > 0; i--)] makes exactly [n] turns. *)
Fixpoint countdown (r : float) (n : nat) : bool :=
  match n with
  | 0 => negb (Num.gt r 0)
  | S n' => Num.gt r 0 && countdown (r - 1)%float n'
  end.

(** The value [draw_total] returns in the world [w]. *)
Definition total_of (sk : sketch) (w : world) : float :=
  match sk with
  | Fixed25 => 25%float
  | Drawn10_30 => scaled (rng w (drawn w)) 10 30
  | Drawn8_32 => scaled (rng w (drawn w)) 8 32
  end.

(** The range the sketch configures for the number of layers. *)
Definition layer_range (sk : sketch) : nat * nat :=
  match sk with
  | Fixed25 => (25, 25)
  | Drawn10_30 => (10, 30)
  | Drawn8_32 => (8, 32)
  end.

(** The alpha the constructor gives the colour. *)
Definition alpha_of (sk : sketch) (w : world) : float :=
  match sk with
  | Drawn8_32 => round (scaled (rng w (drawn w)) 1 2)
  | _ => 2%float
  end.

(** The world the constructor leaves: only the generator may have moved. *)
Definition after_brush (sk : sketch) (w : world) : world :=
  match sk with
  | Drawn8_32 => set_drawn (S (drawn w)) w
  | _ => w
  end.

(** Array identities are handed out in increasing order. *)
Definition allocated (w : world) : Prop :=
  forall a vs, arrays w !! a = Some vs -> a < next_array w.

(** Every layer of the bundle [s] owns an array of [n] vertices, no two layers
    the same one, and the loops over [total s] visit exactly the layers. *)
Record uniform (w : world) (s : strokes) (n : nat) : Prop := Uniform {
  uniform_trips : trips (total s) (length (layers s));
  uniform_distinct : NoDup (vertices <$> layers s);
  uniform_clean : forall b, b ∈ layers s -> newVertices b = [];
  uniform_count : forall b, b ∈ layers s -> vertex_count w b = Some n
}.

(** The shape of a bundle: its [total] and how many layers it has. *)
Definition shaped (t : float) (n : nat) (s : strokes) : Prop :=
  total s = t /\ length (layers s) = n.

(** [k] calls of the bundle's [deform()] in a row, as [paint] makes them. *)
Definition deform_calls (sk : sketch) (fuel k : nat) (s : strokes) : M strokes :=
  mfor (seq 0 k) (fun _ s' => strokes_deform sk fuel s') s.

Definition anchor : point := Point 100 100.

(** A world in which the caller holds one array, [[anchor]]. *)
Definition studio : world :=
  World {[0 := [anchor]]} 1 (fun _ => 0.125%float) 0 32 "brown" [].

Definition tip : brush := Brush 0 [] (Colour "brown" 2).

(** The brush one turn of the constructor's loop adds in the world [w]. *)
Definition layer_at (sk : sketch) (w : world) : brush :=
  Brush (next_array w) [] (Colour (brushColor w) (alpha_of sk w)).

(** The world one turn of the constructor's loop leaves. *)
Definition layer_added (sk : sketch) (vs : list point) (w : world) : world :=
  after_brush sk
    (set_next_array (S (next_array w)) (set_arrays <[next_array w := vs]> w)).

(** What the constructor of the bundle establishes for the prototype brush
    [proto], whose array holds [vs]: every layer has an array of its own,
    holding the same vertices. *)
Record seeded (w : world) (proto : brush) (vs : list point) (s : strokes)
    : Prop := Seeded {
  seeded_copy : forall b, b ∈ layers s -> arrays w !! vertices b = Some vs;
  seeded_clean : forall b, b ∈ layers s -> newVertices b = [];
  seeded_apart : forall b, b ∈ layers s -> vertices b <> vertices proto;
  seeded_distinct : NoDup (vertices <$> layers s)
}.

(** The world [draw_total] leaves. *)
Definition after_total (sk : sketch) (w : world) : world :=
  match sk with
  | Fixed25 => w
  | _ => set_drawn (S (drawn w)) w
  end.

(** In the sketch whose bundle draws its number of passes, every output of
    the generator stops the countdown within the fuel. *)
Definition steady (sk : sketch) (fuel : nat) (w : world) : Prop :=
  sk = Drawn8_32 ->
  forall d, exists n, n < fuel /\ countdown (rng w d * 8)%float n = true.



(** The lag at which [acf2plus] finds the peak. *)
Definition peak_lag (buffer : list float) : Z :=
  let c := Pitch.autocorrelation (Pitch.trimmed buffer) in
  snd (Pitch.max_peak c (Pitch.first_dip c) (length (Pitch.trimmed buffer))).

(** Four samples of full amplitude, and a buffer that starts with silence. *)
Definition loud : list float := [1; 1; 1; 1]%float.
Definition late : list float := [0; 0.5; 0.5; 0.5]%float.
Definition faint : list float := [0.001; -0.002; 0.001]%float.

(** The result of a frame with the saved mouse position put back. *)
Definition restore (p : point) (r : outcome Frame.ui) : outcome Frame.ui :=
  match r with
  | Ok u w => Ok (Frame.set_lastMouse p u) w
  | TypeError => TypeError
  | OutOfFuel => OutOfFuel
  end.

(** The mouse on the top edge of a canvas 800 wide and 540 high (a window
    600 high with swatches 60 high), no pose detected. *)
Definition top_edge : Frame.ui :=
  Frame.Ui 120 0 true 800 600 60 ["brown"%string; "yellow"%string] []
           (Point 0 0) (Point 0 0) (Point 0 0).

(** A bundle of two layers of one vertex each, and a world that holds their
    arrays besides the caller's. *)
Definition pair_of_layers : strokes :=
  Strokes 2 [Brush 1 [] (Colour "brown" 2); Brush 2 [] (Colour "brown" 2)].

Definition gallery : world :=
  World (<[2 := [anchor]]> (<[1 := [anchor]]> {[0 := [anchor]]})) 3
        (fun _ => 0.125%float) 0 32 "brown" [].

(** ** What a computation leaves alone *)

(** Nothing but arrays and the position in the generator's outputs changed. *)
Definition quiet (w w' : world) : Prop :=
  canvas w' = canvas w
  /\ rng w' = rng w
  /\ brushRadius w' = brushRadius w
  /\ brushColor w' = brushColor w
  /\ next_array w' = next_array w.

(** The array of the brush [b] exists and satisfies [P]. *)
Definition holds (w : world) (b : brush) (P : list point -> Prop) : Prop :=
  exists vs, arrays w !! vertices b = Some vs /\ P vs.

(** A polygon of [m] vertices that starts at [v]. *)
Definition anchored_at (v : point) (m : nat) (vs : list point) : Prop :=
  head vs = Some v /\ length vs = m.

(** The shapes [display()] draws for the layers [bs] in the world [w]. *)
Definition shapes_of (w : world) (bs : list brush) : list shape :=
  omap (fun b => (fun vs => Shape vs (color b)) <$> arrays w !! vertices b) bs.

(** The world in which [paint] calls the constructor of the bundle: the
    array literal [[v]] exists and the prototype brush was built. *)
Definition with_prototype (sk : sketch) (v : point) (w : world) : world :=
  after_brush sk
    (set_next_array (S (next_array w)) (set_arrays <[next_array w := [v]]> w)).

(** A bundle in working order whose every polygon satisfies [P]. *)
Record bundle (w : world) (s : strokes) (P : list point -> Prop) : Prop :=
  Bundle {
    bundle_trips : trips (total s) (length (layers s));
    bundle_distinct : NoDup (vertices <$> layers s);
    bundle_clean : forall b, b ∈ layers s -> newVertices b = [];
    bundle_holds : forall b, b ∈ layers s -> holds w b P
  }.

(** The arrays that do not belong to a layer of [s] are the same in [w] and
    [w']. *)
Definition others_kept (s : strokes) (w w' : world) : Prop :=
  forall a, a ∉ vertices <$> layers s -> arrays w' !! a = arrays w !! a.

(** What construction and painting leave alone: the generator's outputs, the
    brush colour and radius, and the arrays that existed before; the canvas
    only grows. *)
Definition calm (w w' : world) : Prop :=
  rng w' = rng w
  /\ brushColor w' = brushColor w
  /\ brushRadius w' = brushRadius w
  /\ next_array w <= next_array w'
  /\ (forall a, a < next_array w -> arrays w' !! a = arrays w !! a)
  /\ canvas w `prefix_of` canvas w'.

(** The colour the constructor of a brush gives a layer when the brush
    colour is [c]: alpha 2, or 1 or 2 in the classes Brush and Strokes. *)
Definition layer_colour (sk : sketch) (c : string) (col : colour) : Prop :=
  pigment col = c /\ (sk <> Drawn8_32 -> alpha col = 2%float).

(** One turn of the first loop of [draw], as the colour it selects. *)
Definition choose (u : Frame.ui) (acc : option string) (i : nat)
    : option string :=
  if Frame.over_swatch u i
  then match Frame.colors u !! i with
       | Some c => Some c
       | None => acc
       end
  else acc.

(** The colour the first loop of [draw] leaves as the brush colour: that of
    the last swatch under the mouse, if there is one. *)
Definition picked (u : Frame.ui) : option string :=
  fold_left (choose u) (seq 0 (length (Frame.colors u))) None.

(** The world after the first loop of [draw]. *)
Definition with_picked (u : Frame.ui) (w : world) : world :=
  match picked u with
  | Some c => Frame.set_brushColor c w
  | None => w
  end.

(** The test [draw] makes before it paints at a wrist. *)
Definition followed (k : Frame.keypoint) (last : point) : bool :=
  Num.gt (Frame.confidence k) 0.60
  && (Frame.ne (px last) (Frame.kx k) && Frame.ne (py last) (Frame.ky k)).

(** Where a wrist is. *)
Definition position (k : Frame.keypoint) : point :=
  Point (Frame.kx k) (Frame.ky k).

(** A pose with a confident left wrist and a right wrist out of sight. *)
Definition waving : Frame.pose :=
  Frame.Pose (Frame.Keypoint 200 150 0.9) (Frame.Keypoint 0 0 0.1).

(** The mouse clicked in the middle of the canvas. *)
Definition clicked : Frame.ui :=
  Frame.Ui 120 80 false 800 600 60 ["brown"%string; "yellow"%string] []
           (Point 120 80) (Point 0 0) (Point 0 0).

(** The same, with a pose detected. *)
Definition tracked : Frame.ui :=
  Frame.Ui 120 80 false 800 600 60 ["brown"%string; "yellow"%string] [waving]
           (Point 120 80) (Point 0 0) (Point 0 0).

(** The mouse over the second swatch of the palette. *)
Definition choosing : Frame.ui :=
  Frame.Ui 90 570 false 800 600 60 ["brown"%string; "yellow"%string] []
           (Point 0 0) (Point 0 0) (Point 0 0).

(** A world whose only array is empty. *)
Definition blank : world :=
  World {[0 := []]} 1 (fun _ => 0.125%float) 0 32 "brown" [].

(** A pose whose left wrist kept its x and whose right wrist kept its y. *)
Definition held : Frame.ui :=
  Frame.Ui 120 80 false 800 600 60 ["brown"%string; "yellow"%string] [waving]
           (Point 0 0) (Point 200 90) (Point 0 0).

(** ** The buttons of src/unnamed/part_000 and src/unnamed/part_001 *)

Module Controls.

(** [Math.min(x, y)]: NaN when an argument is, and of the two zeros the
    negative one. *)
Definition min (x y : float) : float :=
  if PrimFloat.is_nan x then x
  else if PrimFloat.is_nan y then y
  else if PrimFloat.ltb x y then x
  else if PrimFloat.ltb y x then y
  else if PrimFloat.get_sign x then x else y.

(** [Math.max(x, y)]: NaN when an argument is, and of the two zeros the
    positive one. *)
Definition max (x y : float) : float :=
  if PrimFloat.is_nan x then x
  else if PrimFloat.is_nan y then y
  else if PrimFloat.ltb x y then y
  else if PrimFloat.ltb y x then x
  else if PrimFloat.get_sign x then y else x.

(** p5's [constrain(n, low, high)], which is
    [Math.max(Math.min(n, high), low)]. *)
Definition constrain (n low high : float) : float := max (min n high) low.

Definition set_brushRadius (r : float) (w : world) : world :=
  World (arrays w) (next_array w) (rng w) (drawn w) r (brushColor w) (canvas w).

(** [changeBrushSize(i)], without the label it writes into the page. *)
Definition changeBrushSize (i : float) (w : world) : world :=
  set_brushRadius (constrain (i * 8 + brushRadius w) 8 64) w.

(** [increaseBrushSize()] *)
Definition increaseBrushSize (w : world) : world := changeBrushSize 1 w.

(** [decreaseBrushSize()] *)
Definition decreaseBrushSize (w : world) : world := changeBrushSize (-1) w.

(** A run of presses of the two buttons: [true] is the one that increases. *)
Definition press (w : world) (up : bool) : world :=
  if up then increaseBrushSize w else decreaseBrushSize w.

(** The step of the radius a press asks for, in units of 8 and kept between
    1 and 8. *)
Definition rung (k : nat) (up : bool) : nat :=
  if up then Nat.min 8 (S k) else Nat.max 1 (k - 1).

(** What [trackingToggle] and [listeningToggle] read and write: whether the
    model ([poseNet], [audioAnalyser]) exists, the status ([tracking],
    [listening]), and how many requests for the device are waiting for
    their callback. *)
Record switch : Type := Switch {
  loaded : bool;
  active : bool;
  waiting : nat
}.

(** The second half of both functions: the status changes only when the
    model exists. *)
Definition flip (s : switch) : switch :=
  if loaded s && active s then Switch (loaded s) false (waiting s)
  else if loaded s then Switch (loaded s) true (waiting s)
  else s.

(** [trackingToggle()] and [listeningToggle()]: without the model the device
    is requested, and the request's callback is left waiting. *)
Definition toggle (s : switch) : switch :=
  flip (if negb (loaded s)
        then Switch (loaded s) (active s) (S (waiting s))
        else s).

(** The callback of a granted request: the model is built and the function
    calls itself. *)
Definition granted (s : switch) : switch :=
  toggle (Switch true (active s) (waiting s - 1)).

(** The error callback of [getUserMedia], which only logs. *)
Definition refused (s : switch) : switch :=
  Switch (loaded s) (active s) (waiting s - 1).

Inductive event : Type := Click | Granted | Refused.

(** One event; a callback runs only when a request is waiting. *)
Definition step (s : switch) (e : event) : switch :=
  match e with
  | Click => toggle s
  | Granted => if waiting s is 0 then s else granted s
  | Refused => if waiting s is 0 then s else refused s
  end.

Definition run (es : list event) (s : switch) : switch := fold_left step es s.

(** The switches as the sketch starts. *)
Definition off : switch := Switch false false 0.

End Controls.

(** The browser reports the mouse at [(x, y)]. *)
Definition mouse_at (x y : float) (u : Frame.ui) : Frame.ui :=
  Frame.Ui x y (Frame.mouseIsPressed u) (Frame.innerWidth u)
           (Frame.innerHeight u) (Frame.spacing u) (Frame.colors u)
           (Frame.poses u) (Frame.lastMouse u) (Frame.lastLeft u)
           (Frame.lastRight u).

(** ** Numbers as scaled integers *)

(** The number [m * 2 ^ e], in units of [2 ^ (- K)]: an integer as long as
    [- K <= e]. *)
Definition units (K : Z) (m : positive) (e : Z) : Z :=
  (Z.pos m * 2 ^ (e + K))%Z.

(** A mantissa and an exponent in the form binary64 stores them: the
    exponent is at least -1074, the mantissa is below [2 ^ 53], and at least
    [2 ^ 52] unless the exponent is -1074. *)
Definition stored (m : positive) (e : Z) : Prop :=
  (-1074 <= e)%Z /\ (Z.pos m < 2 ^ 53)%Z /\ (e = (-1074)%Z \/ (2 ^ 52 <= Z.pos m)%Z).

(** What [random(lo, hi)] may return: Math.random gives a number from 0 up
    to, but not including, 1. *)
Definition unit_interval (u : float) : Prop :=
  PrimFloat.leb 0 u = true /\ PrimFloat.ltb u 1 = true.

(** ** The order of numbers *)

Ltac order_cases :=
  repeat match goal with
  | H : context [(?a ?= ?b)%Z] |- _ => destruct (Z.compare_spec a b); cbn in H
  | |- context [(?a ?= ?b)%Z] => destruct (Z.compare_spec a b); cbn
  | H : context [Pos.compare_cont Eq ?a ?b] |- _ =>
      change (Pos.compare_cont Eq a b) with (a ?= b)%positive in H;
      destruct (Pos.compare_spec a b); cbn in H
  | |- context [Pos.compare_cont Eq ?a ?b] =>
      change (Pos.compare_cont Eq a b) with (a ?= b)%positive;
      destruct (Pos.compare_spec a b); cbn
  end.

Lemma SFltb_leb_trans x y z :
  SFltb x y = true -> SFleb y z = true -> SFltb x z = true.
Proof.
  unfold SFltb, SFleb.
  destruct x as [[]|[]| |[] mx ex], y as [[]|[]| |[] my ey],
    z as [[]|[]| |[] mz ez]; cbn; try done;
    intros H1 H2; order_cases; try done; lia.
Qed.

Lemma SFleb_not_ltb x y : SFleb x y = true -> SFltb y x = false.
Proof.
  unfold SFltb, SFleb.
  destruct x as [[]|[]| |[] mx ex], y as [[]|[]| |[] my ey]; cbn; try done;
    intros H1; order_cases; try done; lia.
Qed.

Lemma ltb_leb_trans (x y z : float) :
  PrimFloat.ltb x y = true -> PrimFloat.leb y z = true -> PrimFloat.ltb x z = true.
Proof. rewrite !ltb_spec, leb_spec. apply SFltb_leb_trans. Qed.

Lemma leb_not_ltb (x y : float) :
  PrimFloat.leb x y = true -> PrimFloat.ltb y x = false.
Proof. rewrite ltb_spec, leb_spec. apply SFleb_not_ltb. Qed.

(** A search for the first index at which a test fails. *)
Lemma first_failure (P : nat -> bool) (lo : nat) : forall k,
  (forall i, i < lo -> P i = true) ->
  P (lo + k) = false ->
  exists n, lo <= n <= lo + k /\ (forall i, i < n -> P i = true) /\ P n = false.
Proof.
  intros k. revert lo. induction k as [|k IH]; intros lo Hlo Hhi.
  - exists lo. rewrite Nat.add_0_r in Hhi. split; [lia|by split].
  - destruct (P lo) eqn:E.
    + destruct (IH (S lo)) as (n & Hn & Hall & Hstop).
      * intros i Hi. destruct (decide (i = lo)) as [->|]; [done|]. apply Hlo. lia.
      * by replace (S lo + k) with (lo + S k) by lia.
      * exists n. split; [lia|done].
    + exists lo. split; [lia|by split].
Qed.

(** The loop over a number between [lo] and [hi] makes between [lo] and [hi]
    turns. *)
Lemma trips_between (t : float) (lo hi : nat) :
  lo <= hi ->
  (forall i, i < lo -> PrimFloat.ltb (Num.of_nat i) (Num.of_nat lo) = true) ->
  Num.le (Num.of_nat lo) t = true ->
  Num.le t (Num.of_nat hi) = true ->
  exists n, lo <= n <= hi /\ trips t n.
Proof.
  intros Hle Hsmall Hlo Hhi.
  destruct (first_failure (fun i => PrimFloat.ltb (Num.of_nat i) t) lo (hi - lo))
    as (n & Hn & Hall & Hstop).
  - intros i Hi. eapply ltb_leb_trans; [by apply Hsmall|done].
  - replace (lo + (hi - lo)) with hi by lia. by apply leb_not_ltb.
  - exists n. split; [lia|]. by split.
Qed.

Lemma below_of_nat (lo : nat) :
  forallb (fun i => PrimFloat.ltb (Num.of_nat i) (Num.of_nat lo)) (seq 0 lo) = true ->
  forall i, i < lo -> PrimFloat.ltb (Num.of_nat i) (Num.of_nat lo) = true.
Proof.
  intros H i Hi. rewrite forallb_forall in H. apply H, in_seq. lia.
Qed.

Lemma trips_in_range (sk : sketch) (t : float) :
  Num.le (Num.of_nat (fst (layer_range sk))) t = true ->
  Num.le t (Num.of_nat (snd (layer_range sk))) = true ->
  exists n, fst (layer_range sk) <= n <= snd (layer_range sk) /\ trips t n.
Proof.
  intros Hlo Hhi. apply trips_between; [destruct sk; cbn; lia| |done..].
  apply below_of_nat. by destruct sk; vm_compute.
Qed.

(** ** Array lengths as numbers *)

Lemma digits2_iter_xO (p k : positive) :
  Z.pos (digits2_pos (Pos.iter xO p k)) = (Z.pos (digits2_pos p) + Z.pos k)%Z.
Proof.
  induction k as [|k IH] using Pos.peano_ind.
  - cbn. lia.
  - rewrite Pos.iter_succ. cbn [digits2_pos]. lia.
Qed.

Lemma digits2_lower (p : positive) :
  (2 ^ (Z.pos (digits2_pos p) - 1) <= Z.pos p)%Z.
Proof.
  induction p as [p IH|p IH|]; cbn [digits2_pos]; [| |cbn; lia];
    rewrite Pos2Z.inj_succ;
    replace (Z.succ (Z.pos (digits2_pos p)) - 1)%Z
      with (Z.succ (Z.pos (digits2_pos p) - 1)) by lia;
    rewrite Z.pow_succ_r by lia; lia.
Qed.

Lemma digits2_small (p : positive) :
  (Z.pos p < 2 ^ 53)%Z -> (Z.pos (digits2_pos p) <= 53)%Z.
Proof.
  intros Hp. destruct (Z.le_gt_cases (Z.pos (digits2_pos p)) 53) as [|Hgt]; [done|].
  exfalso. pose proof (digits2_lower p) as H.
  assert (2 ^ 53 <= 2 ^ (Z.pos (digits2_pos p) - 1))%Z
    by (apply Z.pow_le_mono_r; lia).
  lia.
Qed.

Lemma fexp_eq (z : Z) : fexp prec emax z = Z.max (z - 53) (-1074).
Proof. reflexivity. Qed.

(** A canonical mantissa rounds to itself. *)
Lemma round_canonical (s : bool) (m : positive) (e : Z) :
  fexp prec emax (Z.pos (digits2_pos m) + e) = e -> (e <= 971)%Z ->
  binary_round_aux prec emax s (Z.pos m) e loc_Exact = S754_finite s m e.
Proof.
  intros Hc He.
  assert (Hs : shr_fexp prec emax (Z.pos m) e loc_Exact
               = ({| shr_m := Z.pos m; shr_r := false; shr_s := false |}, e)).
  { unfold shr_fexp, Zdigits2. rewrite Hc, Z.sub_diag. reflexivity. }
  unfold binary_round_aux. rewrite Hs.
  cbn [shr_m loc_of_shr_record round_nearest_even]. rewrite Hs. cbn [shr_m].
  by replace (e <=? emax - prec)%Z with true
    by (symmetry; apply Z.leb_le; unfold emax, prec; lia).
Qed.

(** A positive integer below [2^53] is a positive finite number. *)
Lemma binary_round_integer (p : positive) :
  (Z.pos p < 2 ^ 53)%Z ->
  exists m e, binary_round prec emax false p 0 = S754_finite false m e.
Proof.
  intros Hp. pose proof (digits2_small p Hp) as Hd. clear Hp.
  unfold binary_round. rewrite fexp_eq.
  replace (Z.max (Z.pos (digits2_pos p) + 0 - 53) (-1074))
    with (Z.pos (digits2_pos p) - 53)%Z by lia.
  unfold shl_align. rewrite Z.sub_0_r.
  destruct (Z.pos (digits2_pos p) - 53)%Z as [|k|k] eqn:E; [|lia|].
  - exists p, 0%Z. apply round_canonical; [rewrite fexp_eq|]; lia.
  - eexists _, _. rewrite <- E.
    apply round_canonical; [rewrite fexp_eq, digits2_iter_xO|]; lia.
Qed.

Lemma of_nat_positive (n : nat) :
  1 <= n -> (Z.of_nat n < 2 ^ 53)%Z ->
  exists m e, Prim2SF (Num.of_nat n) = S754_finite false m e.
Proof.
  intros Hn Hb. unfold Num.of_nat. rewrite of_uint63_spec, Uint63.of_Z_spec.
  rewrite Z.mod_small by (change Uint63.wB with (2 ^ 63)%Z; lia).
  destruct (Z.of_nat n) as [|p|p] eqn:E; [lia| |lia].
  by apply binary_round_integer.
Qed.

Lemma zero_div_of_nat (n : nat) :
  1 <= n -> (Z.of_nat n < 2 ^ 53)%Z -> (0 / Num.of_nat n)%float = 0%float.
Proof.
  intros Hn Hb. destruct (of_nat_positive n Hn Hb) as (m & e & E).
  apply Prim2SF_inj. rewrite div_spec, E. reflexivity.
Qed.

(** ** Rounding stays between the numbers binary64 stores *)

Section Rounding.

Local Open Scope Z_scope.

Lemma digits2_upper (p : positive) : Z.pos p < 2 ^ Z.pos (digits2_pos p).
Proof.
  induction p as [p IH|p IH|]; cbn [digits2_pos]; [| |done];
    rewrite Pos2Z.inj_succ, Z.pow_succ_r by lia; lia.
Qed.

Lemma mod_double (M P : Z) :
  0 < P -> M mod (P * 2) = 0 -> M mod P = 0 /\ (M / P) mod 2 = 0.
Proof.
  intros HP H. rewrite Z.rem_mul_r in H by lia.
  pose proof (Z.mod_pos_bound M P HP).
  pose proof (Z.mod_pos_bound (M / P) 2 ltac:(lia)). nia.
Qed.

Lemma shr_1_spec (M n : Z) (r : shr_record) :
  0 <= n -> 0 <= M ->
  shr_m r = M / 2 ^ n ->
  (M mod 2 ^ n = 0 -> shr_r r = false /\ shr_s r = false) ->
  shr_m (shr_1 r) = M / 2 ^ (n + 1)
  /\ (M mod 2 ^ (n + 1) = 0 ->
      shr_r (shr_1 r) = false /\ shr_s (shr_1 r) = false).
Proof.
  intros Hn HM Hm Hex. destruct r as [m rr ss]. cbn [shr_m shr_r shr_s] in *.
  assert (HP : 0 < 2 ^ n) by (apply Z.pow_pos_nonneg; lia).
  rewrite Z.pow_add_r, Z.pow_1_r by lia.
  rewrite <- Z.div_div by lia. rewrite <- Hm.
  assert (Hex' : M mod (2 ^ n * 2) = 0 -> (rr || ss = false) /\ m mod 2 = 0).
  { intros H. apply mod_double in H as [H1 H2]; [|done].
    destruct (Hex H1) as [-> ->]. by rewrite Hm. }
  pose proof (Z.div_pos M (2 ^ n) HM HP) as Hq. rewrite <- Hm in Hq.
  destruct m as [|[p|p|]|p]; cbn [shr_1 shr_m shr_r shr_s]; [| | | |lia].
  - split; [done|]. intros H. by destruct (Hex' H) as [-> _].
  - split; [by rewrite Pos2Z.inj_xI, Z.add_comm, Z.mul_comm, Z.div_add|].
    intros H. destruct (Hex' H) as [_ H2].
    rewrite Pos2Z.inj_xI, Z.add_comm, Z.mul_comm, Z.mod_add in H2; done.
  - split; [by rewrite Pos2Z.inj_xO, Z.mul_comm, Z.div_mul|].
    intros H. by destruct (Hex' H) as [-> _].
  - split; [done|]. intros H. by destruct (Hex' H) as [_ H2].
Qed.

Lemma iter_shr_spec (M : Z) (p : positive) : forall (n : Z) (r : shr_record),
  0 <= n -> 0 <= M ->
  shr_m r = M / 2 ^ n ->
  (M mod 2 ^ n = 0 -> shr_r r = false /\ shr_s r = false) ->
  shr_m (SpecFloat.iter_pos shr_1 p r) = M / 2 ^ (n + Z.pos p)
  /\ (M mod 2 ^ (n + Z.pos p) = 0 ->
      shr_r (SpecFloat.iter_pos shr_1 p r) = false /\ shr_s (SpecFloat.iter_pos shr_1 p r) = false).
Proof.
  induction p as [p IH|p IH|]; intros n r Hn HM Hm Hex; cbn [SpecFloat.iter_pos].
  - destruct (shr_1_spec M n r Hn HM Hm Hex) as [H1 H2].
    destruct (IH (n + 1) _ ltac:(lia) HM H1 H2) as [H3 H4].
    destruct (IH (n + 1 + Z.pos p) _ ltac:(lia) HM H3 H4) as [H5 H6].
    by replace (n + Z.pos p~1) with (n + 1 + Z.pos p + Z.pos p) by lia.
  - destruct (IH n _ Hn HM Hm Hex) as [H3 H4].
    destruct (IH (n + Z.pos p) _ ltac:(lia) HM H3 H4) as [H5 H6].
    by replace (n + Z.pos p~0) with (n + Z.pos p + Z.pos p) by lia.
  - by apply shr_1_spec.
Qed.

Lemma digits2_eq (p : positive) (k : Z) :
  2 ^ (k - 1) <= Z.pos p < 2 ^ k -> Z.pos (digits2_pos p) = k.
Proof.
  intros [Hl Hu]. pose proof (digits2_lower p) as H1.
  pose proof (digits2_upper p) as H2.
  set (d := Z.pos (digits2_pos p)) in *. assert (0 < d) by (subst d; lia).
  destruct (Z.lt_trichotomy d k) as [Hlt|[->|Hgt]]; [|done|]; exfalso.
  - assert (2 ^ d <= 2 ^ (k - 1)) by (apply Z.pow_le_mono_r; lia). lia.
  - destruct (Z.le_gt_cases 0 k) as [Hk|Hk].
    + assert (2 ^ k <= 2 ^ (d - 1)) by (apply Z.pow_le_mono_r; lia). lia.
    + rewrite Z.pow_neg_r in Hu; lia.
Qed.

Lemma shr_fexp_exact (m : positive) (e n : Z) :
  n = fexp prec emax (Z.pos (digits2_pos m) + e) - e ->
  0 <= n ->
  exists r, shr_fexp prec emax (Z.pos m) e loc_Exact = (r, e + n)
    /\ shr_m r = Z.pos m / 2 ^ n
    /\ (Z.pos m mod 2 ^ n = 0 -> shr_r r = false /\ shr_s r = false).
Proof.
  intros E Hn. unfold shr_fexp, Zdigits2, shr_record_of_loc. rewrite <- E.
  destruct n as [|p|p]; [| |lia].
  - eexists. split; [cbn [shr]; by rewrite Z.add_0_r|].
    cbn [shr_m shr_r shr_s]. split; [by rewrite Z.pow_0_r, Z.div_1_r|done].
  - eexists. split; [reflexivity|].
    apply (iter_shr_spec (Z.pos m) p 0); [lia|lia| |done].
    cbn [shr_m]. by rewrite Z.pow_0_r, Z.div_1_r.
Qed.

Lemma round_nearest_faithful (r : shr_record) :
  let q := round_nearest_even (shr_m r) (loc_of_shr_record r) in
  q = shr_m r
  \/ (q = shr_m r + 1 /\ (shr_r r = true \/ shr_s r = true)).
Proof.
  destruct r as [mm [] []]; cbn; try destruct (Z.even mm); auto.
Qed.

(** What [binary_round_aux] makes of a positive integer that has at least
    the digits of its format: the integer [q] it keeps is the quotient by the
    power of two it drops, or the next integer when digits were lost. *)
Lemma round_aux_faithful (m : positive) (e e1 n : Z) :
  e1 = Z.max (Z.pos (digits2_pos m) + e - 53) (-1074) ->
  n = e1 - e -> 0 <= n -> e1 < 971 ->
  exists q,
    (q = Z.pos m / 2 ^ n
     \/ (q = Z.pos m / 2 ^ n + 1 /\ Z.pos m mod 2 ^ n <> 0))
    /\ (e1 = -1074 \/ 2 ^ 52 <= Z.pos m / 2 ^ n) /\ 0 <= q <= 2 ^ 53
    /\ binary_round_aux prec emax false (Z.pos m) e loc_Exact
       = (if q =? 0 then S754_zero false
          else if q =? 2 ^ 53
               then S754_finite false 4503599627370496 (e1 + 1)
               else S754_finite false (Z.to_pos q) e1).
Proof.
  intros He1 En Hn Hmax.
  destruct (shr_fexp_exact m e n) as (r & Hs & Hm & Hex);
    [rewrite fexp_eq; lia|done|].
  replace (e + n) with e1 in Hs by lia.
  pose proof (digits2_lower m) as Hl. pose proof (digits2_upper m) as Hu.
  set (d := Z.pos (digits2_pos m)) in *. set (M := Z.pos m) in *.
  assert (HP : 0 < 2 ^ n) by (apply Z.pow_pos_nonneg; lia).
  assert (Hq0 : (e1 = -1074 /\ 0 <= M / 2 ^ n < 2 ^ 52)
                \/ 2 ^ 52 <= M / 2 ^ n < 2 ^ 53).
  { destruct (Z.le_gt_cases (-1074) (d + e - 53)) as [Hnorm|Hsub].
    - right. assert (n = d - 53) by lia. split.
      + apply Z.div_le_lower_bound; [done|]. rewrite <- Z.pow_add_r by lia.
        by replace (n + 52) with (d - 1) by lia.
      + apply Z.div_lt_upper_bound; [done|]. rewrite <- Z.pow_add_r by lia.
        by replace (n + 53) with d by lia.
    - left. split; [lia|]. split; [apply Z.div_pos; lia|].
      apply Z.div_lt_upper_bound; [done|]. rewrite <- Z.pow_add_r by lia.
      eapply Z.lt_le_trans; [exact Hu|]. apply Z.pow_le_mono_r; lia. }
  pose proof (round_nearest_faithful r) as Hf. cbv zeta in Hf.
  unfold binary_round_aux. rewrite Hs.
  set (q := round_nearest_even (shr_m r) (loc_of_shr_record r)) in *.
  rewrite Hm in Hf.
  assert (Hfq : q = M / 2 ^ n \/ (q = M / 2 ^ n + 1 /\ M mod 2 ^ n <> 0)).
  { destruct Hf as [Hf|[Hf Hrs]]; [by left|right]. split; [done|].
    intros H0. destruct (Hex H0) as [Hr1 Hr2]. rewrite Hr1, Hr2 in Hrs.
    by destruct Hrs. }
  assert (Hqr : (e1 = -1074 \/ 2 ^ 52 <= q) /\ 0 <= q <= 2 ^ 53)
    by (clear -Hq0 Hfq; lia).
  exists q. split; [exact Hfq|]. split; [clear -Hq0; lia|]. split; [tauto|].
  clearbody q. clear Hf Hfq Hq0 Hs Hm Hex r.
  destruct (Z.eqb_spec q 0) as [->|Hq0].
  - unfold shr_fexp. cbn [Zdigits2 shr_record_of_loc]. rewrite fexp_eq.
    replace (Z.max (0 + e1 - 53) (-1074) - e1) with (Z.max (-53) (-1074 - e1)) by lia.
    destruct (Z.max (-53) (-1074 - e1)) eqn:E; [reflexivity|lia|reflexivity].
  - destruct (Z.eqb_spec q (2 ^ 53)) as [->|Hq1].
    + unfold shr_fexp. cbn [Zdigits2 shr_record_of_loc].
      change (Z.pos (digits2_pos 9007199254740992)) with 54.
      change (2 ^ 53) with (Z.pos 9007199254740992).
      cbn [Zdigits2].
      change (Z.pos (digits2_pos 9007199254740992)) with 54.
      rewrite fexp_eq.
      replace (Z.max (54 + e1 - 53) (-1074) - e1) with 1 by lia.
      cbn [shr SpecFloat.iter_pos shr_1 shr_m].
      by replace (e1 + 1 <=? emax - prec) with true
        by (symmetry; apply Z.leb_le; unfold emax, prec; lia).
    + destruct q as [|qp|qp]; [done| |lia]. cbn [Z.to_pos].
      assert (Hc : Z.max (Z.pos (digits2_pos qp) + e1 - 53) (-1074) = e1).
      { assert (Hd : Z.pos (digits2_pos qp) <= 53)
          by (apply digits2_small; lia).
        destruct Hqr as [[->|Hn52] Hb]; [lia|].
        rewrite (digits2_eq qp 53); [lia|].
        change (53 - 1) with 52. lia. }
      assert (Hs : shr_fexp prec emax (Z.pos qp) e1 loc_Exact
                   = ({| shr_m := Z.pos qp; shr_r := false; shr_s := false |}, e1)).
      { unfold shr_fexp, Zdigits2. rewrite fexp_eq, Hc, Z.sub_diag. reflexivity. }
      rewrite Hs. cbn [shr_m].
      by replace (e1 <=? emax - prec) with true
        by (symmetry; apply Z.leb_le; unfold emax, prec; lia).
Qed.

End Rounding.

Section Between.

Local Open Scope Z_scope.

Variable K : Z.
Hypothesis HK : 1074 <= K.

Lemma units_pos (m : positive) (e : Z) : -K <= e -> 0 < units K m e.
Proof.
  intros He. unfold units.
  assert (0 < 2 ^ (e + K)) by (apply Z.pow_pos_nonneg; lia). lia.
Qed.

Lemma pow_split (a b : Z) :
  0 <= a -> 0 <= b -> 2 ^ (a + b) = 2 ^ a * 2 ^ b /\ 0 < 2 ^ a /\ 1 <= 2 ^ b.
Proof.
  intros Ha Hb. split; [by apply Z.pow_add_r|].
  split; [by apply Z.pow_pos_nonneg|].
  assert (0 < 2 ^ b) by (by apply Z.pow_pos_nonneg). lia.
Qed.

Lemma pow_split_strict (a b : Z) :
  0 <= a -> 0 < b -> 2 ^ (a + b) = 2 ^ a * 2 ^ b /\ 0 < 2 ^ a /\ 2 <= 2 ^ b.
Proof.
  intros Ha Hb. split; [apply Z.pow_add_r; lia|].
  split; [by apply Z.pow_pos_nonneg|].
  replace b with (Z.succ (b - 1)) by lia. rewrite Z.pow_succ_r by lia.
  assert (0 < 2 ^ (b - 1)) by (apply Z.pow_pos_nonneg; lia). lia.
Qed.

(** On stored numbers the comparison of binary64 is the comparison of the
    values. *)
Lemma SFleb_units (m1 : positive) (e1 : Z) (m2 : positive) (e2 : Z) :
  stored m1 e1 -> stored m2 e2 -> -K <= e1 -> -K <= e2 ->
  units K m1 e1 <= units K m2 e2 ->
  SFleb (S754_finite false m1 e1) (S754_finite false m2 e2) = true.
Proof.
  intros (L1 & U1 & N1) (L2 & U2 & N2) K1 K2 H. unfold units in H.
  unfold SFleb, SFcompare.
  destruct (Z.compare_spec e1 e2) as [->|Hlt|Hgt]; [|done|].
  - change (Pos.compare_cont Eq m1 m2) with (m1 ?= m2)%positive.
    destruct (Pos.compare_spec m1 m2) as [?|?|Hm]; [done..|]. exfalso.
    assert (0 < 2 ^ (e2 + K)) by (apply Z.pow_pos_nonneg; lia).
    apply Pos2Z.pos_lt_pos in Hm. nia.
  - exfalso. destruct N1 as [->|N1]; [lia|].
    destruct (pow_split_strict (e2 + K) (e1 - e2)) as (E & HP & HT); [lia..|].
    replace (e2 + K + (e1 - e2)) with (e1 + K) in E by lia.
    rewrite E in H. set (P := 2 ^ (e2 + K)) in *. set (T := 2 ^ (e1 - e2)) in *.
    clearbody P T. clear E.
    assert (2 ^ 53 <= Z.pos m1 * T) by nia. nia.
Qed.

(** [binary_round_aux] never crosses a stored number: its result is zero,
    below every stored number, or a stored number on the same side of each
    stored number as the value it rounds. *)
Lemma round_aux_between (m : positive) (e e1 n : Z) :
  e1 = Z.max (Z.pos (digits2_pos m) + e - 53) (-1074) ->
  n = e1 - e -> 0 <= n -> e1 < 970 -> -K <= e ->
  let r := binary_round_aux prec emax false (Z.pos m) e loc_Exact in
  (r = S754_zero false
   /\ forall mb eb, stored mb eb -> units K m e < units K mb eb)
  \/ exists q' e',
       r = S754_finite false q' e' /\ stored q' e' /\ e' < 971
       /\ forall mb eb, stored mb eb ->
            (units K m e <= units K mb eb -> units K q' e' <= units K mb eb)
            /\ (units K mb eb <= units K m e ->
                units K mb eb <= units K q' e').
Proof.
  intros He1 En Hn Hmax HKe r.
  destruct (round_aux_faithful m e e1 n He1 En Hn ltac:(lia))
    as (q & Hq & Hnorm & Hqb & Hr).
  fold r in Hr.
  destruct (pow_split (e + K) n) as (E & HP & HN); [lia..|].
  replace (e + K + n) with (e1 + K) in E by lia.
  pose proof (Z.div_mod (Z.pos m) (2 ^ n) ltac:(lia)) as Hdm.
  pose proof (Z.mod_pos_bound (Z.pos m) (2 ^ n) ltac:(lia)) as Hrem.
  set (M := Z.pos m) in *. set (N := 2 ^ n) in *. set (P := 2 ^ (e + K)) in *.
  set (q0 := M / N) in *. set (rem := M mod N) in *.
  assert (Hside : forall mb eb, stored mb eb ->
            (M * P <= units K mb eb -> q * (P * N) <= units K mb eb)
            /\ (units K mb eb <= M * P -> units K mb eb <= q * (P * N))).
  { intros mb eb (Lb & Ub & Nb). unfold units.
    destruct (Z.le_gt_cases e1 eb) as [Hle|Hgt].
    - destruct (pow_split (e1 + K) (eb - e1)) as (Eb & _ & HT); [lia..|].
      replace (e1 + K + (eb - e1)) with (eb + K) in Eb by lia.
      rewrite Eb, E. set (T := 2 ^ (eb - e1)) in *.
      clearbody M N P q0 rem T. clear Eb E Hr r.
      set (B := Z.pos mb * T) in *.
      replace (Z.pos mb * (P * N * T)) with (B * N * P) by (subst B; ring).
      split; intros H.
      + assert (HMB : M <= B * N) by nia.
        assert (Hq0B : q0 <= B) by nia.
        destruct Hq as [->|[-> Hne]]; [nia|].
        assert (q0 < B) by nia. nia.
      + assert (HMB : B * N <= M) by nia.
        assert (Hq0B : B <= q0) by nia.
        destruct Hq as [->|[-> Hne]]; nia.
    - destruct Hnorm as [->|Hnorm]; [lia|].
      destruct (pow_split_strict (eb + K) (e1 - eb)) as (Eb & HPb & HT); [lia..|].
      replace (eb + K + (e1 - eb)) with (e1 + K) in Eb by lia.
      rewrite <- E, Eb. set (Pb := 2 ^ (eb + K)) in *.
      set (T := 2 ^ (e1 - eb)) in *.
      assert (HPN : P * N = Pb * T) by (rewrite <- E; exact Eb).
      clearbody M N P q0 rem T Pb. clear Eb E Hr r.
      assert (Hq52 : 2 ^ 52 <= q) by (destruct Hq as [->|[-> _]]; lia).
      split; intros H.
      + exfalso. assert (2 ^ 52 * N <= M) by nia.
        assert (2 ^ 52 * (Pb * T) <= M * P) by (rewrite <- HPN; nia).
        assert (2 ^ 53 * Pb <= 2 ^ 52 * (Pb * T)) by nia. nia.
      + assert (2 ^ 53 * Pb <= q * (Pb * T)) by nia. nia. }
  destruct (Z.eqb_spec q 0) as [Hz|Hnz].
  - left. split; [done|]. intros mb eb Hb. unfold units. fold M P.
    destruct Hnorm as [He|Hnorm]; [|exfalso; destruct Hq as [?|[? _]]; lia].
    destruct Hb as (Lb & Ub & Nb).
    destruct (pow_split (e1 + K) (eb - e1)) as (Eb & _ & HT); [lia..|].
    replace (e1 + K + (eb - e1)) with (eb + K) in Eb by lia.
    rewrite Eb, E. set (T := 2 ^ (eb - e1)) in *.
    assert (Hq00 : q0 = 0) by (destruct Hq as [?|[? _]]; lia).
    clearbody M N P q0 rem T. clear Eb E Hr r.
    assert (M < N) by nia.
    assert (M * P < N * P) by nia.
    assert (1 <= Z.pos mb * T) by nia.
    assert (0 < N * P) by nia.
    replace (Z.pos mb * (P * N * T)) with (N * P * (Z.pos mb * T)) by ring.
    nia.
  - right. destruct (Z.eqb_spec q (2 ^ 53)) as [Hbig|Hsmall].
    + exists 4503599627370496%positive, (e1 + 1).
      split; [done|]. split; [split; [lia|]; split; [done|by right]|].
      split; [lia|]. intros mb eb Hb.
      assert (Hu : units K 4503599627370496 (e1 + 1) = q * (P * N)).
      { unfold units. replace (e1 + 1 + K) with (Z.succ (e1 + K)) by lia.
        rewrite Z.pow_succ_r by lia. rewrite E, Hbig.
        change (2 ^ 53) with (Z.pos 4503599627370496 * 2). ring. }
      rewrite Hu. unfold units at 1 4. fold M P. by apply Hside.
    + exists (Z.to_pos q), e1.
      split; [done|]. split; [|split; [lia|]].
      * split; [lia|]. rewrite Z2Pos.id by lia. split; [lia|].
        destruct Hnorm as [?|?]; [by left|right].
        destruct Hq as [->|[-> _]]; lia.
      * intros mb eb Hb.
        assert (Hu : units K (Z.to_pos q) e1 = q * (P * N)).
        { unfold units. rewrite Z2Pos.id by lia. by rewrite E. }
        rewrite Hu. unfold units at 1 4. fold M P. by apply Hside.
Qed.

Lemma iter_xO_value (p d : positive) :
  Z.pos (Pos.iter xO p d) = Z.pos p * 2 ^ Z.pos d.
Proof.
  induction d as [|d IH] using Pos.peano_ind.
  - cbn [Pos.iter]. lia.
  - rewrite Pos.iter_succ, Pos2Z.inj_xO, IH, Pos2Z.inj_succ, Z.pow_succ_r by lia.
    ring.
Qed.

Lemma shl_align_value (mx : positive) (ex ez : Z) :
  ez <= ex -> Z.pos (fst (shl_align mx ex ez)) = Z.pos mx * 2 ^ (ex - ez).
Proof.
  intros H. unfold shl_align. destruct (ez - ex) as [|d|d] eqn:E; [|lia|].
  - cbn [fst]. replace (ex - ez) with 0 by lia. lia.
  - cbn [fst]. rewrite iter_xO_value. by replace (ex - ez) with (Z.pos d) by lia.
Qed.

(** The same for [binary_round], which first gives the integer the digits
    of its format. *)
Lemma round_between (m : positive) (e : Z) :
  -1074 <= e -> Z.pos (digits2_pos m) + e < 1000 ->
  let r := binary_round prec emax false m e in
  (r = S754_zero false
   /\ forall mb eb, stored mb eb -> units K m e < units K mb eb)
  \/ exists q' e',
       r = S754_finite false q' e' /\ stored q' e' /\ e' < 971
       /\ forall mb eb, stored mb eb ->
            (units K m e <= units K mb eb -> units K q' e' <= units K mb eb)
            /\ (units K mb eb <= units K m e ->
                units K mb eb <= units K q' e').
Proof.
  intros He Hd. unfold binary_round, shl_align. rewrite fexp_eq.
  set (f := Z.max (Z.pos (digits2_pos m) + e - 53) (-1074)).
  assert (Hf : -1074 <= f) by apply Z.le_max_r.
  destruct (f - e) as [|d|d] eqn:E.
  - apply (round_aux_between m e f 0); subst f; lia.
  - apply (round_aux_between m e f (Z.pos d)); subst f; lia.
  - assert (Hu : units K (Pos.iter xO m d) f = units K m e).
    { unfold units. rewrite iter_xO_value.
      replace (e + K) with (Z.pos d + (f + K)) by lia.
      rewrite (Z.pow_add_r 2 (Z.pos d) (f + K)) by lia. ring. }
    rewrite <- Hu.
    apply (round_aux_between (Pos.iter xO m d) f f 0); [|lia|lia| |].
    + rewrite digits2_iter_xO. subst f. lia.
    + subst f. lia.
    + subst f. lia.
Qed.

Lemma bounded_stored (m : positive) (e : Z) :
  bounded prec emax m e = true -> stored m e /\ e <= 971.
Proof.
  unfold bounded, canonical_mantissa. rewrite fexp_eq.
  intros [Hc He%Z.leb_le]%andb_true_iff. apply Z.eqb_eq in Hc.
  unfold emax, prec in He. split; [|lia].
  pose proof (digits2_lower m) as Hl. pose proof (digits2_upper m) as Hu.
  set (d := Z.pos (digits2_pos m)) in *.
  assert (Hd : d <= 53) by lia.
  split; [lia|]. split.
  - eapply Z.lt_le_trans; [exact Hu|]. apply Z.pow_le_mono_r; lia.
  - destruct (Z.eq_dec e (-1074)) as [?|Hne]; [by left|right].
    assert (d = 53) by lia. by replace 52 with (d - 1) by lia.
Qed.

(** A stored number below 1, times a stored number [c] of full precision,
    is at most [c]. *)
Lemma mul_between (mu : positive) (eu : Z) (mc : positive) (ec : Z) :
  stored mu eu -> eu <= -53 -> stored mc ec -> 2 ^ 52 <= Z.pos mc ->
  -K <= eu + ec -> ec <= 900 ->
  let r := SFmul prec emax (S754_finite false mu eu) (S754_finite false mc ec) in
  r = S754_zero false
  \/ exists q' e',
       r = S754_finite false q' e' /\ stored q' e'
       /\ units K q' e' <= units K mc ec.
Proof.
  intros (Lu & Uu & Nu) Heu Hc Hmc HKe Hec. cbn [SFmul xorb].
  pose proof (digits2_lower (mu * mc)) as Hl.
  pose proof (digits2_upper (mu * mc)) as Hu.
  set (d := Z.pos (digits2_pos (mu * mc))) in *.
  assert (Hd : 53 <= d <= 106).
  { rewrite Pos2Z.inj_mul in Hl, Hu. destruct Hc as (_ & Uc & _).
    assert (Hd0 : 0 < d) by (subst d; lia). split.
    - destruct (Z.le_gt_cases 53 d) as [|Hs]; [done|]. exfalso.
      assert (2 ^ d <= 2 ^ 52) by (apply Z.pow_le_mono_r; lia). nia.
    - destruct (Z.le_gt_cases d 106) as [|Hs]; [done|]. exfalso.
      assert (2 ^ 106 <= 2 ^ (d - 1)) by (apply Z.pow_le_mono_r; lia).
      change (2 ^ 106) with (2 ^ 53 * 2 ^ 53) in *. nia. }
  destruct (round_aux_between (mu * mc) (eu + ec)
              (Z.max (d + (eu + ec) - 53) (-1074))
              (Z.max (d + (eu + ec) - 53) (-1074) - (eu + ec)))
    as [[Hz _]|(q' & e' & Hr & Hs & _ & Hb)]; [done|done|lia|lia|done|by left|].
  right. exists q', e'. split; [done|]. split; [done|].
  apply (Hb mc ec Hc). unfold units. rewrite Pos2Z.inj_mul.
  destruct (pow_split (eu + ec + K) (- eu)) as (E & HP & _); [lia..|].
  replace (eu + ec + K + - eu) with (ec + K) in E by lia. rewrite E.
  assert (2 ^ 53 <= 2 ^ (- eu)) by (apply Z.pow_le_mono_r; lia).
  set (P := 2 ^ (eu + ec + K)) in *. set (T := 2 ^ (- eu)) in *.
  clearbody P T. clear E Hl Hu Hb. nia.
Qed.

(** A stored number between zero and [c], plus a stored number [l], lies
    between [l] and the stored number [h] that is [c + l]. *)
Lemma add_between (mr : positive) (er : Z) (mc : positive) (ec : Z)
    (ml : positive) (el : Z) (mh : positive) (eh : Z) :
  stored mr er -> stored mc ec -> stored ml el -> stored mh eh ->
  eh <= 900 ->
  units K mr er <= units K mc ec ->
  units K mc ec + units K ml el = units K mh eh ->
  let r := SFadd prec emax (S754_finite false mr er) (S754_finite false ml el) in
  SFleb (S754_finite false ml el) r = true
  /\ SFleb r (S754_finite false mh eh) = true.
Proof.
  intros Hr Hc Hl Hh Heh Hrc Hsum. cbn [SFadd cond_Zopp].
  set (ez := Z.min er el).
  assert (Hez : -1074 <= ez) by (destruct Hr as (? & _), Hl as (? & _); lia).
  set (a := fst (shl_align mr er ez)). set (b := fst (shl_align ml el ez)).
  change (Z.pos a + Z.pos b) with (Z.pos (a + b)). cbn [binary_normalize].
  assert (Hu : units K (a + b) ez = units K mr er + units K ml el).
  { unfold units. rewrite Pos2Z.inj_add. subst a b.
    rewrite !shl_align_value by lia.
    replace (er + K) with (er - ez + (ez + K)) by lia.
    replace (el + K) with (el - ez + (ez + K)) by lia.
    rewrite (Z.pow_add_r 2 (er - ez) (ez + K)) by lia.
    rewrite (Z.pow_add_r 2 (el - ez) (ez + K)) by lia. ring. }
  assert (Hle : units K (a + b) ez <= units K mh eh) by lia.
  assert (Hge : units K ml el <= units K (a + b) ez).
  { pose proof (units_pos mr er). lia. }
  assert (Hd : Z.pos (digits2_pos (a + b)) + ez < 1000).
  { pose proof (digits2_lower (a + b)) as Hlo.
    set (d := Z.pos (digits2_pos (a + b))) in *.
    destruct (Z.lt_ge_cases (d + ez) 1000) as [|Hbig]; [done|]. exfalso.
    destruct Hh as (Lh & Uh & _). unfold units in Hle.
    assert (H1 : 2 ^ (d - 1) * 2 ^ (ez + K) <= Z.pos mh * 2 ^ (eh + K)).
    { assert (0 < 2 ^ (ez + K)) by (apply Z.pow_pos_nonneg; lia). nia. }
    rewrite <- Z.pow_add_r in H1 by (subst d; lia).
    assert (H2 : Z.pos mh * 2 ^ (eh + K) < 2 ^ 53 * 2 ^ (eh + K)).
    { assert (0 < 2 ^ (eh + K)) by (apply Z.pow_pos_nonneg; lia). nia. }
    rewrite <- Z.pow_add_r in H2 by lia.
    assert (2 ^ (53 + (eh + K)) <= 2 ^ (d - 1 + (ez + K)))
      by (apply Z.pow_le_mono_r; lia).
    lia. }
  destruct (round_between (a + b) ez Hez Hd)
    as [[_ Hz]|(q' & e' & -> & Hs & He' & Hb)].
  - exfalso. specialize (Hz ml el Hl). lia.
  - destruct Hs as (Ls & Us & Ns). destruct Hl as (Ll & Ul & Nl).
    destruct Hh as (Lh & Uh & Nh).
    split; apply SFleb_units; try done; try lia.
    + by apply (Hb ml el).
    + by apply (Hb mh eh).
Qed.

End Between.

Lemma SFleb_refl_finite (m : positive) (e : Z) :
  SFleb (S754_finite false m e) (S754_finite false m e) = true.
Proof.
  unfold SFleb, SFcompare.
  by rewrite Z.compare_refl, Pos.compare_cont_refl.
Qed.

(** [u * c + l] for a number [u] from 0 up to 1 lies between [l] and
    [h = c + l], when [c], [l] and [h] are stored numbers and [c] has full
    precision. *)
Lemma scaled_between (u c l h : float) (mc : positive) (ec : Z)
    (ml : positive) (el : Z) (mh : positive) (eh : Z) :
  Prim2SF c = S754_finite false mc ec ->
  Prim2SF l = S754_finite false ml el ->
  Prim2SF h = S754_finite false mh eh ->
  (2 ^ 52 <= Z.pos mc)%Z -> (-78 <= ec <= 900)%Z -> (eh <= 900)%Z ->
  (units 1200 mc ec + units 1200 ml el = units 1200 mh eh)%Z ->
  unit_interval u ->
  PrimFloat.leb l (u * c + l) = true /\ PrimFloat.leb (u * c + l) h = true.
Proof.
  intros Ec El Eh Hmc Hec Heh Hsum [H0 H1].
  pose proof (Prim2SF_valid c) as Vc. pose proof (Prim2SF_valid l) as Vl.
  pose proof (Prim2SF_valid h) as Vh. pose proof (Prim2SF_valid u) as Vu.
  rewrite Ec in Vc. rewrite El in Vl. rewrite Eh in Vh.
  cbn [valid_binary] in Vc, Vl, Vh.
  apply bounded_stored in Vc as [Sc Bc]. apply bounded_stored in Vl as [Sl Bl].
  apply bounded_stored in Vh as [Sh Bh].
  rewrite leb_spec in H0. rewrite ltb_spec in H1.
  rewrite !leb_spec, add_spec, mul_spec, Ec, El, Eh.
  change (Prim2SF 0) with (S754_zero false) in H0.
  change (Prim2SF 1)
    with (S754_finite false 4503599627370496%positive (-52)%Z) in H1.
  assert (Hlh : SFleb (S754_finite false ml el) (S754_finite false mh eh) = true).
  { destruct Sl as (? & ? & ?), Sh as (? & ? & ?).
    apply (SFleb_units 1200); try done; try lia.
    pose proof (units_pos 1200 mc ec). lia. }
  destruct (Prim2SF u) as [s|s| |s mu eu].
  - cbn [SF64mul SFmul SF64add SFadd]. split; [apply SFleb_refl_finite|done].
  - by destruct s.
  - done.
  - destruct s; [done|]. cbn [valid_binary] in Vu.
    apply bounded_stored in Vu as [Su Bu].
    assert (Heu : (eu <= -53)%Z).
    { unfold SFltb, SFcompare in H1. destruct Su as (_ & Uu & Nu).
      destruct (Z.compare_spec eu (-52)) as [->|?|?]; [|lia|done].
      destruct Nu as [?|Nu]; [lia|].
      rewrite Pos.compare_cont_spec in H1. cbn [Pos.switch_Eq] in H1.
      destruct (Pos.compare_spec mu 4503599627370496%positive) as [?|Hlt|?];
        [done| |done].
      apply Pos2Z.pos_lt_pos in Hlt. clear -Hlt Nu. exfalso.
      change (2 ^ 52)%Z with (Z.pos 4503599627370496%positive) in Nu. lia. }
    unfold SF64mul, SF64add.
    destruct (mul_between 1200 ltac:(lia) mu eu mc ec Su Heu Sc Hmc)
      as [->|(q' & e' & -> & Sq & Hq)];
      [destruct Su as (? & _); lia|lia| |].
    + cbn [SFadd]. split; [apply SFleb_refl_finite|done].
    + by apply (add_between 1200 ltac:(lia) q' e' mc ec ml el mh eh).
Qed.

(** ** Halving a doubled number *)

(** An even mantissa with one digit too many loses its last digit. *)
Lemma round_even (s : bool) (m : positive) (e : Z) :
  fexp prec emax (Z.pos (digits2_pos m~0) + e) = (e + 1)%Z -> (e + 1 <= 971)%Z ->
  binary_round_aux prec emax s (Z.pos m~0) e loc_Exact = S754_finite s m (e + 1).
Proof.
  intros Hc He.
  assert (Hs : shr_fexp prec emax (Z.pos m~0) e loc_Exact
               = ({| shr_m := Z.pos m; shr_r := false; shr_s := false |}, (e + 1)%Z)).
  { unfold shr_fexp, Zdigits2. rewrite Hc.
    replace (e + 1 - e)%Z with 1%Z by lia. reflexivity. }
  unfold binary_round_aux. rewrite Hs.
  cbn [shr_m loc_of_shr_record round_nearest_even].
  assert (Hs' : shr_fexp prec emax (Z.pos m) (e + 1) loc_Exact
                = ({| shr_m := Z.pos m; shr_r := false; shr_s := false |}, (e + 1)%Z)).
  { unfold shr_fexp, Zdigits2.
    replace (Z.pos (digits2_pos m) + (e + 1))%Z
      with (Z.pos (digits2_pos m~0) + e)%Z
      by (cbn [digits2_pos]; lia).
    rewrite Hc, Z.sub_diag. reflexivity. }
  rewrite Hs'. cbn [shr_m].
  by replace (e + 1 <=? emax - prec)%Z with true
    by (symmetry; apply Z.leb_le; unfold emax, prec; lia).
Qed.

Lemma double_finite (s : bool) (m : positive) (e : Z) :
  fexp prec emax (Z.pos (digits2_pos m) + e) = e -> (e < 971)%Z ->
  SF64add (S754_finite s m e) (S754_finite s m e)
  = if (Z.pos (digits2_pos m) + e - 53 <? -1074)%Z
    then S754_finite s m~0 e
    else S754_finite s m (e + 1).
Proof.
  intros Hc He. unfold SF64add, SFadd.
  rewrite Z.min_id. unfold shl_align at 1 2. rewrite Z.sub_diag. cbn [fst].
  replace (cond_Zopp s (Z.pos m) + cond_Zopp s (Z.pos m))%Z
    with (cond_Zopp s (Z.pos m~0)) by (destruct s; cbn; lia).
  assert (Hr : binary_normalize prec emax (cond_Zopp s (Z.pos m~0)) e false
               = binary_round prec emax s m~0 e) by (by destruct s).
  rewrite Hr. unfold binary_round, shl_align.
  rewrite fexp_eq in Hc. rewrite fexp_eq.
  assert (Hd : Z.pos (digits2_pos m~0) = (Z.pos (digits2_pos m) + 1)%Z)
    by (cbn [digits2_pos]; lia).
  destruct (Z.ltb_spec (Z.pos (digits2_pos m) + e - 53) (-1074)) as [Hsub|Hnorm].
  - replace (Z.max (Z.pos (digits2_pos m~0) + e - 53) (-1074)) with e by lia.
    rewrite Z.sub_diag. apply round_canonical; [rewrite fexp_eq|]; lia.
  - replace (Z.max (Z.pos (digits2_pos m~0) + e - 53) (-1074)) with (e + 1)%Z by lia.
    replace (e + 1 - e)%Z with 1%Z by lia.
    apply round_even; [rewrite fexp_eq|]; lia.
Qed.

Lemma div_eucl_multiple (q : Z) :
  Z.div_eucl (q * 4503599627370496) 4503599627370496 = (q, 0%Z).
Proof.
  pose proof (Z.div_mul q 4503599627370496) as Hq.
  pose proof (Z.mod_mul q 4503599627370496) as Hr.
  unfold Z.div, Z.modulo in Hq, Hr.
  destruct (Z.div_eucl _ _) as [q' r]. cbn in Hq, Hr.
  by rewrite Hq, Hr by lia.
Qed.

(** Dividing by 2, whose mantissa is [2^52] and exponent [-51], when the
    shifted mantissa is a multiple of [2^52]. *)
Lemma halve_core (m : positive) (e e' q : Z) :
  Z.min (fexp prec emax (Z.pos (digits2_pos m) + e - (53 + -51))) (e - -51) = e' ->
  (0 < e + 51 - e')%Z ->
  (Z.pos m * 2 ^ (e + 51 - e') = q * 4503599627370496)%Z ->
  SFdiv_core_binary prec emax (Z.pos m) e 4503599627370496 (-51)
  = (q, e', loc_Exact).
Proof.
  intros He Hpos Hq. unfold SFdiv_core_binary.
  change (Zdigits2 4503599627370496) with 53%Z. cbn [Zdigits2].
  rewrite He.
  replace (e - -51 - e')%Z with (e + 51 - e')%Z by lia.
  destruct (e + 51 - e')%Z as [|p|p] eqn:E; [lia| |lia].
  rewrite Z.shiftl_mul_pow2 by lia. rewrite Hq.
  by rewrite div_eucl_multiple.
Qed.

Lemma halve_normal (s : bool) (m : positive) (e : Z) :
  Z.pos (digits2_pos m) = 53%Z -> (-1074 <= e <= 970)%Z ->
  SF64div (S754_finite s m (e + 1)) (S754_finite false 4503599627370496 (-51))
  = S754_finite s m e.
Proof.
  intros Hd He. unfold SF64div, SFdiv. rewrite xorb_false_r.
  destruct (Z.eq_dec e (-1074)%Z) as [->|Hne].
  - rewrite (halve_core m _ (-1074)%Z (Z.pos m)).
    + apply round_canonical; [rewrite fexp_eq|]; lia.
    + rewrite fexp_eq, Hd. reflexivity.
    + lia.
    + reflexivity.
  - rewrite (halve_core m _ (e - 1)%Z (Z.pos m~0)).
    + replace e with (e - 1 + 1)%Z at 2 by lia.
      apply round_even; [rewrite fexp_eq; cbn [digits2_pos]|]; lia.
    + rewrite fexp_eq, Hd. lia.
    + lia.
    + replace (e + 1 + 51 - (e - 1))%Z with 53%Z by lia.
      change (2 ^ 53)%Z with 9007199254740992%Z. lia.
Qed.

Lemma halve_subnormal (s : bool) (m : positive) :
  (Z.pos (digits2_pos m) <= 52)%Z ->
  SF64div (S754_finite s m~0 (-1074)) (S754_finite false 4503599627370496 (-51))
  = S754_finite s m (-1074).
Proof.
  intros Hd. unfold SF64div, SFdiv. rewrite xorb_false_r.
  rewrite (halve_core m~0 _ (-1074)%Z (Z.pos m)).
  - apply round_canonical; [rewrite fexp_eq|]; lia.
  - rewrite fexp_eq. cbn [digits2_pos]. lia.
  - lia.
  - change (-1074 + 51 - -1074)%Z with 51%Z.
    change (2 ^ 51)%Z with 2251799813685248%Z. lia.
Qed.

(** A finite number below [2^1023] in magnitude is the half of its double. *)
Lemma halve_double (x : float) :
  modest x = true -> ((x + x) / 2)%float = x.
Proof.
  unfold modest. intros Hx. apply Prim2SF_inj.
  rewrite div_spec, add_spec.
  change (Prim2SF 2) with (S754_finite false 4503599627370496 (-51)).
  rewrite ltb_spec, abs_spec in Hx.
  change (Prim2SF 0x1p1023) with (S754_finite false 4503599627370496 971) in Hx.
  pose proof (Prim2SF_valid x) as Hv.
  destruct (Prim2SF x) as [[]|[]| |s m e]; try done.
  cbn [valid_binary] in Hv. unfold bounded, canonical_mantissa in Hv.
  apply andb_prop in Hv as [Hc Hb].
  apply Z.eqb_eq in Hc. apply Z.leb_le in Hb.
  unfold SFltb in Hx. cbn [SFabs SFcompare] in Hx.
  assert (He : (e < 971)%Z).
  { destruct (Z.lt_total e 971) as [H|[Heq|H]]; [done| |].
    2: { apply Z.compare_gt_iff in H. by rewrite H in Hx. }
    rewrite Heq, Z.compare_refl in Hx.
    rewrite Pos.compare_cont_spec in Hx. cbn [Pos.switch_Eq] in Hx.
    destruct (Pos.compare_spec m 4503599627370496%positive) as [H|H|H]; try done.
    pose proof (digits2_lower m) as Hl. rewrite fexp_eq in Hc.
    assert (Z.pos (digits2_pos m) = 53%Z) as Hd by (clear -Hc Heq; lia).
    rewrite Hd in Hl. change (2 ^ (53 - 1))%Z with 4503599627370496%Z in Hl.
    apply Pos2Z.pos_lt_pos in H. clear -Hl H. lia. }
  rewrite (double_finite s m e Hc He). rewrite fexp_eq in Hc.
  destruct (Z.ltb_spec (Z.pos (digits2_pos m) + e - 53) (-1074)) as [Hsub|Hnorm].
  - assert (e = (-1074)%Z) as -> by lia. apply halve_subnormal. lia.
  - apply halve_normal; lia.
Qed.

(** The midpoint of a vertex with itself is the vertex. *)
Lemma new_vertex_same (p : point) (dx dy : float) :
  modest (px p) = true -> modest (py p) = true ->
  new_vertex p p dx dy = Point (px p + dx) (py p + dy).
Proof. intros Hx Hy. unfold new_vertex. by rewrite !halve_double. Qed.

(** * Properties *)

(** ** Worlds and the monad *)

Lemma set_drawn_set_drawn a c w : set_drawn a (set_drawn c w) = set_drawn a w.
Proof. reflexivity. Qed.

Lemma set_drawn_id w : set_drawn (drawn w) w = w.
Proof. by destruct w. Qed.

Lemma bind_ok {A B} (c : M A) (k : A -> M B) w a w' :
  c w = Ok a w' -> bind c k w = k a w'.
Proof. intros H. unfold bind. by rewrite H. Qed.

Lemma random2_ok lo hi w :
  random2 lo hi w = Ok (scaled (rng w (drawn w)) lo hi) (set_drawn (S (drawn w)) w).
Proof. unfold random2, scaled. by destruct (Num.gt lo hi). Qed.

Lemma read_array_ok a vs w : arrays w !! a = Some vs -> read_array a w = Ok vs w.
Proof. intros H. unfold read_array. by rewrite H. Qed.

Lemma element_ok a i vs p w :
  arrays w !! a = Some vs -> vs !! i = Some p -> element a i w = Ok p w.
Proof.
  intros Ha Hi. unfold element.
  rewrite (bind_ok _ _ _ _ _ (read_array_ok _ _ _ Ha)). by rewrite Hi.
Qed.

(** ** One deformation *)

Lemma offset_shift w n k :
  offset (set_drawn (drawn w + n) w) k = offset w (n + k).
Proof. unfold offset. simpl. by rewrite Nat.add_assoc. Qed.

Lemma adjacent_pair w k a c rest :
  adjacent w k (a :: c :: rest)
  = new_vertex a c (offset w k) (offset w (S k))
      :: adjacent w (S (S k)) (c :: rest).
Proof. reflexivity. Qed.

Lemma adjacent_shift w n vs : forall k,
  adjacent (set_drawn (drawn w + n) w) k vs = adjacent w (n + k) vs.
Proof.
  induction vs as [|a vs IH]; intros k; [done|].
  destruct vs as [|c rest]; [done|].
  rewrite !adjacent_pair, !offset_shift, IH.
  by rewrite !Nat.add_succ_r.
Qed.

Lemma adjacent_length w vs : forall k, length (adjacent w k vs) = length vs - 1.
Proof.
  induction vs as [|a vs IH]; intros k; [done|].
  destruct vs as [|c rest]; [done|].
  rewrite adjacent_pair. cbn [length]. rewrite IH. cbn [length]. lia.
Qed.

Lemma adjacent_lookup w vs : forall k i a c,
  vs !! i = Some a -> vs !! S i = Some c ->
  adjacent w k vs !! i
  = Some (new_vertex a c (offset w (k + 2 * i)) (offset w (S (k + 2 * i)))).
Proof.
  induction vs as [|a0 vs IH]; intros k i a c Ha Hc; [done|].
  destruct vs as [|c0 rest]; [by destruct i|].
  rewrite adjacent_pair. destruct i as [|i].
  - cbn in Ha, Hc. injection Ha as <-. injection Hc as <-.
    by rewrite Nat.mul_0_r, Nat.add_0_r.
  - change ((a0 :: c0 :: rest) !! S i) with ((c0 :: rest) !! i) in Ha.
    change ((a0 :: c0 :: rest) !! S (S i)) with ((c0 :: rest) !! S i) in Hc.
    change ((?x :: ?l) !! S i) with (l !! i).
    rewrite (IH (S (S k)) i a c Ha Hc).
    by replace (S (S k) + 2 * i) with (k + 2 * S i) by lia.
Qed.

Lemma between_ok b i j vs a c w :
  arrays w !! vertices b = Some vs -> vs !! i = Some a -> vs !! j = Some c ->
  between b i j w
  = Ok (new_vertex a c (offset w 0) (offset w 1)) (set_drawn (drawn w + 2) w).
Proof.
  intros Hv Hi Hj. unfold between.
  rewrite (bind_ok _ _ _ _ _ (element_ok _ _ _ _ _ Hv Hi)).
  rewrite (bind_ok _ _ _ _ _ (element_ok _ _ _ _ _ Hv Hj)).
  unfold bind at 1. cbn [gets].
  unfold bind at 1. rewrite random2_ok.
  unfold bind at 1. rewrite random2_ok.
  unfold ret, new_vertex, offset. cbn.
  rewrite Nat.add_0_r, set_drawn_set_drawn.
  replace (drawn w + 2) with (S (S (drawn w))) by lia.
  by replace (drawn w + 1) with (S (drawn w)) by lia.
Qed.

(** The first loop of [deform], started at the index [length pre]. *)
Lemma first_loop_ok b rest : forall pre w nv,
  arrays w !! vertices b = Some (pre ++ rest) ->
  mfor (seq (length pre) (length rest - 1))
    (fun i b' => let* p := between b' i (i + 1) in
                 ret (set_newVertices (newVertices b' ++ [p]) b'))
    (set_newVertices nv b) w
  = Ok (set_newVertices (nv ++ adjacent w 0 rest) b)
       (set_drawn (drawn w + 2 * (length rest - 1)) w).
Proof.
  induction rest as [|a rest IH]; intros pre w nv Hv.
  { cbn. rewrite app_nil_r, Nat.add_0_r. by rewrite set_drawn_id. }
  destruct rest as [|c rest].
  - cbn. rewrite app_nil_r, Nat.add_0_r. by rewrite set_drawn_id.
  - replace (length (a :: c :: rest) - 1) with (S (length (c :: rest) - 1))
      by (cbn [length]; lia).
    cbn [seq mfor].
    assert (Hb : between (set_newVertices nv b) (length pre) (length pre + 1) w
                 = Ok (new_vertex a c (offset w 0) (offset w 1))
                      (set_drawn (drawn w + 2) w)).
    { apply between_ok with (vs := pre ++ a :: c :: rest); [done|..].
      - by rewrite lookup_app_r, Nat.sub_diag by lia.
      - rewrite lookup_app_r by lia.
        by replace (length pre + 1 - length pre) with 1 by lia. }
    unfold bind at 1. unfold bind at 1. rewrite Hb. unfold ret at 1.
    change (set_newVertices (newVertices (set_newVertices nv b) ++ ?p)
              (set_newVertices nv b))
      with (set_newVertices (nv ++ p) b).
    specialize (IH (pre ++ [a]) (set_drawn (drawn w + 2) w)
                   (nv ++ [new_vertex a c (offset w 0) (offset w 1)])).
    rewrite length_app in IH. change (length [a]) with 1 in IH.
    replace (length pre + 1) with (S (length pre)) in IH by lia.
    rewrite IH.
    + rewrite (adjacent_shift w 2 (c :: rest) 0), adjacent_pair.
      rewrite <- app_assoc. cbn [app].
      rewrite set_drawn_set_drawn. cbn [drawn set_drawn].
      f_equal. f_equal. cbn [length]. lia.
    + cbn [arrays set_drawn]. by rewrite <- app_assoc.
Qed.

Lemma set_arrays_insert_id a vs w :
  arrays w !! a = Some vs -> set_arrays <[a := vs]> w = w.
Proof.
  intros H. destruct w as [m n r d br bc cv]. unfold set_arrays. cbn in *.
  by rewrite (insert_id m a vs H).
Qed.

Lemma set_arrays_insert_insert a vs vs' w :
  set_arrays <[a := vs']> (set_arrays <[a := vs]> w) = set_arrays <[a := vs']> w.
Proof. unfold set_arrays. cbn. by rewrite insert_insert_eq. Qed.

Lemma splice1_ok a q v0 tl w :
  arrays w !! a = Some (v0 :: tl) ->
  splice1 a q w = Ok tt (set_arrays <[a := v0 :: q :: tl]> w).
Proof.
  intros H. unfold splice1.
  by rewrite (bind_ok _ _ _ _ _ (read_array_ok _ _ _ H)).
Qed.

(** The second loop of [deform]: every new vertex goes to index 1. *)
Lemma splice_loop_ok a news : forall w v0 tl,
  arrays w !! a = Some (v0 :: tl) ->
  mfor news (fun q (_ : unit) => splice1 a q) tt w
  = Ok tt (set_arrays <[a := v0 :: rev news ++ tl]> w).
Proof.
  induction news as [|q news IH]; intros w v0 tl H.
  - cbn. unfold ret. by rewrite set_arrays_insert_id.
  - cbn [mfor]. unfold bind. rewrite (splice1_ok _ _ _ _ _ H).
    rewrite (IH _ v0 (q :: tl)).
    + rewrite set_arrays_insert_insert. cbn [rev]. by rewrite <- app_assoc.
    + cbn. by rewrite lookup_insert_eq.
Qed.

Lemma last_lookup_default (l : list point) d :
  l <> [] -> l !! (length l - 1) = Some (List.last l d).
Proof.
  induction l as [|x l IH]; [done|]. intros _.
  destruct l as [|y l]; [done|].
  change (List.last (x :: y :: l) d) with (List.last (y :: l) d).
  rewrite <- IH by done. cbn [length].
  by replace (S (S (length l)) - 1) with (S (S (length l) - 1)) by lia.
Qed.

(** What [deform] does to a brush with at least one vertex. *)
Lemma deform_ok b w vs :
  arrays w !! vertices b = Some vs -> vs <> [] -> newVertices b = [] ->
  deform b w
  = Ok b (set_drawn (drawn w + 2 * length vs)
            (set_arrays <[vertices b := deformed w vs]> w)).
Proof.
  intros Hv Hne Hnv. destruct vs as [|v0 tl]; [done|].
  destruct b as [a nv col]. cbn in Hv, Hnv. subst nv.
  unfold deform. cbn [vertices].
  rewrite (bind_ok _ _ _ _ _ (read_array_ok _ _ _ Hv)).
  pose proof (first_loop_ok (Brush a [] col) (v0 :: tl) [] w [] Hv) as H1.
  change (set_newVertices [] (Brush a [] col)) with (Brush a [] col) in H1.
  change (length (@nil point)) with 0 in H1.
  rewrite (bind_ok _ _ _ _ _ H1). clear H1.
  cbn [app vertices set_newVertices newVertices color].
  set (w1 := set_drawn (drawn w + 2 * (length (v0 :: tl) - 1)) w).
  assert (Hv1 : arrays w1 !! a = Some (v0 :: tl)) by done.
  rewrite (bind_ok _ _ _ _ _ (read_array_ok _ _ _ Hv1)).
  erewrite (bind_ok (between _ _ _)); cycle 1.
  { eapply between_ok; [exact Hv1|done|].
    by apply (last_lookup_default _ v0). }
  cbn [vertices set_newVertices newVertices color].
  set (w2 := set_drawn (drawn w1 + 2) w1).
  assert (Hv2 : arrays w2 !! a = Some (v0 :: tl)) by done.
  erewrite (bind_ok (mfor _ _ _)); cycle 1.
  { by apply splice_loop_ok. }
  unfold ret. f_equal.
  unfold deformed, generated. cbn [take drop app].
  subst w2 w1. rewrite !offset_shift, Nat.add_0_r.
  replace (2 * (length (v0 :: tl) - 1) + 1)
    with (S (2 * (length (v0 :: tl) - 1))) by lia.
  rewrite take_0, drop_0. cbn [app].
  unfold set_arrays, set_drawn. cbn [arrays next_array rng drawn brushRadius
    brushColor canvas length]. f_equal. lia.
Qed.

Lemma generated_length w vs : vs <> [] -> length (generated w vs) = length vs.
Proof.
  destruct vs as [|v0 tl]; [done|]. intros _. unfold generated.
  rewrite length_app, adjacent_length. cbn [length]. lia.
Qed.

Lemma deformed_length w vs : vs <> [] -> length (deformed w vs) = 2 * length vs.
Proof.
  intros H. unfold deformed.
  rewrite !length_app, length_rev, (generated_length _ _ H), length_take, length_drop.
  destruct vs; [done|]. cbn [length]. lia.
Qed.

Lemma deformed_sublist w vs : vs `sublist_of` deformed w vs.
Proof.
  unfold deformed. rewrite <- (take_drop 1 vs) at 1.
  apply sublist_app; [done|]. by apply sublist_inserts_l.
Qed.

Lemma deform_rounds_ok k : forall b w vs,
  arrays w !! vertices b = Some vs -> vs <> [] -> newVertices b = [] ->
  exists w' vs', deform_rounds k b w = Ok b w'
    /\ arrays w' !! vertices b = Some vs'
    /\ length vs' = length vs * 2 ^ k.
Proof.
  induction k as [|k IH]; intros b w vs Hv Hne Hnv.
  - exists w, vs. cbn. split; [done|]. split; [done|]. lia.
  - cbn [deform_rounds]. rewrite (bind_ok _ _ _ _ _ (deform_ok _ _ _ Hv Hne Hnv)).
    edestruct (IH b (set_drawn (drawn w + 2 * length vs)
                   (set_arrays <[vertices b := deformed w vs]> w))
                 (deformed w vs)) as (w' & vs' & Hr & Hv' & Hl); [| |exact Hnv|].
    + cbn. apply lookup_insert_eq.
    + intros E. apply (f_equal length) in E. rewrite deformed_length in E by done.
      destruct vs; [done|]. cbn in E. lia.
    + exists w', vs'. rewrite Hr. split; [done|]. split; [done|].
      rewrite Hl, deformed_length by done. cbn [Nat.pow]. lia.
Qed.

(** C1. Vertex growth law: on a brush whose vertex array holds [n >= 1]
    vertices, one [deform()] returns, adds exactly [n] vertices and removes
    none (the old sequence is a subsequence of the new one), and [k] rounds
    of [deform()] leave exactly [n * 2^k] vertices. *)
Theorem vertex_growth_law (b : brush) (w : world) (vs : list point) (k : nat) :
  arrays w !! vertices b = Some vs ->
  newVertices b = [] ->
  1 <= length vs ->
  (exists w1 vs1, deform b w = Ok b w1
     /\ arrays w1 !! vertices b = Some vs1
     /\ length vs1 = length vs + length vs
     /\ vs `sublist_of` vs1)
  /\ (exists w', deform_rounds k b w = Ok b w'
        /\ vertex_count w' b = Some (length vs * 2 ^ k)).
Proof.
  intros Hv Hnv Hn.
  assert (Hne : vs <> []) by (destruct vs; [cbn in Hn; lia|done]).
  split.
  - eexists _, (deformed w vs). split; [by apply deform_ok|].
    split; [cbn; apply lookup_insert_eq|].
    split; [rewrite deformed_length by done; lia|apply deformed_sublist].
  - destruct (deform_rounds_ok k b w vs Hv Hne Hnv) as (w' & vs' & Hr & Hv' & Hl).
    exists w'. split; [done|]. unfold vertex_count. by rewrite Hv', <- Hl.
Qed.

Lemma generated_lookup_adjacent w vs i a c :
  vs !! i = Some a -> vs !! S i = Some c ->
  generated w vs !! i
  = Some (new_vertex a c (offset w (2 * i)) (offset w (S (2 * i)))).
Proof.
  intros Ha Hc. destruct vs as [|v0 tl]; [done|]. unfold generated.
  rewrite lookup_app_l.
  - by rewrite (adjacent_lookup w _ 0 i a c Ha Hc).
  - rewrite adjacent_length. apply lookup_lt_Some in Hc. lia.
Qed.

Lemma generated_lookup_wrap w v0 tl :
  generated w (v0 :: tl) !! length tl
  = Some (new_vertex v0 (List.last (v0 :: tl) v0)
            (offset w (2 * length tl)) (offset w (S (2 * length tl)))).
Proof.
  unfold generated. rewrite lookup_app_r; rewrite adjacent_length; cbn [length].
  - replace (length tl - (S (length tl) - 1)) with 0 by lia.
    by replace (S (length tl) - 1) with (length tl) by lia.
  - lia.
Qed.

(** C2. Insertion policy: the [n] new vertices are generated for the pairs
    [(v_0,v_1)] to [(v_{n-2},v_{n-1})] and then for [v_0] with [v_{n-1}], each
    the midpoint plus the next two perturbations, and each is spliced in at
    index 1, so that the array becomes [v_0], the new vertices in reverse
    order of generation, [v_1 .. v_{n-1}]; a single vertex [p] yields
    [[p; q]], where [q] is the midpoint of [p] with itself plus the
    perturbation, which is [p] plus the perturbation for coordinates that
    are finite numbers below [2^1023] in magnitude. *)
Theorem insertion_policy (b : brush) (w : world) (v0 : point) (tl : list point) :
  arrays w !! vertices b = Some (v0 :: tl) ->
  newVertices b = [] ->
  exists news w',
    deform b w = Ok b w'
    /\ length news = S (length tl)
    /\ (forall i a c, (v0 :: tl) !! i = Some a -> (v0 :: tl) !! S i = Some c ->
          news !! i
          = Some (new_vertex a c (offset w (2 * i)) (offset w (S (2 * i)))))
    /\ news !! length tl
       = Some (new_vertex v0 (List.last (v0 :: tl) v0)
                 (offset w (2 * length tl)) (offset w (S (2 * length tl))))
    /\ arrays w' !! vertices b = Some (v0 :: rev news ++ tl)
    /\ (tl = [] ->
        arrays w' !! vertices b
        = Some [v0; new_vertex v0 v0 (offset w 0) (offset w 1)]
        /\ (modest (px v0) = true -> modest (py v0) = true ->
            arrays w' !! vertices b
            = Some [v0; Point (px v0 + offset w 0) (py v0 + offset w 1)])).
Proof.
  intros Hv Hnv.
  exists (generated w (v0 :: tl)), (set_drawn (drawn w + 2 * length (v0 :: tl))
            (set_arrays <[vertices b := deformed w (v0 :: tl)]> w)).
  split; [by apply deform_ok|].
  split; [by rewrite generated_length|].
  split; [intros i a c; apply generated_lookup_adjacent|].
  split; [apply generated_lookup_wrap|].
  split; [cbn; by rewrite lookup_insert_eq|].
  intros ->. cbn [arrays set_drawn set_arrays]. rewrite lookup_insert_eq.
  split; [done|]. intros Hx Hy. by rewrite <- (new_vertex_same v0).
Qed.
Lemma vertex_growth_law_witness :
  (exists w1 vs1, deform tip studio = Ok tip w1
     /\ arrays w1 !! vertices tip = Some vs1
     /\ length vs1 = length [anchor] + length [anchor]
     /\ [anchor] `sublist_of` vs1)
  /\ (exists w', deform_rounds 3 tip studio = Ok tip w'
        /\ vertex_count w' tip = Some (length [anchor] * 2 ^ 3)).
Proof.
  apply (vertex_growth_law tip studio [anchor] 3); [reflexivity|reflexivity|simpl; lia].
Defined.

Lemma insertion_policy_witness :
  exists news w',
    deform tip studio = Ok tip w'
    /\ length news = 1
    /\ (forall i a c, [anchor] !! i = Some a -> [anchor] !! S i = Some c ->
          news !! i
          = Some (new_vertex a c (offset studio (2 * i)) (offset studio (S (2 * i)))))
    /\ news !! 0
       = Some (new_vertex anchor anchor (offset studio 0) (offset studio 1))
    /\ arrays w' !! 0 = Some (anchor :: rev news ++ [])
    /\ (@nil point = [] ->
        arrays w' !! 0
        = Some [anchor; new_vertex anchor anchor (offset studio 0) (offset studio 1)]
        /\ (modest 100 = true -> modest 100 = true ->
            arrays w' !! 0
            = Some [anchor; Point (100 + offset studio 0) (100 + offset studio 1)])).
Proof. exact (insertion_policy tip studio anchor [] eq_refl eq_refl). Defined.

(** The deterministic scenario of the specification: radius 32, one vertex
    at (100, 100), whatever the generator gives. *)
Lemma single_anchor_round (w : world) (b : brush) :
  arrays w !! vertices b = Some [anchor] -> newVertices b = [] ->
  exists w', deform b w = Ok b w'
    /\ arrays w' !! vertices b
       = Some [anchor; Point (100 + offset w 0) (100 + offset w 1)].
Proof.
  intros Hv Hnv. eexists. split; [by apply (deform_ok b w [anchor])|].
  cbn [arrays set_drawn set_arrays]. by rewrite lookup_insert_eq.
Qed.

(** ** The constructor of a brush *)

Lemma brush_new_ok sk v w :
  brush_new sk v w
  = Ok (Brush v [] (Colour (brushColor w) (alpha_of sk w))) (after_brush sk w).
Proof. by destruct sk. Qed.

Lemma after_brush_arrays sk w : arrays (after_brush sk w) = arrays w.
Proof. by destruct sk. Qed.

Lemma after_brush_next sk w : next_array (after_brush sk w) = next_array w.
Proof. by destruct sk. Qed.

(** C3, as the code has it: the constructor of a brush stores the caller's
    array itself, without copying it, so [deform()] on the layer splices
    into the caller's array, which then holds the deformed sequence of twice
    the length. *)
Theorem constructor_stores_reference (sk : sketch) (v : nat) (w : world)
    (vs : list point) :
  arrays w !! v = Some vs ->
  vs <> [] ->
  exists b w1,
    brush_new sk v w = Ok b w1
    /\ vertices b = v
    /\ arrays w1 = arrays w
    /\ next_array w1 = next_array w
    /\ exists w2, deform b w1 = Ok b w2
         /\ arrays w2 !! v = Some (deformed w1 vs)
         /\ length (deformed w1 vs) = 2 * length vs.
Proof.
  intros Hv Hne. eexists _, _. split; [apply brush_new_ok|].
  split; [done|]. split; [apply after_brush_arrays|].
  split; [apply after_brush_next|].
  eexists. split.
  - apply deform_ok; [|done..]. by rewrite after_brush_arrays.
  - split; [cbn; by rewrite lookup_insert_eq|by apply deformed_length].
Qed.

Lemma constructor_stores_reference_witness :
  exists b w1,
    brush_new Fixed25 0 studio = Ok b w1
    /\ vertices b = 0
    /\ arrays w1 = arrays studio
    /\ next_array w1 = next_array studio
    /\ exists w2, deform b w1 = Ok b w2
         /\ arrays w2 !! 0 = Some (deformed w1 [anchor])
         /\ length (deformed w1 [anchor]) = 2 * length [anchor].
Proof.
  apply (constructor_stores_reference Fixed25 0 studio [anchor]);
    [reflexivity|discriminate].
Defined.

(** C3, as the specification words it, fails: the caller's array [[anchor]]
    is handed to the constructor, the layer is deformed once, and the
    caller's array has two vertices. *)
Lemma caller_list_changes :
  ~ (forall (v : nat) (w : world) (vs : list point) b w1 b' w2,
       arrays w !! v = Some vs ->
       brush_new Fixed25 v w = Ok b w1 ->
       deform b w1 = Ok b' w2 ->
       arrays w2 !! v = Some vs).
Proof.
  intros H.
  specialize (H 0 studio [anchor] tip studio tip
    (set_drawn 2 (set_arrays <[0 := [anchor; Point 76 76]]> studio))
    eq_refl eq_refl).
  assert (E : deform tip studio
              = Ok tip (set_drawn 2 (set_arrays <[0 := [anchor; Point 76 76]]> studio))).
  { rewrite (deform_ok tip studio [anchor]) by done. reflexivity. }
  specialize (H E). vm_compute in H. discriminate H.
Qed.

(** ** Loops bounded by a number *)

Lemma for_lt_trips {St} bound n (body : nat -> St -> M St) :
  trips bound n ->
  forall k i fuel s w, i + k = n -> k < fuel ->
    for_lt fuel i bound body s w = mfor (seq i k) body s w.
Proof.
  intros [Hlt Hstop]. induction k as [|k IH]; intros i fuel s w Hi Hf.
  - destruct fuel as [|fuel]; [lia|]. cbn [for_lt seq mfor].
    replace i with n by lia. by rewrite Hstop.
  - destruct fuel as [|fuel]; [lia|]. cbn [for_lt seq mfor].
    rewrite Hlt by lia. unfold bind.
    destruct (body i s w) as [s' w'| |]; [|done..].
    apply IH; lia.
Qed.

(** ** The constructor of a bundle *)

Lemma push_ok a v acc w :
  arrays w !! a = Some acc ->
  push a v w = Ok tt (set_arrays <[a := acc ++ [v]]> w).
Proof.
  intros H. unfold push.
  by rewrite (bind_ok _ _ _ _ _ (read_array_ok _ _ _ H)).
Qed.

Lemma push_loop_ok a src : forall acc w,
  arrays w !! a = Some acc ->
  mfor src (fun v (_ : unit) => push a v) tt w
  = Ok tt (set_arrays <[a := acc ++ src]> w).
Proof.
  induction src as [|v src IH]; intros acc w H.
  - cbn. unfold ret. by rewrite app_nil_r, set_arrays_insert_id.
  - cbn [mfor]. unfold bind. rewrite (push_ok _ _ _ _ H).
    rewrite (IH (acc ++ [v])).
    + by rewrite set_arrays_insert_insert, <- app_assoc.
    + cbn. by rewrite lookup_insert_eq.
Qed.

Lemma add_layer_ok sk proto s w vs :
  allocated w ->
  arrays w !! vertices proto = Some vs ->
  add_layer sk proto s w
  = Ok (set_layers (layers s ++ [layer_at sk w]) s) (layer_added sk vs w).
Proof.
  intros Hal Hv. unfold add_layer.
  unfold bind at 1. cbn [new_array].
  set (w1 := set_next_array _ _).
  assert (Hlt : vertices proto < next_array w) by (by eapply Hal).
  assert (Hv1 : arrays w1 !! vertices proto = Some vs).
  { subst w1. cbn. rewrite lookup_insert_ne by lia. done. }
  rewrite (bind_ok _ _ _ _ _ (read_array_ok _ _ _ Hv1)).
  erewrite (bind_ok (mfor _ _ _)); cycle 1.
  { apply (push_loop_ok _ _ []). subst w1. cbn. by rewrite lookup_insert_eq. }
  rewrite (bind_ok _ _ _ _ _ (brush_new_ok _ _ _)).
  unfold ret, layer_at, layer_added. cbn [app].
  subst w1.
  replace (set_arrays _ (set_next_array _ (set_arrays _ w)))
    with (set_next_array (S (next_array w)) (set_arrays <[next_array w := vs]> w)).
  - by destruct sk.
  - unfold set_next_array, set_arrays. cbn. by rewrite insert_insert_eq.
Qed.

Lemma layer_added_allocated sk vs w : allocated w -> allocated (layer_added sk vs w).
Proof.
  intros Hal a l. unfold layer_added.
  rewrite after_brush_arrays, after_brush_next. cbn.
  destruct (decide (a = next_array w)) as [->|Hne]; [lia|].
  rewrite lookup_insert_ne by done. intros H. apply Hal in H. lia.
Qed.

Lemma layer_added_old sk vs w a :
  a < next_array w -> arrays (layer_added sk vs w) !! a = arrays w !! a.
Proof.
  intros H. unfold layer_added. rewrite after_brush_arrays. cbn.
  by rewrite lookup_insert_ne by lia.
Qed.

Lemma layer_added_new sk vs w :
  arrays (layer_added sk vs w) !! next_array w = Some vs.
Proof.
  unfold layer_added. rewrite after_brush_arrays. cbn.
  by rewrite lookup_insert_eq.
Qed.

Lemma seeded_step sk proto vs s w :
  allocated w ->
  arrays w !! vertices proto = Some vs ->
  seeded w proto vs s ->
  seeded (layer_added sk vs w) proto vs (set_layers (layers s ++ [layer_at sk w]) s).
Proof.
  intros Hal Hv [Hc Hn Ha Hd].
  assert (Hold : forall b, b ∈ layers s -> vertices b < next_array w).
  { intros b Hb. eapply Hal. by apply Hc. }
  split; cbn [layers set_layers].
  - intros b [Hb|Hb]%elem_of_app.
    + rewrite layer_added_old by auto. auto.
    + apply list_elem_of_singleton in Hb as ->. apply layer_added_new.
  - intros b [Hb|Hb]%elem_of_app; [auto|].
    by apply list_elem_of_singleton in Hb as ->.
  - intros b [Hb|Hb]%elem_of_app; [auto|].
    apply list_elem_of_singleton in Hb as ->. cbn.
    apply Hal in Hv. lia.
  - rewrite fmap_app. apply NoDup_app. split; [done|]. split.
    + intros a Ha1 Ha2. cbn in Ha2. apply list_elem_of_singleton in Ha2 as ->.
      apply list_elem_of_fmap in Ha1 as (b & E & Hb). apply Hold in Hb. lia.
    + cbn. apply NoDup_singleton.
Qed.

(** The constructor's loop, as many turns as [k] says. *)
Lemma layers_loop_ok sk proto vs : forall k i s w,
  allocated w ->
  arrays w !! vertices proto = Some vs ->
  seeded w proto vs s ->
  exists s' w',
    mfor (seq i k) (fun _ s0 => add_layer sk proto s0) s w = Ok s' w'
    /\ total s' = total s
    /\ length (layers s') = length (layers s) + k
    /\ allocated w'
    /\ arrays w' !! vertices proto = Some vs
    /\ seeded w' proto vs s'
    /\ canvas w' = canvas w
    /\ brushRadius w' = brushRadius w.
Proof.
  induction k as [|k IH]; intros i s w Hal Hv Hs.
  - exists s, w. cbn. rewrite Nat.add_0_r. by repeat (split; [done|]).
  - cbn [seq mfor]. rewrite (bind_ok _ _ _ _ _ (add_layer_ok sk _ s _ _ Hal Hv)).
    destruct (IH (S i) (set_layers (layers s ++ [layer_at sk w]) s)
                (layer_added sk vs w)) as (s' & w' & Hr & Ht & Hl & Hal' & Hv' & Hs' & Hc & Hb).
    + by apply layer_added_allocated.
    + rewrite layer_added_old; [done|]. by eapply Hal.
    + by apply seeded_step.
    + exists s', w'. rewrite Hr. split; [done|]. split; [done|].
      split; [rewrite Hl; cbn; rewrite length_app; cbn; lia|].
      do 3 (split; [done|]).
      split; [rewrite Hc|rewrite Hb]; by destruct sk.
Qed.

Lemma draw_total_ok sk w :
  draw_total sk w = Ok (total_of sk w) (after_total sk w).
Proof. destruct sk; [done|apply random2_ok..]. Qed.

Lemma after_total_arrays sk w : arrays (after_total sk w) = arrays w.
Proof. by destruct sk. Qed.

Lemma after_total_allocated sk w : allocated w -> allocated (after_total sk w).
Proof. by destruct sk. Qed.

Lemma seeded_empty w proto vs t : seeded w proto vs (Strokes t []).
Proof.
  split; cbn; try (intros b Hb; by apply elem_of_nil in Hb). apply NoDup_nil_2.
Qed.

(** What the constructor of a bundle returns when the loop over [total]
    makes [n] turns. *)
Lemma strokes_new_ok sk fuel proto w vs n :
  allocated w ->
  arrays w !! vertices proto = Some vs ->
  trips (total_of sk w) n ->
  n < fuel ->
  exists s w',
    strokes_new sk fuel proto w = Ok s w'
    /\ total s = total_of sk w
    /\ length (layers s) = n
    /\ allocated w'
    /\ arrays w' !! vertices proto = Some vs
    /\ seeded w' proto vs s
    /\ canvas w' = canvas w
    /\ brushRadius w' = brushRadius w.
Proof.
  intros Hal Hv Ht Hf. unfold strokes_new.
  rewrite (bind_ok _ _ _ _ _ (draw_total_ok sk w)).
  rewrite (for_lt_trips _ n _ Ht n 0) by lia.
  destruct (layers_loop_ok sk proto vs n 0 (Strokes (total_of sk w) [])
              (after_total sk w))
    as (s & w' & Hr & Htot & Hlen & Hal' & Hv' & Hs & Hc & Hb).
  - by apply after_total_allocated.
  - by rewrite after_total_arrays.
  - apply seeded_empty.
  - exists s, w'. do 5 (split; [done|]).
    split; [done|]. split; [rewrite Hc|rewrite Hb]; by destruct sk.
Qed.

Lemma distinct_layers (s : strokes) i j bi bj :
  NoDup (vertices <$> layers s) ->
  layers s !! i = Some bi -> layers s !! j = Some bj -> i <> j ->
  vertices bi <> vertices bj.
Proof.
  intros Hd Hi Hj Hne E. apply Hne.
  eapply NoDup_lookup; [exact Hd| |].
  - rewrite list_lookup_fmap, Hi. reflexivity.
  - rewrite list_lookup_fmap, Hj. cbn. by rewrite E.
Qed.

(** C4. Layer independence: the constructor of a bundle gives every layer an
    array of its own (different from the prototype's and from every other
    layer's) holding the vertices of the prototype, so that all layers start
    with equal vertex sequences; and, in any later world, [deform()] on one
    layer returns and leaves the vertex array of every other layer as it
    was. *)
Theorem layer_independence (sk : sketch) (fuel : nat) (proto : brush)
    (w : world) (vs : list point) (n : nat) :
  allocated w ->
  arrays w !! vertices proto = Some vs ->
  trips (total_of sk w) n ->
  n < fuel ->
  exists s w',
    strokes_new sk fuel proto w = Ok s w'
    /\ length (layers s) = n
    /\ (forall b, b ∈ layers s ->
          arrays w' !! vertices b = Some vs /\ vertices b <> vertices proto)
    /\ NoDup (vertices <$> layers s)
    /\ (forall i j bi bj w2 vs2,
          layers s !! i = Some bi -> layers s !! j = Some bj -> i <> j ->
          arrays w2 !! vertices bi = Some vs2 -> vs2 <> [] ->
          exists w3, deform bi w2 = Ok bi w3
            /\ arrays w3 !! vertices bj = arrays w2 !! vertices bj).
Proof.
  intros Hal Hv Ht Hf.
  destruct (strokes_new_ok sk fuel proto w vs n Hal Hv Ht Hf)
    as (s & w' & Hr & _ & Hlen & _ & _ & [Hc Hn Ha Hd] & _).
  exists s, w'. do 2 (split; [done|]).
  split; [intros b Hb; split; auto|]. split; [done|].
  intros i j bi bj w2 vs2 Hi Hj Hne Hv2 Hne2.
  eexists. split.
  - apply deform_ok; [exact Hv2|done|]. apply Hn. by eapply list_elem_of_lookup_2.
  - cbn. rewrite lookup_insert_ne; [done|]. by eapply distinct_layers.
Qed.

(** ** The deformation of a bundle *)

Lemma set_layers_id s : set_layers (layers s) s = s.
Proof. by destruct s. Qed.

Lemma vertex_count_Some w b m :
  vertex_count w b = Some m ->
  exists vs, arrays w !! vertices b = Some vs /\ length vs = m.
Proof.
  unfold vertex_count. destruct (arrays w !! vertices b) as [vs|]; [|done].
  cbn. intros [= <-]. by exists vs.
Qed.

Lemma deform_layer_ok i s w b m :
  layers s !! i = Some b -> newVertices b = [] ->
  vertex_count w b = Some m -> 1 <= m ->
  exists w', deform_layer i s w = Ok s w'
    /\ vertex_count w' b = Some (2 * m)
    /\ (forall b', vertices b' <> vertices b ->
          vertex_count w' b' = vertex_count w b')
    /\ rng w' = rng w.
Proof.
  intros Hi Hnv Hc Hm.
  destruct (vertex_count_Some _ _ _ Hc) as (vs & Hv & Hl).
  assert (Hne : vs <> []) by (destruct vs; [cbn in Hl; lia|done]).
  eexists. unfold deform_layer. rewrite Hi.
  rewrite (bind_ok _ _ _ _ _ (deform_ok _ _ _ Hv Hne Hnv)).
  rewrite (list_insert_id _ _ _ Hi), set_layers_id.
  split; [done|]. unfold vertex_count. cbn [arrays set_drawn set_arrays rng].
  split; [|split; [|done]].
  - rewrite lookup_insert_eq. cbn. by rewrite deformed_length, Hl.
  - intros b' Hb'. by rewrite lookup_insert_ne.
Qed.

(** One pass over the layers [i .. i + k - 1]. *)
Lemma pass_from_ok s m :
  NoDup (vertices <$> layers s) ->
  (forall b, b ∈ layers s -> newVertices b = []) ->
  1 <= m ->
  forall k i w,
    i + k = length (layers s) ->
    (forall j b, layers s !! j = Some b -> j < i -> vertex_count w b = Some (2 * m)) ->
    (forall j b, layers s !! j = Some b -> i <= j -> vertex_count w b = Some m) ->
    exists w', mfor (seq i k) deform_layer s w = Ok s w'
      /\ (forall b, b ∈ layers s -> vertex_count w' b = Some (2 * m))
      /\ rng w' = rng w.
Proof.
  intros Hd Hn Hm. induction k as [|k IH]; intros i w Hik Hlo Hhi.
  - exists w. split; [done|]. split; [|done].
    intros b (j & Hj)%list_elem_of_lookup_1. eapply Hlo; [done|].
    apply lookup_lt_Some in Hj. lia.
  - destruct (lookup_lt_is_Some_2 (layers s) i) as [b Hb]; [lia|].
    destruct (deform_layer_ok i s w b m Hb) as (w1 & Hr & Hc & Hfr & Hrng);
      [by eapply Hn, list_elem_of_lookup_2|by eapply Hhi|done|].
    cbn [seq mfor]. rewrite (bind_ok _ _ _ _ _ Hr).
    destruct (IH (S i) w1) as (w' & Hr' & Hall & Hrng'); [lia| | |].
    + intros j b' Hj Hlt. destruct (decide (j = i)) as [->|Hne].
      * rewrite Hb in Hj. by injection Hj as <-.
      * rewrite Hfr; [eapply Hlo; [done|lia]|].
        by eapply (distinct_layers s j i).
    + intros j b' Hj Hle. rewrite Hfr; [eapply Hhi; [done|lia]|].
      eapply (distinct_layers s j i); [done..|lia].
    + exists w'. split; [done|]. split; [done|]. by rewrite Hrng'.
Qed.

Lemma deform_pass_ok fuel s w m :
  uniform w s m -> 1 <= m -> length (layers s) < fuel ->
  exists w', deform_pass fuel s w = Ok s w'
    /\ uniform w' s (2 * m) /\ rng w' = rng w.
Proof.
  intros [Ht Hd Hn Hc] Hm Hf. unfold deform_pass.
  rewrite (for_lt_trips _ _ _ Ht (length (layers s)) 0) by lia.
  destruct (pass_from_ok s m Hd Hn Hm (length (layers s)) 0 w)
    as (w' & Hr & Hall & Hrng); [lia| | |].
  - intros j b _ Hj. lia.
  - intros j b Hj _. by eapply Hc, list_elem_of_lookup_2.
  - exists w'. split; [done|]. split; [by split|done].
Qed.

(** Passes in a row. *)
Lemma passes_ok fuel s : forall n i w m,
  uniform w s m -> 1 <= m -> length (layers s) < fuel ->
  exists w', mfor (seq i n) (fun _ s' => deform_pass fuel s') s w = Ok s w'
    /\ uniform w' s (m * 2 ^ n) /\ rng w' = rng w.
Proof.
  induction n as [|n IH]; intros i w m Hu Hm Hf.
  - exists w. cbn. rewrite Nat.mul_1_r. by split.
  - destruct (deform_pass_ok fuel s w m Hu Hm Hf) as (w1 & Hr & Hu1 & Hrng).
    cbn [seq mfor]. rewrite (bind_ok _ _ _ _ _ Hr).
    destruct (IH (S i) w1 (2 * m) Hu1) as (w' & Hr' & Hu' & Hrng'); [lia|done|].
    exists w'. split; [done|]. split; [|by rewrite Hrng'].
    replace (m * 2 ^ S n) with (2 * m * 2 ^ n) by (cbn [Nat.pow]; lia). done.
Qed.

Lemma for_down_countdown {St} (body : St -> M St) : forall n i fuel r s w,
  countdown r n = true -> n < fuel ->
  for_down fuel r body s w = mfor (seq i n) (fun _ s' => body s') s w.
Proof.
  induction n as [|n IH]; intros i fuel r s w Hc Hf;
    (destruct fuel as [|fuel]; [lia|]); cbn [for_down seq mfor]; cbn [countdown] in Hc.
  - by destruct (Num.gt r 0).
  - destruct (Num.gt r 0); [|done]. unfold bind.
    destruct (body s w) as [s' w'| |]; [|done..].
    apply IH; [done|lia].
Qed.

(** One call of the bundle's [deform()]. *)
Lemma strokes_deform_ok sk fuel s w m :
  uniform w s m -> 1 <= m -> length (layers s) < fuel -> steady sk fuel w ->
  exists w' n, strokes_deform sk fuel s w = Ok s w'
    /\ uniform w' s (m * 2 ^ n) /\ rng w' = rng w
    /\ (sk <> Drawn8_32 -> n = 1).
Proof.
  intros Hu Hm Hf Hs.
  assert (Hone : exists w', deform_pass fuel s w = Ok s w'
            /\ uniform w' s (m * 2 ^ 1) /\ rng w' = rng w).
  { destruct (deform_pass_ok fuel s w m Hu Hm Hf) as (w' & Hr & Hu' & Hrng).
    exists w'. split; [done|]. split; [|done].
    by replace (m * 2 ^ 1) with (2 * m) by (cbn; lia). }
  destruct sk; cbn [strokes_deform].
  - destruct Hone as (w' & ?). exists w', 1. by intuition.
  - destruct Hone as (w' & ?). exists w', 1. by intuition.
  - destruct (Hs eq_refl (drawn w)) as (n & Hn & Hc).
    unfold bind. cbn [random1].
    rewrite (for_down_countdown _ n 0) by done.
    destruct (passes_ok fuel s n 0 (set_drawn (S (drawn w)) w) m)
      as (w' & Hr & Hu' & Hrng); [by destruct Hu|done..|].
    exists w', n. by intuition.
Qed.

(** C5. Equal-rounds contract: on a bundle whose layers all have [m >= 1]
    vertices, any number [k] of calls of the bundle's [deform()] returns and
    leaves every layer with [m * 2^n] vertices for one and the same [n], the
    number of rounds every layer received ([n = k] in the sketches that make
    one pass per call); the call that draws its number of passes draws it
    once and makes that many passes over all the layers. *)
Theorem equal_rounds (sk : sketch) (fuel : nat) (s : strokes) (w : world)
    (m k : nat) :
  uniform w s m ->
  1 <= m ->
  length (layers s) < fuel ->
  steady sk fuel w ->
  exists w' n,
    deform_calls sk fuel k s w = Ok s w'
    /\ uniform w' s (m * 2 ^ n)
    /\ (forall b, b ∈ layers s -> vertex_count w' b = Some (m * 2 ^ n))
    /\ (sk <> Drawn8_32 -> n = k).
Proof.
  intros Hu Hm Hf Hs. unfold deform_calls.
  assert (H : forall k i w m, uniform w s m -> 1 <= m -> steady sk fuel w ->
            exists w' n,
              mfor (seq i k) (fun _ s' => strokes_deform sk fuel s') s w = Ok s w'
              /\ uniform w' s (m * 2 ^ n)
              /\ (sk <> Drawn8_32 -> n = k)).
  { clear w m k Hu Hm Hs.
    induction k as [|k IH]; intros i w m Hu Hm Hs.
    - exists w, 0. cbn. rewrite Nat.mul_1_r. by split.
    - destruct (strokes_deform_ok sk fuel s w m Hu Hm Hf Hs)
        as (w1 & n1 & Hr & Hu1 & Hrng & Hn1).
      cbn [seq mfor]. rewrite (bind_ok _ _ _ _ _ Hr).
      destruct (IH (S i) w1 (m * 2 ^ n1) Hu1) as (w' & n & Hr' & Hu' & Hn).
      + assert (0 < 2 ^ n1) by (apply Nat.neq_0_lt_0, Nat.pow_nonzero; lia). nia.
      + intros E d. rewrite Hrng. by apply Hs.
      + exists w', (n1 + n). split; [done|]. split.
        * by rewrite Nat.pow_add_r, Nat.mul_assoc.
        * intros Hsk. rewrite (Hn1 Hsk), (Hn Hsk). lia. }
  destruct (H k 0 w m Hu Hm Hs) as (w' & n & Hr & Hu' & Hn).
  exists w', n. split; [done|]. split; [done|]. split; [|done].
  by destruct Hu'.
Qed.

(** ** What a bundle keeps for its lifetime *)

Lemma for_lt_invariant {St} (P : St -> Prop) bound (body : nat -> St -> M St) :
  (forall i s w s' w', P s -> body i s w = Ok s' w' -> P s') ->
  forall fuel i s w s' w',
    P s -> for_lt fuel i bound body s w = Ok s' w' -> P s'.
Proof.
  intros Hbody. induction fuel as [|fuel IH]; intros i s w s' w' Hs Hr; [done|].
  cbn [for_lt] in Hr. destruct (PrimFloat.ltb (Num.of_nat i) bound).
  - unfold bind in Hr. destruct (body i s w) as [s1 w1| |] eqn:E; [|done..].
    eapply IH; [|exact Hr]. by eapply Hbody.
  - by injection Hr as <- _.
Qed.

Lemma for_down_invariant {St} (P : St -> Prop) (body : St -> M St) :
  (forall s w s' w', P s -> body s w = Ok s' w' -> P s') ->
  forall fuel r s w s' w',
    P s -> for_down fuel r body s w = Ok s' w' -> P s'.
Proof.
  intros Hbody. induction fuel as [|fuel IH]; intros r s w s' w' Hs Hr; [done|].
  cbn [for_down] in Hr. destruct (Num.gt r 0).
  - unfold bind in Hr. destruct (body s w) as [s1 w1| |] eqn:E; [|done..].
    eapply IH; [|exact Hr]. by eapply Hbody.
  - by injection Hr as <- _.
Qed.

Lemma deform_layer_shaped t n i s w s' w' :
  shaped t n s -> deform_layer i s w = Ok s' w' -> shaped t n s'.
Proof.
  intros [Ht Hn] Hr. unfold deform_layer in Hr.
  destruct (layers s !! i) as [b|]; [|done].
  unfold bind in Hr. destruct (deform b w) as [b' w1| |]; [|done..].
  injection Hr as <- _. split; [done|]. cbn. by rewrite length_insert.
Qed.

Lemma deform_pass_shaped t n fuel s w s' w' :
  shaped t n s -> deform_pass fuel s w = Ok s' w' -> shaped t n s'.
Proof.
  unfold deform_pass. apply for_lt_invariant.
  intros i s0 w0 s1 w1. apply deform_layer_shaped.
Qed.

Lemma strokes_deform_shaped sk t n fuel s w s' w' :
  shaped t n s -> strokes_deform sk fuel s w = Ok s' w' -> shaped t n s'.
Proof.
  intros Hs. destruct sk; cbn [strokes_deform]; try apply deform_pass_shaped; try done.
  unfold bind. cbn [random1]. apply for_down_invariant; [|done].
  intros s0 w0 s1 w1. apply deform_pass_shaped.
Qed.

(** ** The number of layers *)

Lemma total_in_range (sk : sketch) (w : world) :
  unit_interval (rng w (drawn w)) ->
  Num.le (Num.of_nat (fst (layer_range sk))) (total_of sk w) = true
  /\ Num.le (total_of sk w) (Num.of_nat (snd (layer_range sk))) = true.
Proof.
  intros Hu. destruct sk; cbn [total_of layer_range fst snd]; unfold Num.le.
  - by split.
  - change (Num.of_nat 10) with 10%float. change (Num.of_nat 30) with 30%float.
    change (scaled (rng w (drawn w)) 10 30)
      with (rng w (drawn w) * 20 + 10)%float.
    eapply (scaled_between _ 20 10 30);
      [reflexivity|reflexivity|reflexivity|done|done|done| |exact Hu].
    by vm_compute.
  - change (Num.of_nat 8) with 8%float. change (Num.of_nat 32) with 32%float.
    change (scaled (rng w (drawn w)) 8 32)
      with (rng w (drawn w) * 24 + 8)%float.
    eapply (scaled_between _ 24 8 32);
      [reflexivity|reflexivity|reflexivity|done|done|done| |exact Hu].
    by vm_compute.
Qed.

(** C6, as the code has it: the constructor stores in [this.total] the number
    it draws (25 in src/sketch.js), which need not be an integer.  Whatever
    number from 0 up to, but not including, 1 the generator gives,
    [random(lo, hi)] computed in binary64 lies in the configured range
    [[lo, hi]], and the constructor builds [n] layers for the one [n] with
    [n - 1 < total <= n], so that [lo <= n <= hi]; no call of the bundle's
    [deform()] changes [total] or the number of layers. *)
Theorem layer_count_bounds (sk : sketch) (fuel : nat) (proto : brush)
    (w : world) (vs : list point) :
  allocated w ->
  arrays w !! vertices proto = Some vs ->
  unit_interval (rng w (drawn w)) ->
  snd (layer_range sk) < fuel ->
  exists s w',
    strokes_new sk fuel proto w = Ok s w'
    /\ total s = total_of sk w
    /\ Num.le (Num.of_nat (fst (layer_range sk))) (total s) = true
    /\ Num.le (total s) (Num.of_nat (snd (layer_range sk))) = true
    /\ fst (layer_range sk) <= length (layers s) <= snd (layer_range sk)
    /\ trips (total s) (length (layers s))
    /\ (forall fuel' w1 s1 w2,
          strokes_deform sk fuel' s w1 = Ok s1 w2 ->
          total s1 = total s /\ length (layers s1) = length (layers s)).
Proof.
  intros Hal Hv Hu Hf.
  destruct (total_in_range sk w Hu) as [Hlo Hhi].
  destruct (trips_in_range sk _ Hlo Hhi) as (n & Hn & Ht).
  destruct (strokes_new_ok sk fuel proto w vs n Hal Hv Ht)
    as (s & w' & Hr & Htot & Hlen & _); [lia|].
  exists s, w'. split; [done|]. split; [done|].
  split; [by rewrite Htot|]. split; [by rewrite Htot|].
  split; [by rewrite Hlen|]. split; [by rewrite Htot, Hlen|].
  intros fuel' w1 s1 w2. by apply strokes_deform_shaped.
Qed.

Lemma studio_allocated : allocated studio.
Proof.
  intros a vs H. destruct (decide (a = 0)) as [->|Hne]; [cbn; lia|].
  unfold studio in H. cbn in H. by rewrite lookup_singleton_ne in H.
Qed.

Lemma layer_count_bounds_witness :
  exists s w',
    strokes_new Drawn10_30 31 tip studio = Ok s w'
    /\ total s = total_of Drawn10_30 studio
    /\ Num.le (Num.of_nat 10) (total s) = true
    /\ Num.le (total s) (Num.of_nat 30) = true
    /\ 10 <= length (layers s) <= 30
    /\ trips (total s) (length (layers s))
    /\ (forall fuel' w1 s1 w2,
          strokes_deform Drawn10_30 fuel' s w1 = Ok s1 w2 ->
          total s1 = total s /\ length (layers s1) = length (layers s)).
Proof.
  apply (layer_count_bounds Drawn10_30 31 tip studio [anchor]);
    [apply studio_allocated|reflexivity|split; reflexivity|simpl; lia].
Defined.

(** C6, as the specification words it, fails: with the generator giving
    0.125, [random(10, 30)] is 12.5, which is stored in [this.total] and is
    not an integer, and the constructor builds 13 layers. *)
Lemma total_need_not_be_integer :
  exists s w',
    strokes_new Drawn10_30 31 tip studio = Ok s w'
    /\ total s = 12.5%float
    /\ PrimFloat.eqb (round (total s)) (total s) = false
    /\ length (layers s) = 13
    /\ PrimFloat.eqb (Num.of_nat (length (layers s))) (total s) = false.
Proof.
  eexists _, _. split; [vm_compute; reflexivity|]. by vm_compute.
Qed.

(** ** The pitch detector *)

Lemma sum_squares_zeros (n : nat) :
  Pitch.sum_squares (repeat 0%float n) = 0%float.
Proof.
  unfold Pitch.sum_squares. induction n as [|n IH]; [done|].
  cbn [repeat fold_left]. exact IH.
Qed.

Lemma rms_zeros (n : nat) :
  1 <= n -> (Z.of_nat n < 2 ^ 53)%Z ->
  PrimFloat.ltb (Pitch.rms (repeat 0%float n)) 0.01 = true.
Proof.
  intros Hn Hb. unfold Pitch.rms.
  by rewrite sum_squares_zeros, repeat_length, zero_div_of_nat.
Qed.

(** C9. Pitch detector silence: a buffer whose RMS amplitude is below 0.01
    makes [acf2plus] return [false], whatever follows the test; an all-zero
    buffer of any length [n >= 1] has RMS amplitude 0, below the threshold,
    and so returns [false]. *)
Theorem pitch_detector_silence (sampleRate : float) (buffer : list float)
    (n : nat) :
  1 <= n ->
  (Z.of_nat n < 2 ^ 53)%Z ->
  (PrimFloat.ltb (Pitch.rms buffer) 0.01 = true ->
   Pitch.acf2plus sampleRate buffer = Pitch.NoSignal)
  /\ Pitch.rms (repeat 0%float n) = 0%float
  /\ Pitch.acf2plus sampleRate (repeat 0%float n) = Pitch.NoSignal.
Proof.
  intros Hn Hb. split; [|split].
  - intros H. unfold Pitch.acf2plus. by rewrite H.
  - unfold Pitch.rms.
    by rewrite sum_squares_zeros, repeat_length, zero_div_of_nat.
  - unfold Pitch.acf2plus. by rewrite rms_zeros.
Qed.

Lemma pitch_detector_silence_witness :
  (PrimFloat.ltb (Pitch.rms faint) 0.01 = true ->
   Pitch.acf2plus 44100 faint = Pitch.NoSignal)
  /\ Pitch.rms (repeat 0%float 2048) = 0%float
  /\ Pitch.acf2plus 44100 (repeat 0%float 2048) = Pitch.NoSignal.
Proof.
  apply (pitch_detector_silence 44100 faint 2048); [lia|reflexivity].
Defined.

(** *** Trimming *)

Lemma trim_loop_edges (buffer : list float) : forall idx e,
  Pitch.r1 (Pitch.trim_loop buffer idx e)
  = (if Pitch.r1Found e then Pitch.r1 e
     else match find (Pitch.quiet buffer) idx with
          | Some i => i
          | None => Pitch.r1 e
          end)
  /\ Pitch.r2 (Pitch.trim_loop buffer idx e)
     = (if Pitch.r2Found e then Pitch.r2 e
        else match find (fun i => Pitch.quiet buffer (length buffer - i)) idx with
             | Some i => length buffer - i
             | None => Pitch.r2 e
             end).
Proof.
  induction idx as [|i idx IH]; intros [a fa c fc].
  - cbn. by destruct fa, fc.
  - cbn [Pitch.trim_loop find]. unfold Pitch.trim_step.
    cbn [Pitch.r1 Pitch.r1Found Pitch.r2 Pitch.r2Found].
    destruct fa, fc, (Pitch.quiet buffer i),
      (Pitch.quiet buffer (length buffer - i));
      cbn [negb andb Pitch.r1 Pitch.r1Found Pitch.r2 Pitch.r2Found];
      try done;
      match goal with
      | |- context [Pitch.trim_loop buffer idx ?e] =>
          destruct (IH e) as [-> ->]; done
      end.
Qed.

Lemma quiet_past_end (buffer : list float) :
  Pitch.quiet buffer (length buffer) = false.
Proof.
  unfold Pitch.quiet. by rewrite lookup_ge_None_2 by lia.
Qed.




(** *** The peak at the first or the last lag *)

Lemma add_nan_l (x : float) : (PrimFloat.nan + x)%float = PrimFloat.nan.
Proof. apply Prim2SF_inj. rewrite add_spec. reflexivity. Qed.

Lemma add_nan_r (x : float) : (x + PrimFloat.nan)%float = PrimFloat.nan.
Proof.
  apply Prim2SF_inj. rewrite add_spec.
  change (Prim2SF PrimFloat.nan) with S754_nan. by destruct (Prim2SF x).
Qed.

Lemma sub_nan_l (x : float) : (PrimFloat.nan - x)%float = PrimFloat.nan.
Proof. apply Prim2SF_inj. rewrite sub_spec. reflexivity. Qed.

Lemma div_nan_l (x : float) : (PrimFloat.nan / x)%float = PrimFloat.nan.
Proof. apply Prim2SF_inj. rewrite div_spec. reflexivity. Qed.

(** With a neighbour of the peak missing the interpolation leaves the lag as
    it is. *)
Lemma interpolate_missing (c : list float) (maxPos : Z) :
  Pitch.at_index c (maxPos - 1) = None \/ Pitch.at_index c (maxPos + 1) = None ->
  Pitch.interpolate c maxPos = Pitch.of_lag maxPos.
Proof.
  intros H. unfold Pitch.interpolate, Pitch.neighbours.
  assert (E : (Pitch.number (Pitch.at_index c (maxPos - 1))
               + Pitch.number (Pitch.at_index c (maxPos + 1)))%float
              = PrimFloat.nan).
  { destruct H as [-> | ->]; cbn [Pitch.number];
      [apply add_nan_l|apply add_nan_r]. }
  by rewrite E, sub_nan_l, div_nan_l.
Qed.

Lemma at_index_before (c : list float) (i : Z) :
  (i < 0)%Z -> Pitch.at_index c i = None.
Proof.
  intros H. unfold Pitch.at_index.
  by replace (i <? 0)%Z with true by (symmetry; apply Z.ltb_lt; lia).
Qed.

Lemma at_index_after (c : list float) (i : Z) :
  (Z.of_nat (length c) <= i)%Z -> Pitch.at_index c i = None.
Proof.
  intros H. unfold Pitch.at_index. destruct (i <? 0)%Z; [done|].
  apply lookup_ge_None_2. lia.
Qed.

(** C7, as the code has it: the detector does not guard the peak.  When the
    peak is at the first lag, the element before it is read and is undefined;
    when it is at the last lag, the element after it is read and is
    undefined; either way the interpolation is skipped and the detector
    returns the number [round(sampleRate / maxPos)] for the lag of the peak,
    not [false]. *)
Theorem degenerate_peak (sampleRate : float) (buffer : list float) :
  let c := Pitch.autocorrelation (Pitch.trimmed buffer) in
  PrimFloat.ltb (Pitch.rms buffer) 0.01 = false ->
  (peak_lag buffer <= 0)%Z \/ (Z.of_nat (length c) <= peak_lag buffer + 1)%Z ->
  ((peak_lag buffer <= 0)%Z ->
   fst (fst (Pitch.neighbours c (peak_lag buffer))) = None)
  /\ ((Z.of_nat (length c) <= peak_lag buffer + 1)%Z ->
      snd (Pitch.neighbours c (peak_lag buffer)) = None)
  /\ Pitch.acf2plus sampleRate buffer
     = Pitch.Frequency (round (sampleRate / Pitch.of_lag (peak_lag buffer))).
Proof.
  intros c Hloud Hedge.
  assert (H1 : (peak_lag buffer <= 0)%Z ->
               Pitch.at_index c (peak_lag buffer - 1) = None)
    by (intros; apply at_index_before; lia).
  assert (H3 : (Z.of_nat (length c) <= peak_lag buffer + 1)%Z ->
               Pitch.at_index c (peak_lag buffer + 1) = None)
    by (intros; by apply at_index_after).
  split; [exact H1|]. split; [exact H3|].
  unfold Pitch.acf2plus, Pitch.detect. rewrite Hloud.
  fold c. unfold peak_lag in *. fold c in Hedge, H1, H3 |- *.
  destruct (Pitch.max_peak c (Pitch.first_dip c) (length (Pitch.trimmed buffer)))
    as [maxVal maxPos]. cbn [snd] in *.
  rewrite interpolate_missing; [done|]. destruct Hedge; auto.
Qed.

Lemma degenerate_peak_witness :
  let c := Pitch.autocorrelation (Pitch.trimmed loud) in
  ((peak_lag loud <= 0)%Z ->
   fst (fst (Pitch.neighbours c (peak_lag loud))) = None)
  /\ ((Z.of_nat (length c) <= peak_lag loud + 1)%Z ->
      snd (Pitch.neighbours c (peak_lag loud)) = None)
  /\ Pitch.acf2plus 44100 loud
     = Pitch.Frequency (round (44100 / Pitch.of_lag (peak_lag loud))).
Proof.
  apply (degenerate_peak 44100 loud); [reflexivity|right; vm_compute; discriminate].
Defined.

(** C7, as the specification words it, fails: for four samples of full
    amplitude the peak is at the last lag, 2 of [0 .. 2]; the element after
    it is read out of bounds and the detector returns the number 22050.  For
    two such samples the peak is at the only lag, 0, both neighbours are
    missing and the detector returns infinity. *)
Lemma unguarded_peak :
  let c := Pitch.autocorrelation (Pitch.trimmed loud) in
  c = [3; 2; 1]%float
  /\ peak_lag loud = 2%Z
  /\ Pitch.neighbours c (peak_lag loud) = (Some 2%float, Some 1%float, None)
  /\ Pitch.acf2plus 44100 loud = Pitch.Frequency 22050
  /\ Pitch.acf2plus 44100 loud <> Pitch.NoSignal
  /\ peak_lag [1; 1]%float = 0%Z
  /\ Pitch.neighbours (Pitch.autocorrelation (Pitch.trimmed [1; 1]%float)) 0
     = (None, Some 1%float, None)
  /\ Pitch.acf2plus 44100 [1; 1]%float = Pitch.Frequency infinity.
Proof. by vm_compute. Qed.

(** ** The frame loop *)

Lemma pick_colour_ok (u : Frame.ui) (w : world) :
  exists w', Frame.pick_colour u w = Ok tt w'
    /\ canvas w' = canvas w /\ arrays w' = arrays w.
Proof.
  unfold Frame.pick_colour. generalize (seq 0 (length (Frame.colors u))).
  intros idx. revert w. induction idx as [|i idx IH]; intros w.
  - by exists w.
  - cbn [mfor]. unfold bind.
    destruct (Frame.over_swatch u i); [destruct (Frame.colors u !! i)|];
      cbn [modify ret];
      match goal with
      | |- context [mfor idx _ tt ?w1] =>
          destruct (IH w1) as (w' & Hr & Hc & Ha); exists w'; by rewrite Hr
      end.
Qed.

(** A frame with no pose and a saved position that is not strictly positive
    in both coordinates paints nothing and keeps the position. *)
Lemma draw_without_paint (fuel : nat) (u : Frame.ui) (w : world) :
  Frame.poses u = [] ->
  Num.gt (px (Frame.lastMouse u)) 0 && Num.gt (py (Frame.lastMouse u)) 0 = false ->
  exists w', Frame.draw fuel u w = Ok u w'
    /\ canvas w' = canvas w /\ arrays w' = arrays w.
Proof.
  intros Hp Hm. destruct (pick_colour_ok u w) as (w' & Hr & Hc & Ha).
  exists w'. unfold Frame.draw. rewrite (bind_ok _ _ _ _ _ Hr), Hp, Hm. done.
Qed.

Lemma frames_without_paint (fuel : nat) (u : Frame.ui) :
  Frame.poses u = [] ->
  Num.gt (px (Frame.lastMouse u)) 0 && Num.gt (py (Frame.lastMouse u)) 0 = false ->
  forall n w, exists w', Frame.frames fuel n u w = Ok u w'
    /\ canvas w' = canvas w /\ arrays w' = arrays w.
Proof.
  intros Hp Hm. induction n as [|n IH]; intros w.
  - by exists w.
  - destruct (draw_without_paint fuel u w Hp Hm) as (w1 & Hr & Hc & Ha).
    destruct (IH w1) as (w' & Hr' & Hc' & Ha').
    exists w'. cbn [Frame.frames]. rewrite (bind_ok _ _ _ _ _ Hr), Hr'.
    split; [done|]. split; congruence.
Qed.

(** A saved position that is not strictly positive in both coordinates has
    no effect on a frame, with or without poses: the frame does what it does
    when nothing is saved, and keeps the position. *)
Lemma draw_ignores_edge (fuel : nat) (u : Frame.ui) (w : world) :
  Num.gt (px (Frame.lastMouse u)) 0 && Num.gt (py (Frame.lastMouse u)) 0 = false ->
  Frame.draw fuel u w
  = restore (Frame.lastMouse u)
      (Frame.draw fuel (Frame.set_lastMouse (Point 0 0) u) w).
Proof.
  intros Hm. destruct u as [mx my pr iw ih sp cs po lm ll lr].
  cbn [Frame.lastMouse] in *.
  set (u := Frame.Ui mx my pr iw ih sp cs po lm ll lr).
  unfold Frame.draw.
  change (Frame.pick_colour (Frame.set_lastMouse (Point 0 0) u))
    with (Frame.pick_colour u).
  unfold bind. destruct (Frame.pick_colour u w) as [[] w1| |]; [|done..].
  subst u. unfold Frame.set_lastMouse.
  cbn [Frame.lastLeft Frame.lastRight Frame.mouseX Frame.mouseY
       Frame.mouseIsPressed Frame.innerWidth Frame.innerHeight Frame.spacing
       Frame.colors Frame.poses Frame.lastMouse].
  destruct po as [|p ps].
  - rewrite Hm. reflexivity.
  - unfold Frame.follow, bind, Frame.set_lastLeft, Frame.set_lastRight.
    cbn [Frame.lastLeft Frame.lastRight Frame.mouseX Frame.mouseY
         Frame.mouseIsPressed Frame.innerWidth Frame.innerHeight Frame.spacing
         Frame.colors Frame.poses Frame.lastMouse].
    generalize (paint Fixed25 fuel). intros P.
    repeat first
      [ progress cbn [ret restore Frame.lastLeft Frame.lastRight Frame.mouseX
          Frame.mouseY Frame.mouseIsPressed Frame.innerWidth Frame.innerHeight
          Frame.spacing Frame.colors Frame.poses Frame.lastMouse
          Frame.set_lastMouse]
      | match goal with
        | |- context [if ?b then _ else _] => destruct b
        | |- context [P ?v ?w0] => destruct (P v w0) as [[] ?| |]
        end ];
      reflexivity.
Qed.

Lemma edge_not_positive (x y : float) :
  x = 0%float \/ y = 0%float -> Num.gt x 0 && Num.gt y 0 = false.
Proof.
  intros [-> | ->]; [reflexivity|].
  change (Num.gt 0 0) with false. apply andb_false_r.
Qed.

(** C10. The mouse on the left or top edge: a click (or a drag with the
    button down) at an in-bounds position with [x = 0] or [y = 0] is saved in
    [lastMouse]; with no pose detected, any number of frames after it return,
    leave the canvas as it was and keep the saved position; with or without
    poses a frame does exactly what it does when nothing is saved.  In
    general a frame with no pose paints from the saved position only when
    both saved coordinates are strictly positive. *)
Theorem edge_click_never_paints (fuel n : nat) (u : Frame.ui) (w : world) :
  Num.le (Frame.mouseX u) (Frame.innerWidth u) = true ->
  Num.le (Frame.mouseY u) (Frame.innerHeight u - Frame.spacing u) = true ->
  Frame.mouseX u = 0%float \/ Frame.mouseY u = 0%float ->
  let u1 := Frame.mouseClicked u in
  Frame.lastMouse u1 = Point (Frame.mouseX u) (Frame.mouseY u)
  /\ (Frame.mouseIsPressed u = true -> Frame.mouseDragged u = u1)
  /\ (Frame.poses u = [] ->
      exists w', Frame.frames fuel n u1 w = Ok u1 w' /\ canvas w' = canvas w)
  /\ Frame.draw fuel u1 w
     = restore (Frame.lastMouse u1)
         (Frame.draw fuel (Frame.set_lastMouse (Point 0 0) u1) w)
  /\ (forall v w0,
        Frame.poses v = [] ->
        Num.gt (px (Frame.lastMouse v)) 0 && Num.gt (py (Frame.lastMouse v)) 0
        = false ->
        exists w', Frame.draw fuel v w0 = Ok v w' /\ canvas w' = canvas w0).
Proof.
  intros Hx Hy Hedge u1.
  assert (Hu1 : u1 = Frame.set_lastMouse (Point (Frame.mouseX u) (Frame.mouseY u)) u).
  { subst u1. unfold Frame.mouseClicked, Frame.saveMouse. by rewrite Hx, Hy. }
  assert (Hm : Num.gt (px (Frame.lastMouse u1)) 0
               && Num.gt (py (Frame.lastMouse u1)) 0 = false).
  { rewrite Hu1. cbn. by apply edge_not_positive. }
  split; [by rewrite Hu1|]. split.
  { intros Hp. unfold Frame.mouseDragged. by rewrite Hp. }
  split.
  { intros Hp.
    destruct (frames_without_paint fuel u1) with (n := n) (w := w)
      as (w' & Hr & Hc & _); [by rewrite Hu1|done|].
    by exists w'. }
  split; [by apply draw_ignores_edge|].
  intros v w0 Hp Hv.
  destruct (draw_without_paint fuel v w0 Hp Hv) as (w' & Hr & Hc & _).
  by exists w'.
Qed.

Lemma edge_click_never_paints_witness :
  let u1 := Frame.mouseClicked top_edge in
  Frame.lastMouse u1 = Point 120 0
  /\ (true = true -> Frame.mouseDragged top_edge = u1)
  /\ (@nil Frame.pose = [] ->
      exists w', Frame.frames 26 3 u1 studio = Ok u1 w' /\ canvas w' = canvas studio)
  /\ Frame.draw 26 u1 studio
     = restore (Frame.lastMouse u1)
         (Frame.draw 26 (Frame.set_lastMouse (Point 0 0) u1) studio)
  /\ (forall v w0,
        Frame.poses v = [] ->
        Num.gt (px (Frame.lastMouse v)) 0 && Num.gt (py (Frame.lastMouse v)) 0
        = false ->
        exists w', Frame.draw 26 v w0 = Ok v w' /\ canvas w' = canvas w0).
Proof.
  apply (edge_click_never_paints 26 3 top_edge studio);
    [reflexivity|reflexivity|right; reflexivity].
Defined.

(** ** Concrete loop counts *)

Lemma trips_check (t : float) (n : nat) :
  forallb (fun i => PrimFloat.ltb (Num.of_nat i) t) (seq 0 n) = true ->
  PrimFloat.ltb (Num.of_nat n) t = false ->
  trips t n.
Proof.
  intros H Hstop. split; [|done]. intros i Hi.
  rewrite forallb_forall in H. apply H, in_seq. lia.
Qed.

Lemma studio_trips : trips (total_of Drawn10_30 studio) 13.
Proof. by apply trips_check. Qed.

Lemma layer_independence_witness :
  exists s w',
    strokes_new Drawn10_30 31 tip studio = Ok s w'
    /\ length (layers s) = 13
    /\ (forall b, b ∈ layers s ->
          arrays w' !! vertices b = Some [anchor] /\ vertices b <> vertices tip)
    /\ NoDup (vertices <$> layers s)
    /\ (forall i j bi bj w2 vs2,
          layers s !! i = Some bi -> layers s !! j = Some bj -> i <> j ->
          arrays w2 !! vertices bi = Some vs2 -> vs2 <> [] ->
          exists w3, deform bi w2 = Ok bi w3
            /\ arrays w3 !! vertices bj = arrays w2 !! vertices bj).
Proof.
  apply (layer_independence Drawn10_30 31 tip studio [anchor] 13);
    [apply studio_allocated|reflexivity|apply studio_trips|lia].
Defined.

Lemma gallery_uniform : uniform gallery pair_of_layers 1.
Proof.
  split.
  - by apply trips_check.
  - cbn. apply NoDup_cons. split; [|apply NoDup_singleton].
    by intros H%list_elem_of_singleton.
  - intros b Hb. cbn in Hb.
    apply elem_of_cons in Hb as [->|Hb]; [done|].
    by apply list_elem_of_singleton in Hb as ->.
  - intros b Hb. cbn in Hb.
    apply elem_of_cons in Hb as [->|Hb]; [done|].
    apply list_elem_of_singleton in Hb as ->. done.
Qed.

Lemma gallery_steady : steady Drawn8_32 3 gallery.
Proof. intros _ d. exists 1. split; [lia|reflexivity]. Qed.

Lemma equal_rounds_witness :
  exists w' n,
    deform_calls Drawn8_32 3 2 pair_of_layers gallery = Ok pair_of_layers w'
    /\ uniform w' pair_of_layers (1 * 2 ^ n)
    /\ (forall b, b ∈ layers pair_of_layers ->
          vertex_count w' b = Some (1 * 2 ^ n))
    /\ (Drawn8_32 <> Drawn8_32 -> n = 2).
Proof.
  apply (equal_rounds Drawn8_32 3 pair_of_layers gallery 1 2);
    [apply gallery_uniform|lia|simpl; lia|apply gallery_steady].
Defined.

(** * Beyond the claims *)

(** ** Deformation, for any property of the polygons *)

Lemma quiet_refl w : quiet w w.
Proof. by repeat split. Qed.

Lemma quiet_trans w1 w2 w3 : quiet w1 w2 -> quiet w2 w3 -> quiet w1 w3.
Proof.
  intros (H1 & H2 & H3 & H4 & H5) (G1 & G2 & G3 & G4 & G5).
  repeat split; congruence.
Qed.

Lemma deformed_anchored w v m vs :
  anchored_at v m vs -> 1 <= m -> anchored_at v (2 * m) (deformed w vs).
Proof.
  intros [Hh Hl] Hm. destruct vs as [|v0 tl]; [cbn in Hl; lia|].
  cbn in Hh. injection Hh as ->. split; [done|].
  rewrite deformed_length by done. by rewrite Hl.
Qed.

(** One layer deformed: its polygon moves from [P] to [Q], nothing else
    changes. *)
Lemma deform_layer_step (P Q : list point -> Prop) i s w b :
  (forall w0 vs, P vs -> vs <> [] /\ Q (deformed w0 vs)) ->
  layers s !! i = Some b -> newVertices b = [] -> holds w b P ->
  exists w', deform_layer i s w = Ok s w'
    /\ holds w' b Q
    /\ quiet w w'
    /\ (forall a, a <> vertices b -> arrays w' !! a = arrays w !! a)
    /\ (allocated w -> allocated w').
Proof.
  intros HPQ Hi Hnv (vs & Hv & HP). destruct (HPQ w vs HP) as [Hne HQ].
  eexists. unfold deform_layer. rewrite Hi.
  rewrite (bind_ok _ _ _ _ _ (deform_ok _ _ _ Hv Hne Hnv)).
  rewrite (list_insert_id _ _ _ Hi), set_layers_id.
  split; [done|].
  split; [exists (deformed w vs); cbn; by rewrite lookup_insert_eq|].
  split; [by repeat split|]. split.
  - intros a Ha. cbn. by rewrite lookup_insert_ne.
  - intros Hal a l. cbn.
    destruct (decide (a = vertices b)) as [->|Hne'].
    + intros _. by eapply Hal.
    + rewrite lookup_insert_ne by done. apply Hal.
Qed.

(** One pass over the layers [i .. i + k - 1]. *)
Lemma pass_over (P Q : list point -> Prop) s :
  (forall w0 vs, P vs -> vs <> [] /\ Q (deformed w0 vs)) ->
  NoDup (vertices <$> layers s) ->
  (forall b, b ∈ layers s -> newVertices b = []) ->
  forall k i w,
    i + k = length (layers s) ->
    (forall j b, layers s !! j = Some b -> j < i -> holds w b Q) ->
    (forall j b, layers s !! j = Some b -> i <= j -> holds w b P) ->
    exists w', mfor (seq i k) deform_layer s w = Ok s w'
      /\ (forall b, b ∈ layers s -> holds w' b Q)
      /\ quiet w w'
      /\ (forall a, a ∉ vertices <$> layers s -> arrays w' !! a = arrays w !! a)
      /\ (allocated w -> allocated w').
Proof.
  intros HPQ Hd Hn. induction k as [|k IH]; intros i w Hik Hlo Hhi.
  - exists w. split; [done|]. split; [|split; [apply quiet_refl|by split]].
    intros b (j & Hj)%list_elem_of_lookup_1. eapply Hlo; [done|].
    apply lookup_lt_Some in Hj. lia.
  - destruct (lookup_lt_is_Some_2 (layers s) i) as [b Hb]; [lia|].
    destruct (deform_layer_step P Q i s w b HPQ Hb)
      as (w1 & Hr & Hq & Hquiet & Hfr & Hal);
      [by eapply Hn, list_elem_of_lookup_2|by eapply Hhi|].
    cbn [seq mfor]. rewrite (bind_ok _ _ _ _ _ Hr).
    assert (Hkeep : forall j b' (R : list point -> Prop),
              layers s !! j = Some b' -> j <> i -> holds w b' R -> holds w1 b' R).
    { intros j b' R Hj Hne (vs & Hv & HR). exists vs. split; [|done].
      rewrite Hfr; [done|]. by eapply (distinct_layers s j i). }
    destruct (IH (S i) w1) as (w' & Hr' & Hall & Hquiet' & Hfr' & Hal'); [lia| | |].
    + intros j b' Hj Hlt. destruct (decide (j = i)) as [->|Hne].
      * rewrite Hb in Hj. by injection Hj as <-.
      * eapply Hkeep; [done..|]. eapply Hlo; [done|lia].
    + intros j b' Hj Hle. eapply Hkeep; [done|lia|]. eapply Hhi; [done|lia].
    + exists w'. split; [done|]. split; [done|].
      split; [by eapply quiet_trans|]. split; [|by auto].
      intros a Ha. rewrite Hfr' by done. apply Hfr.
      intros ->. apply Ha, list_elem_of_fmap. exists b. split; [done|].
      by eapply list_elem_of_lookup_2.
Qed.

Lemma others_kept_trans s w1 w2 w3 :
  others_kept s w1 w2 -> others_kept s w2 w3 -> others_kept s w1 w3.
Proof. intros H1 H2 a Ha. by rewrite H2, H1. Qed.

Lemma deform_pass_over (P Q : list point -> Prop) fuel s w :
  (forall w0 vs, P vs -> vs <> [] /\ Q (deformed w0 vs)) ->
  bundle w s P -> length (layers s) < fuel ->
  exists w', deform_pass fuel s w = Ok s w'
    /\ bundle w' s Q /\ quiet w w' /\ others_kept s w w'
    /\ (allocated w -> allocated w').
Proof.
  intros HPQ [Ht Hd Hn Hh] Hf. unfold deform_pass.
  rewrite (for_lt_trips _ _ _ Ht (length (layers s)) 0) by lia.
  destruct (pass_over P Q s HPQ Hd Hn (length (layers s)) 0 w)
    as (w' & Hr & Hall & Hq & Hfr & Hal); [lia| | |].
  - intros j b _ Hj. lia.
  - intros j b Hj _. by eapply Hh, list_elem_of_lookup_2.
  - exists w'. split; [done|]. by split.
Qed.

(** Passes in a row on polygons that start at [v]. *)
Lemma passes_anchored fuel s v : forall n i w m,
  bundle w s (anchored_at v m) -> 1 <= m -> length (layers s) < fuel ->
  exists w', mfor (seq i n) (fun _ s' => deform_pass fuel s') s w = Ok s w'
    /\ bundle w' s (anchored_at v (m * 2 ^ n)) /\ quiet w w'
    /\ others_kept s w w' /\ (allocated w -> allocated w').
Proof.
  induction n as [|n IH]; intros i w m Hb Hm Hf.
  - exists w. cbn. rewrite Nat.mul_1_r.
    split; [done|]. split; [done|]. split; [apply quiet_refl|by split].
  - destruct (deform_pass_over (anchored_at v m) (anchored_at v (2 * m)) fuel s w)
      as (w1 & Hr & Hb1 & Hq1 & Hk1 & Hal1); [|done..|].
    { intros w0 vs HP. split; [|by apply deformed_anchored].
      destruct HP as [_ Hl]. destruct vs; [cbn in Hl; lia|done]. }
    cbn [seq mfor]. rewrite (bind_ok _ _ _ _ _ Hr).
    destruct (IH (S i) w1 (2 * m) Hb1) as (w' & Hr' & Hb' & Hq' & Hk' & Hal');
      [lia|done|].
    exists w'. split; [done|].
    replace (m * 2 ^ S n) with (2 * m * 2 ^ n) by (cbn [Nat.pow]; lia).
    split; [done|]. split; [by eapply quiet_trans|].
    split; [by eapply others_kept_trans|by auto].
Qed.

Lemma quiet_set_drawn n w : quiet w (set_drawn n w).
Proof. by repeat split. Qed.

Lemma bundle_set_drawn n w s P : bundle w s P -> bundle (set_drawn n w) s P.
Proof. by intros []. Qed.

Lemma steady_quiet sk fuel w w' : quiet w w' -> steady sk fuel w -> steady sk fuel w'.
Proof. intros (_ & Hr & _) Hs E d. rewrite Hr. by apply Hs. Qed.

(** One call of the bundle's [deform()] on polygons that start at [v]. *)
Lemma strokes_deform_anchored sk fuel s w v m :
  bundle w s (anchored_at v m) -> 1 <= m -> length (layers s) < fuel ->
  steady sk fuel w ->
  exists w' n, strokes_deform sk fuel s w = Ok s w'
    /\ bundle w' s (anchored_at v (m * 2 ^ n)) /\ quiet w w'
    /\ others_kept s w w' /\ (allocated w -> allocated w')
    /\ (sk <> Drawn8_32 -> n = 1).
Proof.
  intros Hb Hm Hf Hs.
  assert (Hone : exists w', deform_pass fuel s w = Ok s w'
            /\ bundle w' s (anchored_at v (m * 2 ^ 1)) /\ quiet w w'
            /\ others_kept s w w' /\ (allocated w -> allocated w')).
  { destruct (passes_anchored fuel s v 1 0 w m Hb Hm Hf) as (w' & Hr & H).
    exists w'. split; [|done]. cbn [seq mfor] in Hr. unfold bind in Hr.
    destruct (deform_pass fuel s w) as [s1 w1| |]; [|done..].
    cbn in Hr. by injection Hr as -> ->. }
  destruct sk; cbn [strokes_deform].
  - destruct Hone as (w' & ?). exists w', 1. by intuition.
  - destruct Hone as (w' & ?). exists w', 1. by intuition.
  - destruct (Hs eq_refl (drawn w)) as (n & Hn & Hc).
    unfold bind. cbn [random1].
    rewrite (for_down_countdown _ n 0) by done.
    destruct (passes_anchored fuel s v n 0 (set_drawn (S (drawn w)) w) m)
      as (w' & Hr & Hb' & Hq & Hk & Hal);
      [by apply bundle_set_drawn|done..|].
    exists w', n. split; [done|]. split; [done|].
    split; [eapply quiet_trans; [apply quiet_set_drawn|done]|].
    split; [done|]. split; [exact Hal|done].
Qed.

(** Calls in a row, as [paint] makes them. *)
Lemma deform_calls_from sk fuel s v : forall k i w m,
  bundle w s (anchored_at v m) -> 1 <= m -> length (layers s) < fuel ->
  steady sk fuel w ->
  exists w' n,
    mfor (seq i k) (fun _ s' => strokes_deform sk fuel s') s w = Ok s w'
    /\ bundle w' s (anchored_at v (m * 2 ^ n)) /\ quiet w w'
    /\ others_kept s w w' /\ (allocated w -> allocated w')
    /\ (sk <> Drawn8_32 -> n = k).
Proof.
  induction k as [|k IH]; intros i w m Hb Hm Hf Hs.
  - exists w, 0. cbn. rewrite Nat.mul_1_r.
    split; [done|]. split; [done|]. split; [apply quiet_refl|by split].
  - destruct (strokes_deform_anchored sk fuel s w v m Hb Hm Hf Hs)
      as (w1 & n1 & Hr & Hb1 & Hq1 & Hk1 & Hal1 & Hn1).
    cbn [seq mfor]. rewrite (bind_ok _ _ _ _ _ Hr).
    destruct (IH (S i) w1 (m * 2 ^ n1) Hb1)
      as (w' & n & Hr' & Hb' & Hq' & Hk' & Hal' & Hn).
    + assert (0 < 2 ^ n1) by (apply Nat.neq_0_lt_0, Nat.pow_nonzero; lia). nia.
    + done.
    + by eapply steady_quiet.
    + exists w', (n1 + n). split; [done|].
      rewrite Nat.pow_add_r, Nat.mul_assoc. split; [done|].
      split; [by eapply quiet_trans|]. split; [by eapply others_kept_trans|].
      split; [by auto|]. intros Hsk. rewrite (Hn1 Hsk), (Hn Hsk). lia.
Qed.

Lemma deform_calls_anchored sk fuel s v k w m :
  bundle w s (anchored_at v m) -> 1 <= m -> length (layers s) < fuel ->
  steady sk fuel w ->
  exists w' n, deform_calls sk fuel k s w = Ok s w'
    /\ bundle w' s (anchored_at v (m * 2 ^ n)) /\ quiet w w'
    /\ others_kept s w w' /\ (allocated w -> allocated w')
    /\ (sk <> Drawn8_32 -> n = k).
Proof. apply deform_calls_from. Qed.

(** ** Construction, once more: colours and the arrays that existed *)

Lemma calm_refl w : calm w w.
Proof. by repeat split. Qed.

Lemma calm_trans w1 w2 w3 : calm w1 w2 -> calm w2 w3 -> calm w1 w3.
Proof.
  intros (H1 & H2 & H3 & H4 & H5 & H6) (G1 & G2 & G3 & G4 & G5 & G6).
  split; [congruence|]. split; [congruence|]. split; [congruence|].
  split; [lia|]. split; [|by etrans].
  intros a Ha. rewrite G5 by lia. by apply H5.
Qed.

Lemma calm_layer_added sk vs w : calm w (layer_added sk vs w).
Proof.
  unfold layer_added.
  split; [by destruct sk|]. split; [by destruct sk|]. split; [by destruct sk|].
  split; [rewrite after_brush_next; cbn; lia|].
  split; [|by destruct sk]. intros a Ha. by apply layer_added_old.
Qed.

Lemma layers_loop_calm sk proto vs : forall k i s w s' w',
  allocated w ->
  arrays w !! vertices proto = Some vs ->
  mfor (seq i k) (fun _ s0 => add_layer sk proto s0) s w = Ok s' w' ->
  calm w w'
  /\ (forall b, b ∈ layers s' ->
        b ∈ layers s
        \/ (layer_colour sk (brushColor w) (color b)
            /\ next_array w <= vertices b)).
Proof.
  induction k as [|k IH]; intros i s w s' w' Hal Hv Hr.
  - cbn in Hr. injection Hr as <- <-. split; [apply calm_refl|by left].
  - cbn [seq mfor] in Hr.
    rewrite (bind_ok _ _ _ _ _ (add_layer_ok sk _ s _ _ Hal Hv)) in Hr.
    apply IH in Hr as [Hc Hb].
    + split; [eapply calm_trans; [apply calm_layer_added|done]|].
      intros b Hin. destruct (Hb b Hin) as [Hold|[Hcol Hge]].
      * cbn in Hold. apply elem_of_app in Hold as [Hold|Hnew]; [by left|].
        apply list_elem_of_singleton in Hnew as ->. right.
        split; [|done]. split; [done|]. by destruct sk.
      * right. destruct Hcol as [Hp Ha]. split.
        -- split; [|done]. rewrite Hp. by destruct sk.
        -- unfold layer_added in Hge. rewrite after_brush_next in Hge.
           cbn in Hge. lia.
    + by apply layer_added_allocated.
    + rewrite layer_added_old; [done|]. by eapply Hal.
Qed.

Lemma calm_after_total sk w : calm w (after_total sk w).
Proof. by destruct sk. Qed.

(** The constructor of a bundle, with the colours of the layers and what it
    leaves alone. *)
Lemma strokes_new_calm sk fuel proto w vs n :
  allocated w ->
  arrays w !! vertices proto = Some vs ->
  trips (total_of sk w) n ->
  n < fuel ->
  exists s w',
    strokes_new sk fuel proto w = Ok s w'
    /\ length (layers s) = n
    /\ allocated w'
    /\ calm w w'
    /\ canvas w' = canvas w
    /\ bundle w' s (fun l => l = vs)
    /\ (forall b, b ∈ layers s ->
          layer_colour sk (brushColor w) (color b)
          /\ next_array w <= vertices b).
Proof.
  intros Hal Hv Ht Hf.
  destruct (strokes_new_ok sk fuel proto w vs n Hal Hv Ht Hf)
    as (s & w' & Hr & Htot & Hlen & Hal' & Hv' & [Hc Hn Ha Hd] & Hcv & _).
  exists s, w'. do 3 (split; [done|]).
  pose proof Hr as Hr2. unfold strokes_new in Hr2.
  rewrite (bind_ok _ _ _ _ _ (draw_total_ok sk w)) in Hr2.
  rewrite (for_lt_trips _ n _ Ht n 0) in Hr2 by lia.
  apply (layers_loop_calm sk proto vs) in Hr2 as [Hcalm Hb];
    [|by apply after_total_allocated|by rewrite after_total_arrays].
  split; [eapply calm_trans; [apply calm_after_total|done]|].
  split; [done|]. split.
  - split; [by rewrite Htot, Hlen|done|done|].
    intros b Hin. exists vs. split; [by apply Hc|done].
  - intros b Hin. destruct (Hb b Hin) as [Hold|[Hcol Hge]].
    + cbn in Hold. by apply elem_of_nil in Hold.
    + split.
      * destruct Hcol as [Hp Hx]. split; [|done]. rewrite Hp. by destruct sk.
      * replace (next_array w) with (next_array (after_total sk w))
          by (by destruct sk). done.
Qed.

(** ** Displaying and painting *)

Lemma display_ok b w vs :
  arrays w !! vertices b = Some vs ->
  display b w = Ok tt (set_canvas (canvas w ++ [Shape vs (color b)]) w).
Proof.
  intros H. unfold display.
  by rewrite (bind_ok _ _ _ _ _ (read_array_ok _ _ _ H)).
Qed.

Lemma shapes_of_cons w b bs vs :
  arrays w !! vertices b = Some vs ->
  shapes_of w (b :: bs) = Shape vs (color b) :: shapes_of w bs.
Proof. intros H. unfold shapes_of. cbn. by rewrite H. Qed.

(** The loop of [display()] over the layers [i .. i + k - 1]. *)
Lemma display_loop s : forall k i w,
  (forall b, b ∈ layers s -> is_Some (arrays w !! vertices b)) ->
  i + k <= length (layers s) ->
  mfor (seq i k)
    (fun j s' => match layers s' !! j with
                 | Some b => let* _ := display b in ret s'
                 | None => throw
                 end) s w
  = Ok s (set_canvas (canvas w ++ shapes_of w (take k (drop i (layers s)))) w).
Proof.
  induction k as [|k IH]; intros i w Harr Hik.
  - cbn. unfold ret. rewrite app_nil_r. by destruct w.
  - destruct (lookup_lt_is_Some_2 (layers s) i) as [b Hb]; [lia|].
    destruct (Harr b) as [vs Hv]; [by eapply list_elem_of_lookup_2|].
    cbn [seq mfor]. unfold bind at 1. rewrite Hb.
    unfold bind at 1. rewrite (display_ok _ _ _ Hv). unfold ret at 1.
    rewrite IH; [|done|lia].
    rewrite (drop_S _ _ _ Hb). cbn [take].
    rewrite (shapes_of_cons w b _ vs Hv).
    cbn [canvas set_canvas]. rewrite <- app_assoc. reflexivity.
Qed.

Lemma strokes_display_ok fuel s w P :
  bundle w s P -> length (layers s) < fuel ->
  strokes_display fuel s w
  = Ok tt (set_canvas (canvas w ++ shapes_of w (layers s)) w).
Proof.
  intros [Ht Hd Hn Hh] Hf. unfold strokes_display, bind.
  rewrite (for_lt_trips _ _ _ Ht (length (layers s)) 0) by lia.
  rewrite display_loop; [|intros b Hb|lia].
  - by rewrite drop_0, firstn_all.
  - destruct (Hh b Hb) as (vs & Hv & _). by exists vs.
Qed.

(** One shape per layer, of the layer's colour and polygon. *)
Lemma shapes_of_layers w bs (P : list point -> Prop) :
  (forall b, b ∈ bs -> holds w b P) ->
  Forall2 (fun b sh => fill sh = color b /\ P (outline sh)) bs (shapes_of w bs).
Proof.
  induction bs as [|b bs IH]; intros H; [constructor|].
  destruct (H b) as (vs & Hv & HP); [by left|].
  rewrite (shapes_of_cons w b bs vs Hv). constructor; [done|].
  apply IH. intros b' Hb'. apply H. by right.
Qed.

Lemma bundle_impl w s (P Q : list point -> Prop) :
  (forall vs, P vs -> Q vs) -> bundle w s P -> bundle w s Q.
Proof.
  intros HPQ [Ht Hd Hn Hh]. split; [done..|].
  intros b Hb. destruct (Hh b Hb) as (vs & Hv & HP). exists vs. auto.
Qed.

Lemma bundle_others_kept w w' s P :
  (forall b, b ∈ layers s -> arrays w' !! vertices b = arrays w !! vertices b) ->
  bundle w s P -> bundle w' s P.
Proof.
  intros Hk [Ht Hd Hn Hh]. split; [done..|].
  intros b Hb. destruct (Hh b Hb) as (vs & Hv & HP). exists vs.
  by rewrite Hk.
Qed.

Lemma with_prototype_allocated sk v w :
  allocated w -> allocated (with_prototype sk v w).
Proof. apply layer_added_allocated. Qed.

Lemma calm_with_prototype sk v w : calm w (with_prototype sk v w).
Proof. apply calm_layer_added. Qed.

Lemma steady_calm sk fuel w w' : calm w w' -> steady sk fuel w -> steady sk fuel w'.
Proof. intros (Hr & _) Hs E d. rewrite Hr. by apply Hs. Qed.

Lemma calm_set_drawn n w : calm w (set_drawn n w).
Proof. by repeat split. Qed.

(** A deformation of the bundle [s], all of whose arrays were made after
    [w0], is calm with respect to [w0]. *)
Lemma calm_deformed s w0 w w' :
  calm w0 w -> quiet w w' -> others_kept s w w' ->
  (forall b, b ∈ layers s -> next_array w0 <= vertices b) ->
  calm w0 w'.
Proof.
  intros (H1 & H2 & H3 & H4 & H5 & H6) (G1 & G2 & G3 & G4 & G5) Hk Hnew.
  split; [congruence|]. split; [congruence|]. split; [congruence|].
  split; [lia|]. split; [|by rewrite G1].
  intros a Ha. rewrite Hk; [by apply H5|].
  intros (b & -> & Hb)%list_elem_of_fmap. apply Hnew in Hb. lia.
Qed.

(** [paint] from beginning to end, when the loop over [total] makes [n]
    turns. *)
Lemma paint_ok (sk : sketch) (fuel : nat) (v : point) (w : world) (n : nat) :
  allocated w ->
  trips (total_of sk (with_prototype sk v w)) n ->
  n < fuel ->
  steady sk fuel w ->
  exists w' shapes r,
    paint sk fuel v w = Ok tt w'
    /\ canvas w' = canvas w ++ shapes
    /\ length shapes = n
    /\ Forall (fun sh => anchored_at v (2 ^ r) (outline sh)
                         /\ layer_colour sk (brushColor w) (fill sh)) shapes
    /\ (sk <> Drawn8_32 -> r = 5)
    /\ allocated w'
    /\ calm w w'.
Proof.
  intros Hal Ht Hf Hs.
  set (w1 := with_prototype sk v w).
  set (proto := Brush (next_array w) []
                  (Colour (brushColor w)
                     (alpha_of sk (set_next_array (S (next_array w))
                                     (set_arrays <[next_array w := [v]]> w))))).
  assert (Hproto : arrays w1 !! vertices proto = Some [v]).
  { subst w1 proto. unfold with_prototype. rewrite after_brush_arrays. cbn.
    by rewrite lookup_insert_eq. }
  assert (Hal1 : allocated w1) by (by apply with_prototype_allocated).
  assert (Hc1 : calm w w1) by apply calm_with_prototype.
  destruct (strokes_new_calm sk fuel proto w1 [v] n Hal1 Hproto Ht Hf)
    as (s & w2 & Hnew & Hlen & Hal2 & Hc2 & Hcv2 & Hb2 & Hcol).
  assert (Hb2' : bundle w2 s (anchored_at v 1)).
  { eapply bundle_impl; [|exact Hb2]. by intros vs ->. }
  assert (Hcv1 : canvas w1 = canvas w) by (subst w1; by destruct sk).
  assert (Hfin : forall w4 r,
            bundle w4 s (anchored_at v (1 * 2 ^ r)) -> calm w w4 ->
            canvas w4 = canvas w -> allocated w4 ->
            (sk <> Drawn8_32 -> r = 5) ->
            exists w' shapes r0,
              strokes_display fuel s w4 = Ok tt w'
              /\ canvas w' = canvas w ++ shapes
              /\ length shapes = n
              /\ Forall (fun sh => anchored_at v (2 ^ r0) (outline sh)
                                   /\ layer_colour sk (brushColor w) (fill sh))
                   shapes
              /\ (sk <> Drawn8_32 -> r0 = 5)
              /\ allocated w'
              /\ calm w w').
  { intros w4 r Hb4 Hc4 Hcv4 Hal4 Hr.
    exists (set_canvas (canvas w4 ++ shapes_of w4 (layers s)) w4),
      (shapes_of w4 (layers s)), r.
    split; [eapply strokes_display_ok; [exact Hb4|lia]|].
    split; [cbn; by rewrite Hcv4|].
    pose proof (shapes_of_layers w4 (layers s) _ (bundle_holds _ _ _ Hb4)) as HF.
    split; [by rewrite <- (Forall2_length _ _ _ HF)|].
    split; [|split; [done|split; [done|]]].
    - apply Forall_forall. intros sh Hsh.
      apply list_elem_of_lookup_1 in Hsh as [i Hi].
      destruct (Forall2_lookup_r _ _ _ _ _ HF Hi) as (b & Hbi & Hfill & Hanch).
      rewrite Nat.mul_1_l in Hanch. split; [done|]. rewrite Hfill.
      destruct (Hcol b) as [Hcb _]; [by eapply list_elem_of_lookup_2|].
      destruct Hc1 as (_ & Hbc & _). by rewrite Hbc in Hcb.
    - destruct Hc4 as (C1 & C2 & C3 & C4 & C5 & C6).
      split; [done|]. split; [done|]. split; [done|]. split; [done|].
      split; [done|]. cbn. rewrite Hcv4. by apply prefix_app_r. }
  assert (Hs2 : steady sk fuel w2).
  { eapply steady_calm; [|exact Hs]. by eapply calm_trans. }
  assert (Hnewer : forall b, b ∈ layers s -> next_array w <= vertices b).
  { intros b Hb. destruct (Hcol b Hb) as [_ Hge].
    destruct Hc1 as (_ & _ & _ & Hn1 & _). lia. }
  unfold paint. unfold bind at 1. cbn [new_array].
  unfold bind at 1. rewrite brush_new_ok.
  erewrite bind_ok; [|exact Hnew].
  destruct sk.
  - unfold bind at 1. rewrite random2_ok.
    destruct (deform_calls_anchored Fixed25 fuel s v 5 (set_drawn (S (drawn w2)) w2) 1)
      as (w4 & r & Hr & Hb4 & Hq & Hk & Hal4 & Hr5);
      [by apply bundle_set_drawn|lia|lia|done|].
    unfold deform_calls in Hr. rewrite (bind_ok _ _ _ _ _ Hr).
    apply (Hfin w4 r); [done| | |by auto|by auto].
    + eapply calm_deformed; [|exact Hq|exact Hk|exact Hnewer].
      eapply calm_trans; [|apply calm_set_drawn]. by eapply calm_trans.
    + destruct Hq as (-> & _). cbn. congruence.
  - unfold bind at 1. rewrite random2_ok.
    destruct (deform_calls_anchored Drawn10_30 fuel s v 5 (set_drawn (S (drawn w2)) w2) 1)
      as (w4 & r & Hr & Hb4 & Hq & Hk & Hal4 & Hr5);
      [by apply bundle_set_drawn|lia|lia|done|].
    unfold deform_calls in Hr. rewrite (bind_ok _ _ _ _ _ Hr).
    apply (Hfin w4 r); [done| | |by auto|by auto].
    + eapply calm_deformed; [|exact Hq|exact Hk|exact Hnewer].
      eapply calm_trans; [|apply calm_set_drawn]. by eapply calm_trans.
    + destruct Hq as (-> & _). cbn. congruence.
  - destruct (strokes_deform_anchored Drawn8_32 fuel s w2 v 1)
      as (w4 & r & Hr & Hb4 & Hq & Hk & Hal4 & Hr5); [done|lia|lia|done|].
    rewrite (bind_ok _ _ _ _ _ Hr).
    apply (Hfin w4 r); [done| | |by auto|done].
    + eapply calm_deformed; [|exact Hq|exact Hk|exact Hnewer].
      by eapply calm_trans.
    + destruct Hq as (-> & _). congruence.
Qed.

Lemma trips_25 : trips 25 25.
Proof. by apply trips_check. Qed.

(** [paint] in src/sketch.js: 25 polygons of 32 vertices. *)
Lemma paint_fixed (fuel : nat) (v : point) (w : world) :
  allocated w -> 25 < fuel ->
  exists w' shapes,
    paint Fixed25 fuel v w = Ok tt w'
    /\ canvas w' = canvas w ++ shapes
    /\ length shapes = 25
    /\ Forall (fun sh => anchored_at v 32 (outline sh)
                         /\ fill sh = Colour (brushColor w) 2) shapes
    /\ allocated w'
    /\ calm w w'.
Proof.
  intros Hal Hf.
  destruct (paint_ok Fixed25 fuel v w 25 Hal trips_25 Hf)
    as (w' & shapes & r & Hr & Hc & Hl & HF & Hr5 & Hal' & Hcalm); [done|].
  exists w', shapes. do 3 (split; [done|]). split; [|done].
  rewrite (Hr5 ltac:(done)) in HF. eapply Forall_impl; [exact HF|].
  intros sh [Ha [Hp Hx]]. split; [done|].
  destruct (fill sh) as [pg al]. cbn in *. by rewrite Hp, Hx.
Qed.

(** ** The palette *)

Lemma pick_colour_from (u : Frame.ui) : forall idx acc w,
  mfor idx
    (fun i (_ : unit) =>
       if Frame.over_swatch u i
       then match Frame.colors u !! i with
            | Some c => modify (Frame.set_brushColor c)
            | None => ret tt
            end
       else ret tt) tt
    (match acc with Some c => Frame.set_brushColor c w | None => w end)
  = Ok tt
      (match fold_left (choose u) idx acc with
       | Some c => Frame.set_brushColor c w
       | None => w
       end).
Proof.
  induction idx as [|i idx IH]; intros acc w; [done|].
  cbn [mfor fold_left]. unfold bind, choose at 2.
  destruct (Frame.over_swatch u i); [|apply IH].
  destruct (Frame.colors u !! i) as [c|]; [|apply IH].
  cbn [modify]. rewrite <- (IH (Some c) w). by destruct acc.
Qed.

Lemma pick_colour_picked (u : Frame.ui) (w : world) :
  Frame.pick_colour u w = Ok tt (with_picked u w).
Proof. apply (pick_colour_from u _ None w). Qed.

Lemma over_swatch_row (u : Frame.ui) (i : nat) :
  Num.gt (Frame.mouseY u) (Frame.innerHeight u - Frame.spacing u)
  && PrimFloat.ltb (Frame.mouseY u) (Frame.innerHeight u) = false ->
  Frame.over_swatch u i = false.
Proof.
  unfold Frame.over_swatch. intros H.
  rewrite <- andb_assoc, H. apply andb_false_r.
Qed.

Section Picking.

Variable u : Frame.ui.

Lemma choose_none idx acc :
  (forall j, j ∈ idx -> Frame.over_swatch u j = false) ->
  fold_left (choose u) idx acc = acc.
Proof.
  revert acc. induction idx as [|j idx IH]; intros acc H; [done|].
  cbn [fold_left]. unfold choose at 2. rewrite (H j) by left.
  apply IH. intros k Hk. apply H. by right.
Qed.

Lemma choose_member idx acc c :
  fold_left (choose u) idx acc = Some c -> acc = Some c \/ c ∈ Frame.colors u.
Proof.
  revert acc. induction idx as [|j idx IH]; intros acc H; [by left|].
  cbn [fold_left] in H. apply IH in H as [H|H]; [|by right].
  unfold choose in H. destruct (Frame.over_swatch u j); [|by left].
  destruct (Frame.colors u !! j) as [c'|] eqn:E; [|by left].
  injection H as ->. right. by eapply list_elem_of_lookup_2.
Qed.

Lemma picked_none :
  (forall j, Frame.over_swatch u j = false) -> picked u = None.
Proof. intros H. unfold picked. apply (choose_none _ None). auto. Qed.

Lemma picked_last i c :
  Frame.colors u !! i = Some c ->
  Frame.over_swatch u i = true ->
  (forall j, i < j -> Frame.over_swatch u j = false) ->
  picked u = Some c.
Proof.
  intros Hc Hi Hlater. unfold picked.
  pose proof (lookup_lt_Some _ _ _ Hc) as Hlt.
  replace (length (Frame.colors u)) with (i + S (length (Frame.colors u) - S i))
    by lia.
  rewrite seq_app, fold_left_app. cbn [seq fold_left Nat.add].
  rewrite choose_none.
  - unfold choose. by rewrite Hi, Hc.
  - intros j Hj%list_elem_of_In%in_seq. apply Hlater. lia.
Qed.

End Picking.

(** X21: the palette loop of [draw].  It always returns and changes nothing
    but the brush colour; with the mouse outside the row of swatches it
    changes nothing at all; with the mouse over the swatch [i] and over no
    later one the brush colour becomes [colors[i]]; in every case the brush
    colour is the old one or a colour of the palette. *)
Theorem palette_pick (u : Frame.ui) (w : world) :
  exists w',
    Frame.pick_colour u w = Ok tt w'
    /\ w' = Frame.set_brushColor (brushColor w') w
    /\ (Num.gt (Frame.mouseY u) (Frame.innerHeight u - Frame.spacing u)
        && PrimFloat.ltb (Frame.mouseY u) (Frame.innerHeight u) = false ->
        w' = w)
    /\ (forall i c,
          Frame.colors u !! i = Some c ->
          Frame.over_swatch u i = true ->
          (forall j, i < j -> Frame.over_swatch u j = false) ->
          brushColor w' = c)
    /\ (brushColor w' = brushColor w \/ brushColor w' ∈ Frame.colors u).
Proof.
  exists (with_picked u w). split; [apply pick_colour_picked|].
  unfold with_picked. split; [|split; [|split]].
  - destruct (picked u); [done|by destruct w].
  - intros Hrow. rewrite picked_none; [done|].
    intros j. by apply over_swatch_row.
  - intros i c Hc Hi Hlater. by rewrite (picked_last u i c).
  - destruct (picked u) as [c|] eqn:E; [|by left]. right. cbn.
    unfold picked in E. by apply choose_member in E as [?|?].
Qed.

(** ** One brush: failure on an empty polygon, and the footprint of a round *)

(** X1: [deform()] on a brush whose vertex array is empty throws: the loop
    over the adjacent pairs does not run, and the wrap-around vertex reads a
    coordinate of [this.vertices[0]], which is undefined. *)
Theorem deform_empty_throws (b : brush) (w : world) :
  arrays w !! vertices b = Some [] ->
  deform b w = TypeError.
Proof.
  intros Hb. unfold deform.
  erewrite bind_ok; [|by apply read_array_ok].
  cbn [length Nat.sub seq mfor]. unfold ret at 1.
  erewrite bind_ok; [|reflexivity].
  erewrite bind_ok; [|by apply read_array_ok].
  unfold bind at 1, between, bind at 1, element, bind at 1.
  by rewrite (read_array_ok _ _ _ Hb).
Qed.

Lemma deform_empty_throws_witness : deform tip blank = TypeError.
Proof. apply deform_empty_throws. reflexivity. Defined.

(** X2: the footprint of one round.  [deform()] on a polygon of [n >= 1]
    vertices returns, hands the brush back with its list of new vertices
    empty again, consumes exactly [2 * n] outputs of the generator, and
    writes to the brush's own array only: the canvas, the brush colour and
    radius, the array counter and every other array are as before. *)
Theorem deform_footprint (b : brush) (w : world) (vs : list point) :
  arrays w !! vertices b = Some vs ->
  vs <> [] ->
  newVertices b = [] ->
  exists w',
    deform b w = Ok b w'
    /\ drawn w' = drawn w + 2 * length vs
    /\ quiet w w'
    /\ (forall a, a <> vertices b -> arrays w' !! a = arrays w !! a)
    /\ dom (arrays w') = dom (arrays w).
Proof.
  intros Hb Hne Hnv. eexists. split; [by apply deform_ok|].
  split; [done|]. split; [done|]. split.
  - intros a Ha. cbn. by rewrite lookup_insert_ne.
  - cbn. apply set_eq. intros a. rewrite dom_insert, elem_of_union.
    rewrite elem_of_singleton. split; [|tauto].
    intros [->|H]; [|done]. apply elem_of_dom. by rewrite Hb.
Qed.

Lemma deform_footprint_witness :
  exists w',
    deform tip studio = Ok tip w'
    /\ drawn w' = drawn studio + 2 * length [anchor]
    /\ quiet studio w'
    /\ (forall a, a <> vertices tip -> arrays w' !! a = arrays studio !! a)
    /\ dom (arrays w') = dom (arrays studio).
Proof. apply deform_footprint; [reflexivity|discriminate|reflexivity]. Defined.

(** ** The bundle: anchor, constructor, display and [paint] as a whole *)

Lemma gallery_bundle : bundle gallery pair_of_layers (anchored_at anchor 1).
Proof.
  split.
  - by apply trips_check.
  - cbn. apply NoDup_cons. split; [|apply NoDup_singleton].
    by intros H%list_elem_of_singleton.
  - intros b Hb. cbn in Hb.
    apply elem_of_cons in Hb as [->|Hb]; [done|].
    by apply list_elem_of_singleton in Hb as ->.
  - intros b Hb. cbn in Hb. exists [anchor].
    apply elem_of_cons in Hb as [->|Hb]; [done|].
    by apply list_elem_of_singleton in Hb as ->.
Qed.

Lemma shapes_of_spec w bs :
  (forall b, b ∈ bs -> is_Some (arrays w !! vertices b)) ->
  Forall2 (fun b sh => fill sh = color b
                       /\ arrays w !! vertices b = Some (outline sh))
    bs (shapes_of w bs).
Proof.
  induction bs as [|b bs IH]; intros H; [constructor|].
  destruct (H b) as [vs Hvs]; [by left|].
  rewrite (shapes_of_cons _ _ _ _ Hvs). constructor; [done|].
  apply IH. intros b' Hb'. apply H. by right.
Qed.

(** X3: the anchor of a bundle.  When every layer's polygon starts at the
    vertex [v], it still does after any number of calls of the bundle's
    [deform()], in all three sketches: the first vertex of every layer is
    never moved or displaced, every layer has the same number
    [m * 2 ^ n] of vertices, and the calls touch nothing but the layers'
    own arrays and the generator. *)
Theorem bundle_keeps_anchor (sk : sketch) (fuel k : nat) (s : strokes)
    (w : world) (v : point) (m : nat) :
  bundle w s (anchored_at v m) ->
  1 <= m ->
  length (layers s) < fuel ->
  steady sk fuel w ->
  exists w' n,
    deform_calls sk fuel k s w = Ok s w'
    /\ (forall b, b ∈ layers s ->
          exists vs, arrays w' !! vertices b = Some vs
                     /\ head vs = Some v /\ length vs = m * 2 ^ n)
    /\ quiet w w'
    /\ others_kept s w w'
    /\ (sk <> Drawn8_32 -> n = k).
Proof.
  intros Hb Hm Hf Hs.
  destruct (deform_calls_anchored sk fuel s v k w m Hb Hm Hf Hs)
    as (w' & n & Hr & Hb' & Hq & Hk & _ & Hn).
  exists w', n. split; [done|]. split; [|done].
  intros b Hin. by destruct (bundle_holds _ _ _ Hb' b Hin) as (vs & ? & ? & ?); eauto.
Qed.

Lemma bundle_keeps_anchor_witness :
  exists w' n,
    deform_calls Drawn8_32 3 2 pair_of_layers gallery = Ok pair_of_layers w'
    /\ (forall b, b ∈ layers pair_of_layers ->
          exists vs, arrays w' !! vertices b = Some vs
                     /\ head vs = Some anchor /\ length vs = 1 * 2 ^ n)
    /\ quiet gallery w'
    /\ others_kept pair_of_layers gallery w'
    /\ (Drawn8_32 <> Drawn8_32 -> n = 2).
Proof.
  apply (bundle_keeps_anchor Drawn8_32 3 2 pair_of_layers gallery anchor 1);
    [apply gallery_bundle|lia|simpl; lia|apply gallery_steady].
Defined.

(** X4: what the constructor of the bundle leaves alone.  It draws nothing,
    keeps the brush colour and radius and every array that existed before,
    the prototype's included; the arrays of the layers are all new, and
    every layer has the brush colour of the moment, with alpha 2 in the
    classes brush and strokes. *)
Theorem constructor_frame (sk : sketch) (fuel : nat) (proto : brush)
    (w : world) (vs : list point) (n : nat) :
  allocated w ->
  arrays w !! vertices proto = Some vs ->
  trips (total_of sk w) n ->
  n < fuel ->
  exists s w',
    strokes_new sk fuel proto w = Ok s w'
    /\ canvas w' = canvas w
    /\ brushColor w' = brushColor w
    /\ brushRadius w' = brushRadius w
    /\ (forall a, a < next_array w -> arrays w' !! a = arrays w !! a)
    /\ (forall b, b ∈ layers s ->
          next_array w <= vertices b < next_array w'
          /\ pigment (color b) = brushColor w
          /\ (sk <> Drawn8_32 -> alpha (color b) = 2%float)).
Proof.
  intros Hal Hp Ht Hf.
  destruct (strokes_new_calm sk fuel proto w vs n Hal Hp Ht Hf)
    as (s & w' & Hnew & _ & Hal' & Hc & Hcv & Hb & Hcol).
  exists s, w'. destruct Hc as (_ & C2 & C3 & _ & C5 & _).
  split; [done|]. split; [done|]. split; [done|]. split; [done|].
  split; [done|]. intros b Hin. destruct (Hcol b Hin) as [[Hpg Halpha] Hge].
  split; [|done]. split; [done|].
  destruct (bundle_holds _ _ _ Hb b Hin) as (l & Hl & _). by eapply Hal'.
Qed.

Lemma constructor_frame_witness :
  exists s w',
    strokes_new Drawn10_30 31 tip studio = Ok s w'
    /\ canvas w' = canvas studio
    /\ brushColor w' = brushColor studio
    /\ brushRadius w' = brushRadius studio
    /\ (forall a, a < next_array studio -> arrays w' !! a = arrays studio !! a)
    /\ (forall b, b ∈ layers s ->
          next_array studio <= vertices b < next_array w'
          /\ pigment (color b) = brushColor studio
          /\ (Drawn10_30 <> Drawn8_32 -> alpha (color b) = 2%float)).
Proof.
  apply (constructor_frame Drawn10_30 31 tip studio [anchor] 13);
    [apply studio_allocated|reflexivity|apply studio_trips|lia].
Defined.

(** X5: [display()] of a bundle draws exactly one shape per layer, in the
    order of the layers, each with its layer's colour and the polygon the
    layer's array holds at that moment, after the shapes already on the
    canvas; nothing else changes. *)
Theorem display_appends (fuel : nat) (s : strokes) (w : world) :
  bundle w s (fun _ => True) ->
  length (layers s) < fuel ->
  exists shapes,
    strokes_display fuel s w = Ok tt (set_canvas (canvas w ++ shapes) w)
    /\ Forall2 (fun b sh => fill sh = color b
                            /\ arrays w !! vertices b = Some (outline sh))
         (layers s) shapes.
Proof.
  intros Hb Hf. exists (shapes_of w (layers s)).
  split; [by eapply strokes_display_ok|].
  apply shapes_of_spec. intros b Hin.
  destruct (bundle_holds _ _ _ Hb b Hin) as (vs & Hvs & _). by exists vs.
Qed.

Lemma display_appends_witness :
  exists shapes,
    strokes_display 3 pair_of_layers gallery
    = Ok tt (set_canvas (canvas gallery ++ shapes) gallery)
    /\ Forall2 (fun b sh => fill sh = color b
                            /\ arrays gallery !! vertices b = Some (outline sh))
         (layers pair_of_layers) shapes.
Proof.
  apply (display_appends 3 pair_of_layers gallery); [|simpl; lia].
  eapply bundle_impl; [|apply gallery_bundle]. done.
Defined.

(** X6: [paint] from beginning to end, in the three sketches.  When the
    constructor's loop makes [n] turns, [paint] returns and adds exactly [n]
    shapes after those already on the canvas; every one of them is a polygon
    that starts at the painted point and has [2 ^ r] vertices, the same [r]
    for all ([r = 5] where the bundle is deformed five times), in the brush
    colour of the moment; the brush colour and radius and the arrays that
    existed before are untouched. *)
Theorem paint_adds_layers (sk : sketch) (fuel : nat) (v : point) (w : world)
    (n : nat) :
  allocated w ->
  trips (total_of sk (with_prototype sk v w)) n ->
  n < fuel ->
  steady sk fuel w ->
  exists w' shapes r,
    paint sk fuel v w = Ok tt w'
    /\ canvas w' = canvas w ++ shapes
    /\ length shapes = n
    /\ Forall (fun sh => head (outline sh) = Some v
                         /\ length (outline sh) = 2 ^ r
                         /\ pigment (fill sh) = brushColor w
                         /\ (sk <> Drawn8_32 -> alpha (fill sh) = 2%float))
         shapes
    /\ (sk <> Drawn8_32 -> r = 5)
    /\ brushColor w' = brushColor w
    /\ brushRadius w' = brushRadius w
    /\ (forall a, a < next_array w -> arrays w' !! a = arrays w !! a).
Proof.
  intros Hal Ht Hf Hs.
  destruct (paint_ok sk fuel v w n Hal Ht Hf Hs)
    as (w' & shapes & r & Hp & Hcv & Hlen & Hall & Hr & _ & Hc).
  exists w', shapes, r. destruct Hc as (_ & C2 & C3 & _ & C5 & _).
  split; [done|]. split; [done|]. split; [done|].
  split; [|by auto].
  eapply Forall_impl; [exact Hall|].
  by intros sh [[? ?] [? ?]].
Qed.

Lemma paint_adds_layers_witness :
  exists w' shapes r,
    paint Fixed25 26 anchor studio = Ok tt w'
    /\ canvas w' = canvas studio ++ shapes
    /\ length shapes = 25
    /\ Forall (fun sh => head (outline sh) = Some anchor
                         /\ length (outline sh) = 2 ^ r
                         /\ pigment (fill sh) = brushColor studio
                         /\ (Fixed25 <> Drawn8_32 -> alpha (fill sh) = 2%float))
         shapes
    /\ (Fixed25 <> Drawn8_32 -> r = 5)
    /\ brushColor w' = brushColor studio
    /\ brushRadius w' = brushRadius studio
    /\ (forall a, a < next_array studio -> arrays w' !! a = arrays studio !! a).
Proof.
  apply (paint_adds_layers Fixed25 26 anchor studio 25);
    [apply studio_allocated|apply trips_25|lia|intros E; discriminate E].
Defined.

(** ** The frame loop of src/sketch.js: what a frame paints *)

Lemma with_picked_allocated u w : allocated w -> allocated (with_picked u w).
Proof. unfold with_picked. by destruct (picked u). Qed.

Lemma with_picked_canvas u w : canvas (with_picked u w) = canvas w.
Proof. unfold with_picked. by destruct (picked u). Qed.

Lemma with_picked_arrays u w : arrays (with_picked u w) = arrays w.
Proof. unfold with_picked. by destruct (picked u). Qed.

Lemma follow_ok fuel k last save u w :
  allocated w -> 25 < fuel ->
  exists w' shapes,
    Frame.follow fuel k last save u w
    = Ok (if followed k last then save (position k) u else u) w'
    /\ canvas w' = canvas w ++ shapes
    /\ length shapes = 25 * Nat.b2n (followed k last)
    /\ Forall (fun sh => anchored_at (position k) 32 (outline sh)
                         /\ fill sh = Colour (brushColor w) 2) shapes
    /\ allocated w'
    /\ calm w w'.
Proof.
  intros Hal Hf. unfold Frame.follow, followed.
  destruct (Num.gt (Frame.confidence k) 0.6); cbn [andb];
    [destruct (Frame.ne (px last) (Frame.kx k) && Frame.ne (py last) (Frame.ky k))|].
  - destruct (paint_fixed fuel (position k) w Hal Hf)
      as (w' & shapes & Hr & Hc & Hl & HF & Hal' & Hcalm).
    exists w', shapes. unfold position in Hr. rewrite (bind_ok _ _ _ _ _ Hr).
    by rewrite Hl.
  - exists w, []. rewrite app_nil_r. repeat split; try done; apply calm_refl.
  - exists w, []. rewrite app_nil_r. repeat split; try done; apply calm_refl.
Qed.

Lemma set_lastLeft_lastRight p u :
  Frame.lastRight (Frame.set_lastLeft p u) = Frame.lastRight u.
Proof. done. Qed.

(** A frame with a pose, from the palette to the second wrist. *)
Lemma draw_pose (fuel : nat) (u : Frame.ui) (w : world) (p : Frame.pose)
    (ps : list Frame.pose) :
  allocated w -> 25 < fuel -> Frame.poses u = p :: ps ->
  let l := followed (Frame.leftWrist p) (Frame.lastLeft u) in
  let r := followed (Frame.rightWrist p) (Frame.lastRight u) in
  let u1 := if l then Frame.set_lastLeft (position (Frame.leftWrist p)) u
            else u in
  let u2 := if r then Frame.set_lastRight (position (Frame.rightWrist p)) u1
            else u1 in
  exists w' left right,
    Frame.draw fuel u w = Ok u2 w'
    /\ canvas w' = canvas w ++ left ++ right
    /\ length left = 25 * Nat.b2n l
    /\ length right = 25 * Nat.b2n r
    /\ Forall (fun sh => anchored_at (position (Frame.leftWrist p)) 32 (outline sh)
                         /\ fill sh = Colour (brushColor w') 2) left
    /\ Forall (fun sh => anchored_at (position (Frame.rightWrist p)) 32 (outline sh)
                         /\ fill sh = Colour (brushColor w') 2) right.
Proof.
  intros Hal Hf Hp l r u1 u2.
  unfold Frame.draw. rewrite (bind_ok _ _ _ _ _ (pick_colour_picked u w)), Hp.
  destruct (follow_ok fuel (Frame.leftWrist p) (Frame.lastLeft u)
              Frame.set_lastLeft u (with_picked u w))
    as (w1 & left & Hr1 & Hc1 & Hl1 & HF1 & Hal1 & Hcalm1);
    [by apply with_picked_allocated|done|].
  rewrite (bind_ok _ _ _ _ _ Hr1). fold l. fold u1.
  assert (Hlr : Frame.lastRight u1 = Frame.lastRight u)
    by (subst u1; by destruct l).
  rewrite Hlr.
  destruct (follow_ok fuel (Frame.rightWrist p) (Frame.lastRight u)
              Frame.set_lastRight u1 w1)
    as (w2 & right & Hr2 & Hc2 & Hl2 & HF2 & Hal2 & Hcalm2); [done..|].
  fold r in Hr2, Hl2. fold u2 in Hr2.
  exists w2, left, right. split; [exact Hr2|].
  destruct Hcalm1 as (_ & B1 & _). destruct Hcalm2 as (_ & B2 & _).
  split; [by rewrite Hc2, Hc1, with_picked_canvas, app_assoc|].
  split; [exact Hl1|]. split; [exact Hl2|].
  split; (eapply Forall_impl; [eassumption|]); intros sh [? ->];
    (split; [done|]); congruence.
Qed.

(** A frame with no pose and a saved position. *)
Lemma draw_click (fuel : nat) (u : Frame.ui) (w : world) :
  allocated w ->
  25 < fuel ->
  Frame.poses u = [] ->
  Num.gt (px (Frame.lastMouse u)) 0 = true ->
  Num.gt (py (Frame.lastMouse u)) 0 = true ->
  let u0 := Frame.set_lastMouse (Point 0 0) u in
  exists w' shapes,
    Frame.draw fuel u w = Ok u0 w'
    /\ canvas w' = canvas w ++ shapes
    /\ length shapes = 25
    /\ Forall (fun sh => head (outline sh) = Some (Frame.lastMouse u)
                         /\ length (outline sh) = 32
                         /\ fill sh = Colour (brushColor w') 2) shapes
    /\ (forall k, exists w'',
          Frame.frames fuel k u0 w' = Ok u0 w'' /\ canvas w'' = canvas w').
Proof.
  intros Hal Hf Hp Hx Hy u0.
  destruct (paint_fixed fuel (Frame.lastMouse u) (with_picked u w))
    as (w' & shapes & Hr & Hc & Hl & HF & _ & Hcalm);
    [by apply with_picked_allocated|done|].
  exists w', shapes. split.
  { unfold Frame.draw.
    rewrite (bind_ok _ _ _ _ _ (pick_colour_picked u w)), Hp, Hx, Hy.
    cbn [andb]. by rewrite (bind_ok _ _ _ _ _ Hr). }
  split; [by rewrite Hc, with_picked_canvas|]. split; [done|].
  destruct Hcalm as (_ & B & _).
  split.
  - eapply Forall_impl; [exact HF|]. intros sh [[? ?] ->]. by rewrite B.
  - intros k.
    destruct (frames_without_paint fuel u0) with (n := k) (w := w')
      as (w'' & Hk & Hck & _); [by subst u0; destruct u|done|].
    by exists w''.
Qed.

(** X7: a saved click is painted once.  With no pose detected and a saved
    position strictly positive in both coordinates, a frame paints one
    bundle, 25 polygons of 32 vertices that all start at the saved position,
    in the brush colour of that frame with alpha 2, and forgets the
    position; the frames that follow, however many, add nothing. *)
Theorem click_paints_one_bundle (fuel : nat) (u : Frame.ui) (w : world) :
  allocated w ->
  25 < fuel ->
  Frame.poses u = [] ->
  Num.gt (px (Frame.lastMouse u)) 0 = true ->
  Num.gt (py (Frame.lastMouse u)) 0 = true ->
  let u0 := Frame.set_lastMouse (Point 0 0) u in
  exists w' shapes,
    Frame.draw fuel u w = Ok u0 w'
    /\ canvas w' = canvas w ++ shapes
    /\ length shapes = 25
    /\ Forall (fun sh => head (outline sh) = Some (Frame.lastMouse u)
                         /\ length (outline sh) = 32
                         /\ fill sh = Colour (brushColor w') 2) shapes
    /\ (forall k, exists w'',
          Frame.frames fuel k u0 w' = Ok u0 w'' /\ canvas w'' = canvas w').
Proof. apply draw_click. Qed.

(** X8: only the last click counts.  Of the clicks between two frames the
    frame paints the last one that fell inside the canvas: wherever the
    mouse was clicked before, after a click at a point inside the canvas
    and strictly positive in both coordinates the next frame paints one
    bundle of 25 polygons at that point and nothing anywhere else. *)
Theorem last_click_wins (fuel : nat) (u : Frame.ui) (w : world)
    (x1 y1 x2 y2 : float) :
  allocated w ->
  25 < fuel ->
  Frame.poses u = [] ->
  Num.le x2 (Frame.innerWidth u) = true ->
  Num.le y2 (Frame.innerHeight u - Frame.spacing u) = true ->
  Num.gt x2 0 = true ->
  Num.gt y2 0 = true ->
  let u1 := Frame.mouseClicked (mouse_at x1 y1 u) in
  let u2 := Frame.mouseClicked (mouse_at x2 y2 u1) in
  exists u' w' shapes,
    Frame.draw fuel u2 w = Ok u' w'
    /\ Frame.lastMouse u' = Point 0 0
    /\ canvas w' = canvas w ++ shapes
    /\ length shapes = 25
    /\ Forall (fun sh => head (outline sh) = Some (Point x2 y2)) shapes.
Proof.
  intros Hal Hf Hp Hx Hy Hx0 Hy0 u1 u2.
  assert (Hu2 : u2 = Frame.set_lastMouse (Point x2 y2) (mouse_at x2 y2 u1)).
  { subst u2. unfold Frame.mouseClicked at 1, Frame.saveMouse.
    assert (Hw : Frame.innerWidth u1 = Frame.innerWidth u
                 /\ Frame.innerHeight u1 = Frame.innerHeight u
                 /\ Frame.spacing u1 = Frame.spacing u).
    { subst u1. unfold Frame.mouseClicked, Frame.saveMouse.
      by destruct (_ && _). }
    destruct Hw as (Hw1 & Hw2 & Hw3).
    cbn [mouse_at Frame.mouseX Frame.mouseY Frame.innerWidth Frame.innerHeight
         Frame.spacing]. by rewrite Hw1, Hw2, Hw3, Hx, Hy. }
  assert (Hp2 : Frame.poses u2 = []).
  { rewrite Hu2. cbn. subst u1. unfold Frame.mouseClicked, Frame.saveMouse.
    by destruct (_ && _). }
  destruct (draw_click fuel u2 w Hal Hf Hp2) as (w' & shapes & Hr & Hc & Hl & HF & _).
  - by rewrite Hu2.
  - by rewrite Hu2.
  - exists (Frame.set_lastMouse (Point 0 0) u2), w', shapes.
    split; [exact Hr|]. split; [done|]. split; [done|]. split; [done|].
    eapply Forall_impl; [exact HF|]. intros sh [H _]. by rewrite Hu2 in H.
Qed.

Lemma last_click_wins_witness :
  let u1 := Frame.mouseClicked (mouse_at 300 200 clicked) in
  let u2 := Frame.mouseClicked (mouse_at 40 50 u1) in
  exists u' w' shapes,
    Frame.draw 26 u2 studio = Ok u' w'
    /\ Frame.lastMouse u' = Point 0 0
    /\ canvas w' = canvas studio ++ shapes
    /\ length shapes = 25
    /\ Forall (fun sh => head (outline sh) = Some (Point 40 50)) shapes.
Proof.
  apply (last_click_wins 26 clicked studio 300 200 40 50);
    [apply studio_allocated|lia|reflexivity..].
Defined.

Lemma click_paints_one_bundle_witness :
  let u0 := Frame.set_lastMouse (Point 0 0) clicked in
  exists w' shapes,
    Frame.draw 26 clicked studio = Ok u0 w'
    /\ canvas w' = canvas studio ++ shapes
    /\ length shapes = 25
    /\ Forall (fun sh => head (outline sh) = Some (Frame.lastMouse clicked)
                         /\ length (outline sh) = 32
                         /\ fill sh = Colour (brushColor w') 2) shapes
    /\ (forall k, exists w'',
          Frame.frames 26 k u0 w' = Ok u0 w'' /\ canvas w'' = canvas w').
Proof.
  apply (click_paints_one_bundle 26 clicked studio);
    [apply studio_allocated|lia|reflexivity|reflexivity|reflexivity].
Defined.

(** X9: a frame with a pose.  Each wrist of the first pose that is confident
    enough and has moved in both coordinates since it was last painted is
    painted once, the left one first, with one bundle of 25 polygons that
    start at the wrist, and is remembered; a wrist that fails the test is
    neither painted nor remembered.  The saved click is neither painted nor
    forgotten as long as a pose is detected. *)
Theorem pose_paints_wrists (fuel : nat) (u : Frame.ui) (w : world)
    (p : Frame.pose) (ps : list Frame.pose) :
  allocated w ->
  25 < fuel ->
  Frame.poses u = p :: ps ->
  let l := followed (Frame.leftWrist p) (Frame.lastLeft u) in
  let r := followed (Frame.rightWrist p) (Frame.lastRight u) in
  exists u' w' left right,
    Frame.draw fuel u w = Ok u' w'
    /\ canvas w' = canvas w ++ left ++ right
    /\ length left = (if l then 25 else 0)
    /\ length right = (if r then 25 else 0)
    /\ Forall (fun sh => head (outline sh) = Some (position (Frame.leftWrist p))
                         /\ length (outline sh) = 32) left
    /\ Forall (fun sh => head (outline sh) = Some (position (Frame.rightWrist p))
                         /\ length (outline sh) = 32) right
    /\ Frame.lastLeft u'
       = (if l then position (Frame.leftWrist p) else Frame.lastLeft u)
    /\ Frame.lastRight u'
       = (if r then position (Frame.rightWrist p) else Frame.lastRight u)
    /\ Frame.lastMouse u' = Frame.lastMouse u
    /\ Frame.poses u' = Frame.poses u.
Proof.
  intros Hal Hf Hp l r.
  destruct (draw_pose fuel u w p ps Hal Hf Hp)
    as (w' & left & right & Hr & Hc & Hl & Hrt & HFl & HFr).
  fold l in Hr, Hl. fold r in Hr, Hrt.
  eexists _, w', left, right. split; [exact Hr|]. split; [done|].
  split; [by destruct l|]. split; [by destruct r|].
  split; [eapply Forall_impl; [exact HFl|]; by intros sh [[? ?] _]|].
  split; [eapply Forall_impl; [exact HFr|]; by intros sh [[? ?] _]|].
  by destruct l, r.
Qed.

Lemma pose_paints_wrists_witness :
  let l := followed (Frame.leftWrist waving) (Frame.lastLeft tracked) in
  let r := followed (Frame.rightWrist waving) (Frame.lastRight tracked) in
  exists u' w' left right,
    Frame.draw 26 tracked studio = Ok u' w'
    /\ canvas w' = canvas studio ++ left ++ right
    /\ length left = (if l then 25 else 0)
    /\ length right = (if r then 25 else 0)
    /\ Forall (fun sh => head (outline sh) = Some (position (Frame.leftWrist waving))
                         /\ length (outline sh) = 32) left
    /\ Forall (fun sh => head (outline sh) = Some (position (Frame.rightWrist waving))
                         /\ length (outline sh) = 32) right
    /\ Frame.lastLeft u'
       = (if l then position (Frame.leftWrist waving) else Frame.lastLeft tracked)
    /\ Frame.lastRight u'
       = (if r then position (Frame.rightWrist waving) else Frame.lastRight tracked)
    /\ Frame.lastMouse u' = Frame.lastMouse tracked
    /\ Frame.poses u' = Frame.poses tracked.
Proof.
  apply (pose_paints_wrists 26 tracked studio waving []);
    [apply studio_allocated|lia|reflexivity].
Defined.

(** X10: a wrist has to move in both coordinates.  With a pose detected, a
    left wrist whose x equals the x it was last painted at and a right wrist
    whose y equals the y it was last painted at are not painted, however
    confident the detection and however far they moved in the other
    coordinate: the frame draws nothing and remembers nothing. *)
Theorem wrist_must_move_both_ways (fuel : nat) (u : Frame.ui) (w : world)
    (p : Frame.pose) (ps : list Frame.pose) :
  Frame.poses u = p :: ps ->
  PrimFloat.eqb (px (Frame.lastLeft u)) (Frame.kx (Frame.leftWrist p)) = true ->
  PrimFloat.eqb (py (Frame.lastRight u)) (Frame.ky (Frame.rightWrist p)) = true ->
  exists w', Frame.draw fuel u w = Ok u w' /\ canvas w' = canvas w.
Proof.
  intros Hp Hx Hy. exists (with_picked u w).
  split; [|apply with_picked_canvas].
  unfold Frame.draw. rewrite (bind_ok _ _ _ _ _ (pick_colour_picked u w)), Hp.
  unfold Frame.follow, Frame.ne, bind. rewrite Hx. cbn [negb andb].
  destruct (Num.gt (Frame.confidence (Frame.leftWrist p)) 0.6); cbn [ret];
    rewrite Hy, andb_false_r;
    by destruct (Num.gt (Frame.confidence (Frame.rightWrist p)) 0.6).
Qed.

Lemma wrist_must_move_both_ways_witness :
  exists w', Frame.draw 26 held studio = Ok held w' /\ canvas w' = canvas studio.
Proof.
  apply (wrist_must_move_both_ways 26 held studio waving []); reflexivity.
Defined.

(** ** The size of the brush *)

Lemma SFltb_leb x y : SFltb x y = true -> SFleb x y = true.
Proof.
  unfold SFltb, SFleb.
  destruct x as [[]|[]| |[] mx ex], y as [[]|[]| |[] my ey]; cbn; try done;
    intros H1; order_cases; try done; lia.
Qed.

Lemma SFleb_total x y :
  SFeqb x x = true -> SFeqb y y = true ->
  SFltb x y = false -> SFleb y x = true.
Proof.
  unfold SFltb, SFleb, SFeqb.
  destruct x as [[]|[]| |[] mx ex], y as [[]|[]| |[] my ey]; cbn; try done;
    intros _ _ H1; order_cases; try done; lia.
Qed.

Lemma ltb_leb (x y : float) : PrimFloat.ltb x y = true -> PrimFloat.leb x y = true.
Proof. rewrite ltb_spec, leb_spec. apply SFltb_leb. Qed.

Lemma leb_total (x y : float) :
  PrimFloat.is_nan x = false -> PrimFloat.is_nan y = false ->
  PrimFloat.ltb x y = false -> PrimFloat.leb y x = true.
Proof.
  unfold PrimFloat.is_nan. intros Hx%negb_false_iff Hy%negb_false_iff.
  rewrite FloatAxioms.eqb_spec in Hx, Hy. rewrite ltb_spec, leb_spec.
  by apply SFleb_total.
Qed.

Lemma constrain_bounds (x : float) :
  PrimFloat.is_nan x = false ->
  PrimFloat.leb 8 (Controls.constrain x 8 64) = true
  /\ PrimFloat.leb (Controls.constrain x 8 64) 64 = true.
Proof.
  intros Hx. unfold Controls.constrain, Controls.min.
  rewrite Hx. change (PrimFloat.is_nan 64) with false. cbv iota.
  destruct (PrimFloat.ltb x 64) eqn:H64.
  - unfold Controls.max. rewrite Hx.
    change (PrimFloat.is_nan 8) with false. cbv iota.
    destruct (PrimFloat.ltb x 8) eqn:H8; [done|].
    assert (H8' : PrimFloat.leb 8 x = true) by (by apply leb_total).
    destruct (PrimFloat.ltb 8 x); [by split; [|apply ltb_leb]|].
    destruct (PrimFloat.get_sign x); [done|]. by split; [|apply ltb_leb].
  - assert (Hm : (if PrimFloat.ltb 64 x then 64%float
                  else if PrimFloat.get_sign x then x else 64%float) = 64%float
                 \/ (PrimFloat.ltb 64 x = false /\ PrimFloat.get_sign x = true)).
    { destruct (PrimFloat.ltb 64 x); [by left|].
      destruct (PrimFloat.get_sign x); [by right|by left]. }
    destruct Hm as [->|[Hlt Hs]]; [done|]. rewrite Hlt, Hs.
    assert (H1 : PrimFloat.leb 64 x = true) by (by apply leb_total).
    assert (H2 : PrimFloat.leb x 64 = true) by (by apply leb_total).
    unfold Controls.max. rewrite Hx.
    change (PrimFloat.is_nan 8) with false. cbv iota.
    assert (H3 : PrimFloat.ltb 8 x = true)
      by (by apply (ltb_leb_trans 8 64 x)).
    pose proof (ltb_leb _ _ H3) as H4.
    by rewrite (leb_not_ltb 8 x), H3.
Qed.

(** X11: the brush radius stays in range.  Whatever number the radius is and
    whatever step [changeBrushSize] is called with, as long as their sum is
    a number the new radius is at least 8 and at most 64; nothing else of
    the world changes. *)
Theorem brush_size_bounded (i : float) (w : world) :
  PrimFloat.is_nan (i * 8 + brushRadius w) = false ->
  let w' := Controls.changeBrushSize i w in
  PrimFloat.leb 8 (brushRadius w') = true
  /\ PrimFloat.leb (brushRadius w') 64 = true
  /\ w' = Controls.set_brushRadius (brushRadius w') w.
Proof.
  intros H. cbn. destruct (constrain_bounds _ H) as [H1 H2]. by rewrite H1, H2.
Qed.

Lemma brush_size_bounded_witness :
  let w' := Controls.changeBrushSize 1 studio in
  PrimFloat.leb 8 (brushRadius w') = true
  /\ PrimFloat.leb (brushRadius w') 64 = true
  /\ w' = Controls.set_brushRadius (brushRadius w') studio.
Proof. apply (brush_size_bounded 1 studio). reflexivity. Defined.

Lemma press_rung (k : nat) (up : bool) (w : world) :
  1 <= k <= 8 ->
  brushRadius w = Num.of_nat (8 * k) ->
  brushRadius (Controls.press w up) = Num.of_nat (8 * Controls.rung k up).
Proof.
  intros Hk Hr. unfold Controls.press, Controls.increaseBrushSize,
    Controls.decreaseBrushSize, Controls.changeBrushSize.
  destruct up; cbn [brushRadius Controls.set_brushRadius]; rewrite Hr;
    destruct k as [|[|[|[|[|[|[|[|[|k]]]]]]]]]; try lia; by vm_compute.
Qed.

Lemma rung_range (k : nat) (up : bool) :
  1 <= k <= 8 -> 1 <= Controls.rung k up <= 8.
Proof. unfold Controls.rung. destruct up; lia. Qed.

(** X12: the ladder of brush sizes.  From a radius [8 * k] with [k] between
    1 and 8 (the sketches start at 32), any run of presses of the two
    buttons leaves a radius that is again such a multiple of 8: each press
    of the one moves a rung up, of the other a rung down, and at the ends of
    the ladder, 64 and 8, a press does nothing. *)
Theorem brush_size_ladder (presses : list bool) (k : nat) (w : world) :
  1 <= k <= 8 ->
  brushRadius w = Num.of_nat (8 * k) ->
  let k' := fold_left Controls.rung presses k in
  brushRadius (fold_left Controls.press presses w) = Num.of_nat (8 * k')
  /\ 1 <= k' <= 8
  /\ brushRadius (Controls.increaseBrushSize w) = Num.of_nat (8 * Nat.min 8 (S k))
  /\ brushRadius (Controls.decreaseBrushSize w) = Num.of_nat (8 * Nat.max 1 (k - 1)).
Proof.
  intros Hk Hr. cbv zeta. split; [|split; [|split]].
  - revert k w Hk Hr. induction presses as [|up presses IH]; intros k w Hk Hr;
      [done|].
    cbn [fold_left]. apply IH; [by apply rung_range|by apply press_rung].
  - clear Hr. revert k Hk. induction presses as [|up presses IH]; intros k Hk;
      [done|].
    cbn [fold_left]. apply IH. by apply rung_range.
  - apply (press_rung k true w Hk Hr).
  - apply (press_rung k false w Hk Hr).
Qed.

Lemma brush_size_ladder_witness :
  let k' := fold_left Controls.rung [true; true; false] 4 in
  brushRadius (fold_left Controls.press [true; true; false] studio)
  = Num.of_nat (8 * k')
  /\ 1 <= k' <= 8
  /\ brushRadius (Controls.increaseBrushSize studio) = Num.of_nat (8 * Nat.min 8 5)
  /\ brushRadius (Controls.decreaseBrushSize studio) = Num.of_nat (8 * Nat.max 1 (4 - 1)).
Proof.
  apply (brush_size_ladder [true; true; false] 4 studio); [lia|reflexivity].
Defined.

(** ** The switches for pose tracking and for listening *)

Lemma step_keeps_model (s : Controls.switch) (e : Controls.event) :
  (Controls.active s = true -> Controls.loaded s = true) ->
  Controls.active (Controls.step s e) = true ->
  Controls.loaded (Controls.step s e) = true.
Proof. destruct s as [[] [] [|n]], e; cbn; auto. Qed.

Lemma run_keeps_model (es : list Controls.event) : forall s,
  (Controls.active s = true -> Controls.loaded s = true) ->
  Controls.active (Controls.run es s) = true ->
  Controls.loaded (Controls.run es s) = true.
Proof.
  induction es as [|e es IH]; intros s Hs; [done|].
  cbn [Controls.run fold_left]. apply IH. by apply step_keeps_model.
Qed.

(** X13: a status is never on without its model.  From the state the sketch
    starts in, after any sequence of clicks on the button and of callbacks
    of the requests for the device, granted or refused, [tracking] (or
    [listening]) is true only if [poseNet] (or [audioAnalyser]) exists: the
    frame loop never reads the analyser before it is there. *)
Theorem status_needs_model (es : list Controls.event) :
  Controls.active (Controls.run es Controls.off) = true ->
  Controls.loaded (Controls.run es Controls.off) = true.
Proof. by apply run_keeps_model. Qed.

Lemma status_needs_model_witness :
  Controls.loaded
    (Controls.run [Controls.Click; Controls.Granted] Controls.off) = true.
Proof.
  apply (status_needs_model [Controls.Click; Controls.Granted]). reflexivity.
Defined.

Lemma clicks_wait (k : nat) : forall n,
  Controls.run (repeat Controls.Click k) (Controls.Switch false false n)
  = Controls.Switch false false (k + n).
Proof.
  induction k as [|k IH]; intros n; [done|].
  cbn [repeat Controls.run fold_left]. fold (Controls.run (repeat Controls.Click k)).
  cbn [Controls.step Controls.toggle Controls.flip Controls.loaded negb andb
       Controls.active Controls.waiting].
  rewrite IH. f_equal. lia.
Qed.

Lemma grants_flip (j : nat) : forall a n,
  Controls.run (repeat Controls.Granted j) (Controls.Switch true a (j + n))
  = Controls.Switch true (xorb a (Nat.odd j)) n.
Proof.
  induction j as [|j IH]; intros a n.
  - cbn. by rewrite xorb_false_r.
  - cbn [repeat Controls.run fold_left].
    fold (Controls.run (repeat Controls.Granted j)).
    replace (Controls.step (Controls.Switch true a (S j + n)) Controls.Granted)
      with (Controls.Switch true (negb a) (j + n)).
    + rewrite IH. f_equal. rewrite Nat.odd_succ, <- Nat.negb_odd.
      by destruct a, (Nat.odd j).
    + cbn. unfold Controls.granted, Controls.toggle, Controls.flip. cbn.
      rewrite ?Nat.sub_0_r. by destruct a.
Qed.

(** X14: clicks while the model loads.  Every click before the model exists
    requests the device again and leaves the status off; when the requests
    are then granted, each callback toggles the status once.  So [k + 1]
    clicks while loading leave the status on only when their number is odd:
    after a double click the model is there and the status is off. *)
Theorem clicks_while_loading (k : nat) :
  Controls.run (repeat Controls.Click (S k)) Controls.off
  = Controls.Switch false false (S k)
  /\ Controls.run (repeat Controls.Click (S k) ++ repeat Controls.Granted (S k))
       Controls.off
     = Controls.Switch true (Nat.odd (S k)) 0.
Proof.
  pose proof (clicks_wait (S k) 0) as Hc. rewrite Nat.add_0_r in Hc.
  split; [exact Hc|].
  unfold Controls.run in *. rewrite fold_left_app. unfold Controls.off.
  rewrite Hc. cbn [repeat fold_left].
  replace (Controls.step (Controls.Switch false false (S k)) Controls.Granted)
    with (Controls.Switch true true (k + 0))
    by (cbn; unfold Controls.granted, Controls.toggle, Controls.flip; cbn;
        by rewrite ?Nat.sub_0_r, Nat.add_0_r).
  pose proof (grants_flip k true 0) as Hg. unfold Controls.run in Hg.
  rewrite Hg. f_equal. rewrite Nat.odd_succ, <- Nat.negb_odd. done.
Qed.

(** X15: once the model exists, a click flips the status, requests nothing,
    and a second click undoes the first. *)
Theorem click_flips_when_loaded (s : Controls.switch) :
  Controls.loaded s = true ->
  Controls.toggle s
  = Controls.Switch true (negb (Controls.active s)) (Controls.waiting s)
  /\ Controls.toggle (Controls.toggle s) = s.
Proof. destruct s as [[] [] n]; by cbn. Qed.

Lemma click_flips_when_loaded_witness :
  Controls.toggle (Controls.Switch true false 0)
  = Controls.Switch true (negb false) 0
  /\ Controls.toggle (Controls.toggle (Controls.Switch true false 0))
     = Controls.Switch true false 0.
Proof. apply (click_flips_when_loaded (Controls.Switch true false 0)). reflexivity. Defined.

(** ** The pitch detector: autocorrelation, first dip and highest peak *)

Lemma SFleb_ltb_trans x y z :
  SFleb x y = true -> SFltb y z = true -> SFltb x z = true.
Proof.
  unfold SFltb, SFleb.
  destruct x as [[]|[]| |[] mx ex], y as [[]|[]| |[] my ey],
    z as [[]|[]| |[] mz ez]; cbn; try done;
    intros H1 H2; order_cases; try done; lia.
Qed.

Lemma SFltb_number x y : SFltb x y = true -> SFeqb y y = true.
Proof.
  unfold SFltb, SFeqb.
  destruct x as [[]|[]| |[] mx ex], y as [[]|[]| |[] my ey]; cbn; try done;
    intros _; by rewrite Z.compare_refl, Pos.compare_cont_refl.
Qed.

Lemma leb_ltb_trans (x y z : float) :
  PrimFloat.leb x y = true -> PrimFloat.ltb y z = true -> PrimFloat.ltb x z = true.
Proof. rewrite !ltb_spec, leb_spec. apply SFleb_ltb_trans. Qed.

Lemma ltb_trans (x y z : float) :
  PrimFloat.ltb x y = true -> PrimFloat.ltb y z = true -> PrimFloat.ltb x z = true.
Proof. intros H1 H2. eapply ltb_leb_trans; [exact H1|by apply ltb_leb]. Qed.

Lemma ltb_irrefl (x : float) : PrimFloat.ltb x x = false.
Proof.
  destruct (PrimFloat.ltb x x) eqn:E; [|done].
  by rewrite (leb_not_ltb x x (ltb_leb _ _ E)) in E.
Qed.

Lemma ltb_number (x y : float) :
  PrimFloat.ltb x y = true -> PrimFloat.is_nan y = false.
Proof.
  unfold PrimFloat.is_nan. rewrite ltb_spec, FloatAxioms.eqb_spec.
  intros H%SFltb_number. by rewrite H.
Qed.

Lemma ltb_nan_l (x : float) : PrimFloat.ltb PrimFloat.nan x = false.
Proof. rewrite ltb_spec. reflexivity. Qed.

Lemma correlation_from (rest : list float) : forall pre acc,
  fold_left
    (fun acc j =>
       let x := Pitch.number ((pre ++ rest) !! j) in
       let y := Pitch.number ((pre ++ rest) !! (j + 0)) in
       (acc + x * y)%float)
    (seq (length pre) (length rest)) acc
  = fold_left (fun acc x => (acc + x * x)%float) rest acc.
Proof.
  induction rest as [|x rest IH]; intros pre acc; [done|].
  cbn [length seq fold_left]. rewrite Nat.add_0_r.
  rewrite (list_lookup_middle pre rest x (length pre) eq_refl).
  cbn [Pitch.number].
  specialize (IH (pre ++ [x]) (acc + x * x)%float).
  rewrite <- app_assoc in IH. cbn [app] in IH.
  rewrite length_app in IH. cbn [length] in IH.
  rewrite Nat.add_1_r in IH. exact IH.
Qed.

(** X16: the autocorrelation at lag 0 is the energy of the signal.  The
    array [c] has one entry per sample, and [c[0]] is the sum of the
    squares of the samples, added in the order the first loop of the
    detector adds them. *)
Theorem energy_at_lag_zero (buffer : list float) :
  length (Pitch.autocorrelation buffer) = length buffer
  /\ Pitch.correlation buffer 0 = Pitch.sum_squares buffer
  /\ (buffer <> [] ->
      head (Pitch.autocorrelation buffer) = Some (Pitch.sum_squares buffer)).
Proof.
  assert (H0 : Pitch.correlation buffer 0 = Pitch.sum_squares buffer).
  { unfold Pitch.correlation, Pitch.sum_squares. rewrite Nat.sub_0_r.
    apply (correlation_from buffer [] 0%float). }
  split; [|split; [exact H0|]].
  - unfold Pitch.autocorrelation. by rewrite length_map, length_seq.
  - intros Hne. unfold Pitch.autocorrelation.
    destruct buffer as [|x rest]; [done|].
    cbn [length seq map head]. by rewrite H0.
Qed.

Lemma first_dip_spec (c : list float) :
  (forall i, i < Pitch.first_dip c ->
     Num.gt (Pitch.number (c !! i)) (Pitch.number (c !! S i)) = true)
  /\ Num.gt (Pitch.number (c !! Pitch.first_dip c))
            (Pitch.number (c !! S (Pitch.first_dip c))) = false
  /\ Pitch.first_dip c <= length c - 1.
Proof.
  induction c as [|x c IH].
  - split; [cbn; lia|]. split; [reflexivity|cbn; lia].
  - destruct c as [|y rest].
    + split; [cbn; lia|]. split; [apply ltb_nan_l|cbn; lia].
    + change (Pitch.first_dip (x :: y :: rest))
        with (if Num.gt x y then S (Pitch.first_dip (y :: rest)) else 0).
      destruct (Num.gt x y) eqn:E.
      * destruct IH as (I1 & I2 & I3). split.
        { intros [|i] Hi; [exact E|]. apply (I1 i). lia. }
        split; [exact I2|]. cbn [length] in *. lia.
      * split; [lia|]. split; [exact E|cbn; lia].
Qed.

(** X17: the first dip.  The loop [while (c[d] > c[d + 1]) d++] stops, and at
    the end of the longest strictly descending run that starts at lag 0:
    every lag before [d] is strictly above its successor, the lag [d] is
    not, and [d] is an index of the array (0 when the array is empty): the
    loop never runs past the last element, whose successor is undefined. *)
Theorem first_dip_descends (c : list float) :
  let d := Pitch.first_dip c in
  (forall i, i < d ->
     Num.gt (Pitch.number (c !! i)) (Pitch.number (c !! S i)) = true)
  /\ Num.gt (Pitch.number (c !! d)) (Pitch.number (c !! S d)) = false
  /\ d <= length c - 1
  /\ (forall i, i <= d -> c <> [] -> is_Some (c !! i)).
Proof.
  destruct (first_dip_spec c) as (H1 & H2 & H3).
  split; [exact H1|]. split; [exact H2|]. split; [exact H3|].
  intros i Hi Hne. apply lookup_lt_is_Some.
  destruct c; [done|]. cbn [length] in *. lia.
Qed.

(** The state of the loop that looks for the peak, after the lags from [d]
    to [d + k - 1]. *)
Lemma max_peak_loop (c : list float) (d : nat) : forall k,
  let '(maxVal, maxPos) :=
    fold_left
      (fun '(maxVal, maxPos) i =>
         if Num.gt (Pitch.number (c !! i)) maxVal
         then (Pitch.number (c !! i), Z.of_nat i)
         else (maxVal, maxPos))
      (seq d k) ((-1)%float, (-1)%Z) in
  PrimFloat.is_nan maxVal = false
  /\ PrimFloat.leb (-1) maxVal = true
  /\ (forall j, d <= j < d + k ->
        Num.gt (Pitch.number (c !! j)) maxVal = false)
  /\ ((maxPos = (-1)%Z /\ maxVal = (-1)%float)
      \/ exists i, maxPos = Z.of_nat i /\ d <= i < d + k
           /\ maxVal = Pitch.number (c !! i)
           /\ Num.gt maxVal (-1) = true
           /\ forall j, d <= j < i ->
                PrimFloat.is_nan (Pitch.number (c !! j)) = false ->
                PrimFloat.ltb (Pitch.number (c !! j)) maxVal = true).
Proof.
  induction k as [|k IH].
  - cbn. split; [done|]. split; [done|]. split; [intros j Hj; lia|by left].
  - rewrite seq_S, fold_left_app. cbn [fold_left].
    destruct (fold_left _ (seq d k) _) as [mv mp].
    destruct IH as (Hnan & Hlow & Hall & Hpos).
    unfold Num.gt in *.
    destruct (PrimFloat.ltb mv (Pitch.number (c !! (d + k)))) eqn:E.
    + set (x := Pitch.number (c !! (d + k))) in *.
      assert (Hx : PrimFloat.is_nan x = false) by (by eapply ltb_number).
      split; [exact Hx|]. split; [apply ltb_leb; by eapply leb_ltb_trans|].
      split.
      * intros j Hj. destruct (decide (j = d + k)) as [->|Hne];
          [apply ltb_irrefl|].
        destruct (PrimFloat.ltb x (Pitch.number (c !! j))) eqn:F; [|done].
        rewrite <- (Hall j); [|lia]. symmetry. by eapply ltb_trans.
      * right. exists (d + k). split; [done|]. split; [lia|]. split; [done|].
        split; [by eapply leb_ltb_trans|].
        intros j Hj Hnj. eapply leb_ltb_trans; [|exact E].
        apply leb_total; [done..|]. apply Hall. lia.
    + split; [done|]. split; [done|]. split.
      * intros j Hj. destruct (decide (j = d + k)) as [->|Hne]; [done|].
        apply Hall. lia.
      * destruct Hpos as [?|(i & ? & ? & ? & ? & ?)]; [by left|].
        right. exists i. repeat split; try done; lia.
Qed.

(** X18: the highest peak.  The loop over the lags from [d] to [n - 1]
    leaves either the initial [-1] in both variables, when no value at
    these lags is above -1, or the first lag at which the largest value
    is taken: the value there is above -1, no value at these lags is above
    it, and every value at an earlier lag that is a number is strictly
    below it. *)
Theorem max_peak_highest (c : list float) (d n : nat) :
  let maxVal := fst (Pitch.max_peak c d n) in
  let maxPos := snd (Pitch.max_peak c d n) in
  (forall j, d <= j < n -> Num.gt (Pitch.number (c !! j)) maxVal = false)
  /\ ((maxPos = (-1)%Z /\ maxVal = (-1)%float)
      \/ exists i, maxPos = Z.of_nat i /\ d <= i < n
           /\ maxVal = Pitch.number (c !! i)
           /\ Num.gt maxVal (-1) = true
           /\ forall j, d <= j < i ->
                PrimFloat.is_nan (Pitch.number (c !! j)) = false ->
                PrimFloat.ltb (Pitch.number (c !! j)) maxVal = true).
Proof.
  cbv zeta. unfold Pitch.max_peak.
  pose proof (max_peak_loop c d (n - d)) as H.
  destruct (fold_left _ (seq d (n - d)) _) as [mv mp]. cbn [fst snd].
  destruct H as (_ & _ & Hall & Hpos). split.
  - intros j Hj. apply Hall. lia.
  - destruct Hpos as [?|(i & ? & ? & ? & ? & ?)]; [by left|].
    right. exists i. repeat split; try done; lia.
Qed.

(** ** The pitch detector: what the trimming keeps *)

Lemma trim_edges_found (buffer : list float) :
  let e := Pitch.trim_edges buffer in
  Pitch.r1 e <= (length buffer + 1) / 2 - 1
  /\ (Pitch.r2 e = length buffer - 1
      \/ exists i, 1 <= i <= (length buffer + 1) / 2 - 1
                   /\ Pitch.r2 e = length buffer - i).
Proof.
  cbv zeta. unfold Pitch.trim_edges.
  destruct (trim_loop_edges buffer (Pitch.first_half buffer)
              (Pitch.Edges 0 false (length buffer - 1) false)) as [-> ->].
  cbn [Pitch.r1Found Pitch.r2Found Pitch.r1 Pitch.r2]. split.
  - destruct (find (Pitch.quiet buffer) _) as [i|] eqn:E1; [|lia].
    apply find_some in E1 as [Hin _]. apply in_seq in Hin. lia.
  - destruct (find (fun i => Pitch.quiet buffer (length buffer - i)) _)
      as [i|] eqn:E2; [|by left].
    apply find_some in E2 as [Hin Hq]. apply in_seq in Hin.
    right. exists i. split; [|done]. split; [|lia].
    destruct i; [|lia]. rewrite Nat.sub_0_r, quiet_past_end in Hq. done.
Qed.

(** X19: what the trimming keeps.  For a buffer of at least two samples the
    two indices the trimming loop leaves satisfy [r1 < r2 <= length - 1]:
    the piece [buffer.slice(r1, r2)] the detector goes on with is never
    empty and never the whole buffer; the last sample is always dropped. *)
Theorem trimming_keeps_a_piece (buffer : list float) :
  2 <= length buffer ->
  let e := Pitch.trim_edges buffer in
  Pitch.r1 e < Pitch.r2 e <= length buffer - 1
  /\ length (Pitch.trimmed buffer) = Pitch.r2 e - Pitch.r1 e
  /\ 1 <= length (Pitch.trimmed buffer) <= length buffer - 1
  /\ Pitch.trimmed buffer `sublist_of` removelast buffer.
Proof.
  intros Hlen. cbv zeta.
  destruct (trim_edges_found buffer) as [H1 H2]. cbv zeta in H1, H2.
  pose proof (Nat.div_mod_eq (length buffer + 1) 2) as Hd.
  pose proof (Nat.mod_upper_bound (length buffer + 1) 2 ltac:(lia)) as Hm.
  assert (Hr : Pitch.r1 (Pitch.trim_edges buffer)
               < Pitch.r2 (Pitch.trim_edges buffer) <= length buffer - 1).
  { destruct H2 as [->|(i & Hi & ->)]; lia. }
  assert (Hl : length (Pitch.trimmed buffer)
               = Pitch.r2 (Pitch.trim_edges buffer)
                 - Pitch.r1 (Pitch.trim_edges buffer)).
  { unfold Pitch.trimmed, Pitch.slice. rewrite length_take, length_drop. lia. }
  split; [exact Hr|]. split; [exact Hl|]. split; [lia|].
  unfold Pitch.trimmed, Pitch.slice.
  set (a := Pitch.r1 (Pitch.trim_edges buffer)) in *.
  set (b := Pitch.r2 (Pitch.trim_edges buffer)) in *.
  assert (Hrl : removelast buffer = take (length buffer - 1) buffer).
  { clear. induction buffer as [|x [|y l] IH]; [done..|].
    change (removelast (x :: y :: l)) with (x :: removelast (y :: l)).
    rewrite IH.
    by replace (length (x :: y :: l) - 1) with (S (length (y :: l) - 1))
      by (cbn [length]; lia). }
  rewrite Hrl.
  replace (take (b - a) (drop a buffer))
    with (drop a (take b buffer))
    by (rewrite take_drop_commute; by replace (a + (b - a)) with b by lia).
  etrans; [apply sublist_drop|].
  replace (take b buffer) with (take b (take (length buffer - 1) buffer))
    by (rewrite take_take; by replace (b `min` (length buffer - 1)) with b by lia).
  apply sublist_take.
Qed.

Lemma trimming_keeps_a_piece_witness :
  let e := Pitch.trim_edges late in
  Pitch.r1 e < Pitch.r2 e <= length late - 1
  /\ length (Pitch.trimmed late) = Pitch.r2 e - Pitch.r1 e
  /\ 1 <= length (Pitch.trimmed late) <= length late - 1
  /\ Pitch.trimmed late `sublist_of` removelast late.
Proof. apply (trimming_keeps_a_piece late). simpl. lia. Defined.

Lemma trimmed_short (buffer : list float) :
  length buffer <= 1 -> Pitch.trimmed buffer = [].
Proof.
  intros Hlen. apply length_zero_iff_nil.
  destruct (trim_edges_found buffer) as [H1 H2]. cbv zeta in H1, H2.
  unfold Pitch.trimmed, Pitch.slice. rewrite length_take, length_drop.
  assert (Hh : (length buffer + 1) / 2 - 1 = 0).
  { destruct buffer as [|x [|y l]]; [done..|]. cbn [length] in Hlen. lia. }
  destruct H2 as [->|(i & Hi & ->)]; lia.
Qed.

(** X20: buffers too short to trim.  A buffer of one sample that passes the
    silence test, and the empty buffer, which always passes it, are trimmed
    to nothing; no peak is found, and the detector returns
    [round(sampleRate / -1)], a negative frequency, not [false]. *)
Theorem short_buffer_negative (sampleRate : float) (buffer : list float) :
  length buffer <= 1 ->
  PrimFloat.ltb (Pitch.rms buffer) 0.01 = false ->
  Pitch.trimmed buffer = []
  /\ Pitch.acf2plus sampleRate buffer
     = Pitch.Frequency (round (sampleRate / -1))
  /\ Pitch.acf2plus sampleRate []
     = Pitch.Frequency (round (sampleRate / -1)).
Proof.
  intros Hlen Hloud. split; [by apply trimmed_short|]. split.
  - unfold Pitch.acf2plus, Pitch.detect.
    by rewrite Hloud, trimmed_short.
  - reflexivity.
Qed.

Lemma short_buffer_negative_witness :
  Pitch.trimmed [0.5%float] = []
  /\ Pitch.acf2plus 44100 [0.5%float]
     = Pitch.Frequency (round (44100 / -1))
  /\ Pitch.acf2plus 44100 []
     = Pitch.Frequency (round (44100 / -1)).
Proof.
  apply (short_buffer_negative 44100 [0.5%float]); [simpl; lia|reflexivity].
Defined.

(** ** The frame loop never fails *)

Lemma draw_ok (fuel : nat) (u : Frame.ui) (w : world) :
  allocated w -> 25 < fuel ->
  exists u' w' shapes,
    Frame.draw fuel u w = Ok u' w'
    /\ canvas w' = canvas w ++ shapes
    /\ (exists b, b <= 2 /\ length shapes = 25 * b)
    /\ Forall (fun sh => length (outline sh) = 32) shapes
    /\ allocated w'.
Proof.
  intros Hal Hf. unfold Frame.draw.
  rewrite (bind_ok _ _ _ _ _ (pick_colour_picked u w)).
  pose proof (with_picked_allocated u w Hal) as Hal0.
  destruct (Frame.poses u) as [|p ps].
  - destruct (Num.gt (px (Frame.lastMouse u)) 0
              && Num.gt (py (Frame.lastMouse u)) 0).
    + destruct (paint_fixed fuel (Frame.lastMouse u) (with_picked u w) Hal0 Hf)
        as (w' & shapes & Hr & Hc & Hl & HF & Hal' & _).
      rewrite (bind_ok _ _ _ _ _ Hr). eexists _, w', shapes.
      split; [reflexivity|]. split; [by rewrite Hc, with_picked_canvas|].
      split; [exists 1; split; [lia|by rewrite Hl]|]. split; [|done].
      eapply Forall_impl; [exact HF|]. by intros sh [[_ ?] _].
    + eexists _, _, []. split; [reflexivity|].
      split; [by rewrite app_nil_r, with_picked_canvas|].
      split; [exists 0; split; [lia|done]|]. by split.
  - destruct (follow_ok fuel (Frame.leftWrist p) (Frame.lastLeft u)
                Frame.set_lastLeft u (with_picked u w) Hal0 Hf)
      as (w1 & left & Hr1 & Hc1 & Hl1 & HF1 & Hal1 & _).
    rewrite (bind_ok _ _ _ _ _ Hr1).
    match goal with
    | |- context [Frame.follow fuel ?k ?last ?save ?u1 w1] =>
        destruct (follow_ok fuel k last save u1 w1 Hal1 Hf)
          as (w2 & right & Hr2 & Hc2 & Hl2 & HF2 & Hal2 & _)
    end.
    eexists _, w2, (left ++ right). split; [exact Hr2|].
    split; [by rewrite Hc2, Hc1, with_picked_canvas, app_assoc|].
    split; [|split; [|done]].
    + assert (Hb : forall b : bool, Nat.b2n b <= 1) by (by intros []; cbn; lia).
      match type of Hl1 with
      | _ = 25 * Nat.b2n ?a =>
          match type of Hl2 with
          | _ = 25 * Nat.b2n ?b =>
              exists (Nat.b2n a + Nat.b2n b);
              pose proof (Hb a); pose proof (Hb b)
          end
      end.
      rewrite length_app, Hl1, Hl2. split; lia.
    + apply Forall_app. split; (eapply Forall_impl; [eassumption|]);
        by intros sh [[_ ?] _].
Qed.

Lemma frames_ok (fuel : nat) : forall n u w,
  allocated w -> 25 < fuel ->
  exists u' w' shapes,
    Frame.frames fuel n u w = Ok u' w'
    /\ canvas w' = canvas w ++ shapes
    /\ (exists b, b <= 2 * n /\ length shapes = 25 * b)
    /\ Forall (fun sh => length (outline sh) = 32) shapes
    /\ allocated w'.
Proof.
  induction n as [|n IH]; intros u w Hal Hf.
  - exists u, w, []. split; [done|]. split; [by rewrite app_nil_r|].
    split; [exists 0; split; [lia|done]|]. by split.
  - destruct (draw_ok fuel u w Hal Hf)
      as (u1 & w1 & s1 & Hr1 & Hc1 & (b1 & Hb1 & Hl1) & HF1 & Hal1).
    destruct (IH u1 w1 Hal1 Hf)
      as (u2 & w2 & s2 & Hr2 & Hc2 & (b2 & Hb2 & Hl2) & HF2 & Hal2).
    exists u2, w2, (s1 ++ s2). cbn [Frame.frames].
    rewrite (bind_ok _ _ _ _ _ Hr1). split; [exact Hr2|].
    split; [by rewrite Hc2, Hc1, app_assoc|].
    split; [|split; [by apply Forall_app|done]].
    exists (b1 + b2). rewrite length_app, Hl1, Hl2. split; lia.
Qed.

(** X22: the frame loop never fails.  However the mouse, the saved
    positions and the poses stand, any number of frames of [draw] in a row
    return: no frame throws and no loop runs on.  The canvas only grows, by
    whole bundles of 25 polygons of 32 vertices, at most two bundles a
    frame; no shape once drawn is changed or removed. *)
Theorem frames_never_fail (fuel n : nat) (u : Frame.ui) (w : world) :
  allocated w ->
  25 < fuel ->
  exists u' w' shapes bundles,
    Frame.frames fuel n u w = Ok u' w'
    /\ canvas w' = canvas w ++ shapes
    /\ length shapes = 25 * bundles
    /\ bundles <= 2 * n
    /\ Forall (fun sh => length (outline sh) = 32) shapes.
Proof.
  intros Hal Hf.
  destruct (frames_ok fuel n u w Hal Hf)
    as (u' & w' & shapes & Hr & Hc & (b & Hb & Hl) & HF & _).
  by exists u', w', shapes, b.
Qed.

Lemma frames_never_fail_witness :
  exists u' w' shapes bundles,
    Frame.frames 26 3 tracked studio = Ok u' w'
    /\ canvas w' = canvas studio ++ shapes
    /\ length shapes = 25 * bundles
    /\ bundles <= 2 * 3
    /\ Forall (fun sh => length (outline sh) = 32) shapes.
Proof.
  apply (frames_never_fail 26 3 tracked studio); [apply studio_allocated|lia].
Defined.
